(** * LLM Council web client: streamed deliberation events and council settings

    A shallow embedding of the client modules of the repository:
    - [api.sendMessageStream] (the API client, server-sent event framing),
    - [App.jsx]: [handleSendMessage] and its event dispatcher, the settings
      handlers ([handleToggleModel], [handleRemoveModel],
      [handleSelectEditingCouncil], [handleSaveSettings]) and the sidebar
      recency helpers ([getLastInteracted], [sortConversationsByActivity],
      [mergeConversationsWithRecency]),
    together with a model of the deliberation session and of the Stage 2
    aggregation, which the repository specifies but whose code is not part of
    the client.

    React state is modelled by explicit state passing: a state setter called
    with an updater function is the application of that function to the
    current state, in program order. *)

From Stdlib Require Import String Ascii ZArith List Lia Permutation Sorted.
From stdpp Require Import base option list gmap strings.

Set Warnings "-register-all".
Open Scope string_scope.
Open Scope nat_scope.
Open Scope list_scope.

(* ===================================================================== *)
(** * JavaScript values *)
(* ===================================================================== *)

(** Values that travel through the client: what [JSON.parse] produces, plus
    [undefined].  A number is kept exactly as [mantissa * 10 ^ exponent];
    rounding to a double is not modelled (the client only tests numbers for
    truthiness).  Text is a sequence of code units below 256. *)
Inductive js_value : Type :=
| JSUndefined
| JSNull
| JSBool (b : bool)
| JSNum (mantissa exponent : Z)
| JSStr (s : string)
| JSArr (items : list js_value)
| JSObj (fields : list (string * js_value)).

(** [ToBoolean]. *)
Definition truthy (v : js_value) : bool :=
  match v with
  | JSUndefined | JSNull => false
  | JSBool b => b
  | JSNum m _ => negb (m =? 0)%Z
  | JSStr s => negb (String.eqb s "")
  | JSArr _ | JSObj _ => true
  end.

(** [a || b]. *)
Definition js_or (a b : js_value) : js_value := if truthy a then a else b.

(** The value [JSON.parse] keeps for a key that occurs several times is the
    last one. *)
Fixpoint assoc_last (k : string) (fs : list (string * js_value)) : option js_value :=
  match fs with
  | [] => None
  | (k', v) :: rest =>
      match assoc_last k rest with
      | Some w => Some w
      | None => if String.eqb k k' then Some v else None
      end
  end.

(** [v.k] for a key [k] that is no built-in property ([type], [data],
    [metadata], [message], [detail]): [None] stands for the [TypeError] raised
    on [null] and [undefined]; a primitive or an array has no such property. *)
Definition get_prop (v : js_value) (k : string) : option js_value :=
  match v with
  | JSUndefined | JSNull => None
  | JSObj fs => Some (default JSUndefined (assoc_last k fs))
  | JSBool _ | JSNum _ _ | JSStr _ | JSArr _ => Some JSUndefined
  end.

(** An [Error] object, as thrown by [fetch], by a stream reader or by
    [new Error(text)]: only its [message] is read. *)
Record js_error : Type := Error { message : string }.

(* ===================================================================== *)
(** * String primitives *)
(* ===================================================================== *)

Definition LF : ascii := "010"%char.
Definition DQUOTE : ascii := "034"%char.
Definition BACKSLASH : ascii := "092"%char.

Definition code (a : ascii) : nat := nat_of_ascii a.

Definition code_in (lo hi : nat) (a : ascii) : bool :=
  (lo <=? code a) && (code a <=? hi).

(** [WhiteSpace] and [LineTerminator] code units below 256: TAB, LF, VT, FF,
    CR, SP and NBSP. *)
Definition isWhiteSpace (a : ascii) : bool :=
  code_in 9 13 a || (code a =? 32) || (code a =? 160).

Fixpoint trimStart (s : string) : string :=
  match s with
  | EmptyString => EmptyString
  | String a r => if isWhiteSpace a then trimStart r else s
  end.

Fixpoint trimEnd (s : string) : string :=
  match s with
  | EmptyString => EmptyString
  | String a r =>
      match trimEnd r with
      | EmptyString => if isWhiteSpace a then EmptyString else String a EmptyString
      | t => String a t
      end
  end.

(** [s.trim()]. *)
Definition trim (s : string) : string := trimEnd (trimStart s).

(** [s.startsWith(p)]. *)
Definition startsWith (s p : string) : bool := String.prefix p s.

(** [s.slice(n)] for [0 <= n]. *)
Fixpoint slice_from (n : nat) (s : string) : string :=
  match n, s with
  | 0, _ => s
  | S n', String _ r => slice_from n' r
  | S _, EmptyString => EmptyString
  end.

(** [s.toLowerCase()] on code units below 256: A-Z and the accented capitals
    192-222 (but 215, the multiplication sign) move up by 32. *)
Definition lower_char (a : ascii) : ascii :=
  if code_in 65 90 a || (code_in 192 222 a && negb (code a =? 215))
  then ascii_of_nat (code a + 32) else a.

Fixpoint toLowerCase (s : string) : string :=
  match s with
  | EmptyString => EmptyString
  | String a r => String (lower_char a) (toLowerCase r)
  end.

(** [s.includes(p)]. *)
Fixpoint includes (s p : string) : bool :=
  String.prefix p s ||
  match s with
  | EmptyString => false
  | String _ r => includes r p
  end.

(** [buffer.split('\n\n')]: the pieces between the leftmost, non-overlapping
    blank lines; never the empty array. *)
Definition cons_head (a : ascii) (l : list string) : list string :=
  match l with
  | [] => [String a EmptyString]
  | p :: ps => String a p :: ps
  end.

Fixpoint split_blank_line (s : string) : list string :=
  match s with
  | EmptyString => [EmptyString]
  | String a r =>
      match r with
      | EmptyString => [String a EmptyString]
      | String b r' =>
          if Ascii.eqb a LF && Ascii.eqb b LF
          then EmptyString :: split_blank_line r'
          else cons_head a (split_blank_line r)
      end
  end.

(** [parts.join('\n\n')]. *)
Fixpoint join_blank_line (l : list string) : string :=
  match l with
  | [] => EmptyString
  | [p] => p
  | p :: ps => p +:+ String LF (String LF (join_blank_line ps))
  end.

(** The text of all chunks read so far. *)
Definition concat_text (chunks : list string) : string :=
  fold_right String.append EmptyString chunks.

(* ===================================================================== *)
(** * JSON.parse *)
(* ===================================================================== *)

(** The platform's [JSON.parse], written out for the JSON grammar (RFC 8259):
    [None] is a [SyntaxError].  A [\u] escape above 255 is outside the
    alphabet of this model and is refused.  Everything proved about the stream
    reader below holds for any parser; this one evaluates the examples. *)
Module Json.

Definition is_ws (a : ascii) : bool :=
  (code a =? 32) || (code a =? 9) || (code a =? 10) || (code a =? 13).

Fixpoint skip_ws (s : string) : string :=
  match s with
  | String a r => if is_ws a then skip_ws r else s
  | EmptyString => EmptyString
  end.

Definition digit_of (a : ascii) : option Z :=
  if code_in 48 57 a then Some (Z.of_nat (code a - 48)) else None.

Definition hex_of (a : ascii) : option nat :=
  if code_in 48 57 a then Some (code a - 48)
  else if code_in 97 102 a then Some (code a - 87)
  else if code_in 65 70 a then Some (code a - 55)
  else None.

(** Reads the digits at the head of [s]: the number they extend [acc] to, how
    many there were, and the rest. *)
Fixpoint read_digits (acc : Z) (cnt : nat) (s : string) : Z * nat * string :=
  match s with
  | String a r =>
      match digit_of a with
      | Some d => read_digits (10 * acc + d) (S cnt) r
      | None => (acc, cnt, s)
      end
  | EmptyString => (acc, cnt, s)
  end.

(** The literal [lit] at the head of [s]. *)
Definition expect (lit : string) (v : js_value) (s : string) : option (js_value * string) :=
  if String.prefix lit s then Some (v, slice_from (String.length lit) s) else None.

Definition parse_exponent (s : string) : option (Z * string) :=
  match s with
  | String e r =>
      if (code e =? 101) || (code e =? 69) then
        let '(neg, r1) :=
          match r with
          | String sg r' =>
              if code sg =? 45 then (true, r')
              else if code sg =? 43 then (false, r')
              else (false, r)
          | EmptyString => (false, r)
          end in
        let '(v, c, r2) := read_digits 0 0 r1 in
        if c =? 0 then None else Some (if neg then (- v)%Z else v, r2)
      else Some (0%Z, s)
  | EmptyString => Some (0%Z, s)
  end.

Definition parse_number (s : string) : option (js_value * string) :=
  let '(neg, s1) :=
    match s with
    | String a r => if code a =? 45 then (true, r) else (false, s)
    | EmptyString => (false, s)
    end in
  match s1 with
  | EmptyString => None
  | String a r =>
      match digit_of a with
      | None => None
      | Some d =>
          let '(ip, s2) :=
            if (d =? 0)%Z then (0%Z, r)
            else let '(v, _, r') := read_digits d 1 r in (v, r') in
          let frac :=
            match s2 with
            | String dot r2 =>
                if code dot =? 46 then
                  let '(v, c, r3) := read_digits ip 0 r2 in
                  if c =? 0 then None else Some (v, c, r3)
                else Some (ip, 0, s2)
            | EmptyString => Some (ip, 0, s2)
            end in
          match frac with
          | None => None
          | Some (m, fc, s3) =>
              match parse_exponent s3 with
              | None => None
              | Some (e, s4) =>
                  Some (JSNum (if neg then (- m)%Z else m) (e - Z.of_nat fc), s4)
              end
          end
      end
  end.

Definition simple_escape (e : ascii) : option ascii :=
  if code e =? 34 then Some DQUOTE
  else if code e =? 92 then Some BACKSLASH
  else if code e =? 47 then Some "/"%char
  else if code e =? 98 then Some "008"%char
  else if code e =? 102 then Some "012"%char
  else if code e =? 110 then Some "010"%char
  else if code e =? 114 then Some "013"%char
  else if code e =? 116 then Some "009"%char
  else None.

Definition unicode_escape (h1 h2 h3 h4 : ascii) : option ascii :=
  match hex_of h1, hex_of h2, hex_of h3, hex_of h4 with
  | Some a, Some b, Some c, Some d =>
      let n := ((a * 16 + b) * 16 + c) * 16 + d in
      if n <? 256 then Some (ascii_of_nat n) else None
  | _, _, _, _ => None
  end.

(** The characters of a string literal after its opening quote, up to the
    closing one. *)
Fixpoint parse_string_body (s : string) : option (string * string) :=
  match s with
  | EmptyString => None
  | String a r =>
      if code a =? 34 then Some (EmptyString, r)
      else if code a =? 92 then
        match r with
        | EmptyString => None
        | String e r' =>
            if code e =? 117 then
              match r' with
              | String h1 (String h2 (String h3 (String h4 r''))) =>
                  match unicode_escape h1 h2 h3 h4, parse_string_body r'' with
                  | Some c, Some (body, rest) => Some (String c body, rest)
                  | _, _ => None
                  end
              | _ => None
              end
            else
              match simple_escape e, parse_string_body r' with
              | Some c, Some (body, rest) => Some (String c body, rest)
              | _, _ => None
              end
        end
      else if code a <? 32 then None
      else
        match parse_string_body r with
        | Some (body, rest) => Some (String a body, rest)
        | None => None
        end
  end.

Fixpoint parse_value (fuel : nat) (s : string) {struct fuel} : option (js_value * string) :=
  match fuel with
  | 0 => None
  | S fuel' =>
      match skip_ws s with
      | EmptyString => None
      | String a r as s0 =>
          if code a =? 110 then expect "null" JSNull s0
          else if code a =? 116 then expect "true" (JSBool true) s0
          else if code a =? 102 then expect "false" (JSBool false) s0
          else if code a =? 34 then
            match parse_string_body r with
            | Some (body, rest) => Some (JSStr body, rest)
            | None => None
            end
          else if code a =? 91 then
            match skip_ws r with
            | String c r1 as r0 =>
                if code c =? 93 then Some (JSArr [], r1)
                else
                  match parse_elements fuel' r0 with
                  | Some (vs, rest) => Some (JSArr vs, rest)
                  | None => None
                  end
            | EmptyString => None
            end
          else if code a =? 123 then
            match skip_ws r with
            | String c r1 as r0 =>
                if code c =? 125 then Some (JSObj [], r1)
                else
                  match parse_members fuel' r0 with
                  | Some (fs, rest) => Some (JSObj fs, rest)
                  | None => None
                  end
            | EmptyString => None
            end
          else parse_number s0
      end
  end
with parse_elements (fuel : nat) (s : string) {struct fuel} : option (list js_value * string) :=
  match fuel with
  | 0 => None
  | S fuel' =>
      match parse_value fuel' s with
      | None => None
      | Some (v, r) =>
          match skip_ws r with
          | String c r1 =>
              if code c =? 44 then
                match parse_elements fuel' r1 with
                | Some (vs, rest) => Some (v :: vs, rest)
                | None => None
                end
              else if code c =? 93 then Some ([v], r1)
              else None
          | EmptyString => None
          end
      end
  end
with parse_members (fuel : nat) (s : string) {struct fuel} : option (list (string * js_value) * string) :=
  match fuel with
  | 0 => None
  | S fuel' =>
      match skip_ws s with
      | String q r =>
          if code q =? 34 then
            match parse_string_body r with
            | None => None
            | Some (k, r1) =>
                match skip_ws r1 with
                | String colon r2 =>
                    if code colon =? 58 then
                      match parse_value fuel' r2 with
                      | None => None
                      | Some (v, r3) =>
                          match skip_ws r3 with
                          | String c r4 =>
                              if code c =? 44 then
                                match parse_members fuel' r4 with
                                | Some (fs, rest) => Some ((k, v) :: fs, rest)
                                | None => None
                                end
                              else if code c =? 125 then Some ([(k, v)], r4)
                              else None
                          | EmptyString => None
                          end
                      end
                    else None
                | EmptyString => None
                end
            end
          else None
      | EmptyString => None
      end
  end.

(** [JSON.parse(text)]: one value, white space around it, nothing else.  Each
    level of the recursion reads at least one character of every second
    call, so twice the length of the text is fuel enough. *)
Definition parse (text : string) : option js_value :=
  match parse_value (2 * String.length text + 2) text with
  | Some (v, rest) =>
      match skip_ws rest with
      | EmptyString => Some v
      | String _ _ => None
      end
  | None => None
  end.

End Json.

(* ===================================================================== *)
(** * api.sendMessageStream *)
(* ===================================================================== *)

(** What the network does to one call: [fetch] (or reading the body of an
    error answer) rejects; the server answers with an error status and a body
    text; or it answers with a stream whose reads give decoded text chunks
    until the stream is done ([None]) or a read rejects ([Some e]). *)
Inductive response : Type :=
| FetchRejected (e : js_error)
| HttpError (text : string)
| HttpStream (chunks : list string) (failure : option js_error).

Inductive completion : Type :=
| Returned (buffer : string)
| Thrown (e : js_error).

Section SendMessageStream.

Context {St : Type}.
Variable JSON_parse : string -> option js_value.
Variable onEvent : js_value -> js_value -> St -> St.
Variable console_error : string -> St -> St.

(** The body of [for (const evt of events)], acting on the state that the
    callback and the console work on.  [event.type] is read inside the [try]
    block, so the [TypeError] it raises on [null] is caught like a
    [SyntaxError] of [JSON.parse], and reported the same way. *)
Definition handle_chunk (st : St) (evt : string) : St :=
  let line := trim evt in
  if negb (startsWith line "data: ") then st
  else
    let data := slice_from 6 line in
    match JSON_parse data with
    | None => console_error data st
    | Some event =>
        match get_prop event "type" with
        | None => console_error data st
        | Some ty => onEvent ty event st
        end
    end.

(** The [while (true)] loop over [reader.read()], one iteration per chunk;
    [events.pop() || ''] is the piece after the last blank line. *)
Fixpoint read_loop (buffer : string) (chunks : list string) (st : St) : St * string :=
  match chunks with
  | [] => (st, buffer)
  | value :: rest =>
      let events := split_blank_line (buffer +:+ value) in
      let buffer' := default EmptyString (last events) in
      read_loop buffer' rest (foldl handle_chunk st (removelast events))
  end.

(** [sendMessageStream(conversationId, content, onEvent)].  For an error
    status the function parses the body and throws [parsed.detail] inside a
    [try] whose [catch] swallows it, so what leaves the function is always
    [new Error(text || 'Failed to send message')]. *)
Definition sendMessageStream (resp : response) (st : St) : St * completion :=
  match resp with
  | FetchRejected e => (st, Thrown e)
  | HttpError text =>
      (st, Thrown (Error (if String.eqb text "" then "Failed to send message" else text)))
  | HttpStream chunks failure =>
      let '(st', buffer) := read_loop EmptyString chunks st in
      (st', match failure with None => Returned buffer | Some e => Thrown e end)
  end.

End SendMessageStream.

(** The same loop on the bytes that the reads of the body give.
    [new TextDecoder()] is the platform's: [decode(value, { stream: true })]
    returns the text of the bytes it is given and keeps, in a state of its
    own, the bytes of a character that the read has cut. *)
Section ByteStream.

Context {St Decoder : Type}.
Variable TextDecoder_decode : Decoder -> list Byte.byte -> Decoder * string.
Variable JSON_parse : string -> option js_value.
Variable onEvent : js_value -> js_value -> St -> St.
Variable console_error : string -> St -> St.

(** The [while (true)] loop, one iteration per [value] that [reader.read()]
    gives: [buffer += decoder.decode(value, { stream: true })], then the
    split, the [pop] and the [for] loop over the complete chunks. *)
Fixpoint read_loop_bytes (decoder : Decoder) (buffer : string)
  (values : list (list Byte.byte)) (st : St) : St * string :=
  match values with
  | [] => (st, buffer)
  | value :: rest =>
      let '(decoder', text) := TextDecoder_decode decoder value in
      let events := split_blank_line (buffer +:+ text) in
      let buffer' := default EmptyString (last events) in
      read_loop_bytes decoder' buffer' rest
        (foldl (handle_chunk JSON_parse onEvent console_error) st (removelast events))
  end.

(** [sendMessageStream] on an answer of status ok whose body gives [values]
    and then is done ([None]) or rejects a read ([Some e]). *)
Definition sendMessageStream_bytes (decoder : Decoder) (values : list (list Byte.byte))
  (failure : option js_error) (st : St) : St * completion :=
  let '(st', buffer) := read_loop_bytes decoder EmptyString values st in
  (st', match failure with None => Returned buffer | Some e => Thrown e end).

End ByteStream.

(** The texts that the decoder returns for the reads, in order. *)
Fixpoint decode_reads {Decoder : Type}
  (TextDecoder_decode : Decoder -> list Byte.byte -> Decoder * string)
  (decoder : Decoder) (values : list (list Byte.byte)) : list string :=
  match values with
  | [] => []
  | value :: rest =>
      let '(decoder', text) := TextDecoder_decode decoder value in
      text :: decode_reads TextDecoder_decode decoder' rest
  end.

(** A decoder for the examples: on a body of ASCII characters UTF-8 has one
    byte per character, and the decoder holds nothing back. *)
Definition ascii_decode (decoder : unit) (value : list Byte.byte) : unit * string :=
  (decoder, string_of_list_byte value).

(** What one complete chunk makes the reader do. *)
Inductive chunk_effect : Type :=
| Deliver (ty event : js_value)
| Report (data : string).

Definition effect_of_chunk (JSON_parse : string -> option js_value) (evt : string)
  : option chunk_effect :=
  if startsWith (trim evt) "data: " then
    match JSON_parse (slice_from 6 (trim evt)) with
    | Some event =>
        match get_prop event "type" with
        | Some ty => Some (Deliver ty event)
        | None => Some (Report (slice_from 6 (trim evt)))
        end
    | None => Some (Report (slice_from 6 (trim evt)))
    end
  else None.

Definition run_effect {St : Type} (onEvent : js_value -> js_value -> St -> St)
  (console_error : string -> St -> St) (st : St) (e : chunk_effect) : St :=
  match e with
  | Deliver ty event => onEvent ty event st
  | Report data => console_error data st
  end.

(** The callback arguments a chunk gives rise to, if any. *)
Definition delivery (JSON_parse : string -> option js_value) (evt : string)
  : option (js_value * js_value) :=
  match effect_of_chunk JSON_parse evt with
  | Some (Deliver ty event) => Some (ty, event)
  | _ => None
  end.

(** A callback that only records its arguments, and a console that is not
    looked at. *)
Definition record_call (ty event : js_value) (log : list (js_value * js_value))
  : list (js_value * js_value) :=
  log ++ [(ty, event)].

Definition no_console {St : Type} (data : string) (st : St) : St := st.

(** A callback and a console that record what they are given in one log. *)
Definition record_delivery (ty event : js_value) (log : list chunk_effect)
  : list chunk_effect :=
  log ++ [Deliver ty event].

Definition record_report (data : string) (log : list chunk_effect) : list chunk_effect :=
  log ++ [Report data].

(** The callback arguments among the effects. *)
Definition delivered_call (e : chunk_effect) : option (js_value * js_value) :=
  match e with
  | Deliver ty event => Some (ty, event)
  | Report _ => None
  end.

(** One recorded call, replayed on a callback. *)
Definition apply_call {St : Type} (onEvent : js_value -> js_value -> St -> St)
  (st : St) (c : js_value * js_value) : St :=
  onEvent c.1 c.2 st.

(** The complete chunks of a text: every piece that a blank line ends. *)
Definition complete_chunks (text : string) : list string :=
  removelast (split_blank_line text).

(** The piece after the last blank line. *)
Definition pending_chunk (text : string) : string :=
  default EmptyString (last (split_blank_line text)).

(** Following the claim's words: a chunk whose trimmed content starts with
    [data: ] and whose remainder parses as JSON. *)
Definition parses_as_event (JSON_parse : string -> option js_value) (evt : string) : bool :=
  startsWith (trim evt) "data: " &&
  match JSON_parse (slice_from 6 (trim evt)) with Some _ => true | None => false end.

(* ===================================================================== *)
(** * App.jsx: the conversation list and its recency order *)
(* ===================================================================== *)

(** One entry of the sidebar list.  A property that is absent reads as
    [undefined]. *)
Record conv_summary : Type := ConvSummary {
  cs_id : string;
  created_at : js_value;
  updated_at : js_value;
  lastInteracted : js_value;
  last_interacted_at : js_value;
  council_key : js_value;
  title : js_value;
  message_count : js_value
}.

(** [getLastInteracted(conv)]; [None] is a [conv] that is [undefined]. *)
Definition getLastInteracted (conv : option conv_summary) : js_value :=
  match conv with
  | None => JSNull
  | Some c =>
      js_or
        (js_or (js_or (js_or (lastInteracted c) (last_interacted_at c)) (updated_at c))
           (created_at c))
        JSNull
  end.

(** [Array.prototype.sort(comparefn)] on a copy: a stable sort.  The
    comparator gives a number, or [None] for [NaN], which the sort reads as
    zero.  For a comparator that is no consistent order the language leaves
    the result to the implementation; this insertion sort is one. *)
Section ArraySort.

Context {A : Type}.
Variable comparefn : A -> A -> option Z.

(** [comparefn(x, y) > 0]: [y] has to come first. *)
Definition comes_after (x y : A) : bool :=
  match comparefn x y with
  | Some v => (0 <? v)%Z
  | None => false
  end.

Fixpoint sort_insert (x : A) (sorted : list A) : list A :=
  match sorted with
  | [] => [x]
  | y :: rest => if comes_after x y then y :: sort_insert x rest else x :: sorted
  end.

Definition Array_sort (l : list A) : list A := foldr sort_insert [] l.

End ArraySort.

(** Descending by a key. *)
Definition descending {A : Type} (key : A -> Z) (a b : A) : Prop := (key b <= key a)%Z.

Section Recency.

(** [new Date(value).getTime()]: milliseconds, or [None] for [NaN] (an
    invalid date).  The platform's date parsing stays a parameter. *)
Variable Date_getTime : js_value -> option Z.

(** [toTime] of [sortConversationsByActivity]. *)
Definition toTime (value : js_value) : option Z :=
  if truthy value then Date_getTime value else Some 0%Z.

(** The comparator of [sortConversationsByActivity]:
    [toTime(getLastInteracted(b)) - toTime(getLastInteracted(a))]. *)
Definition by_activity (a b : conv_summary) : option Z :=
  match toTime (getLastInteracted (Some b)), toTime (getLastInteracted (Some a)) with
  | Some tb, Some ta => Some (tb - ta)%Z
  | _, _ => None
  end.

(** [sortConversationsByActivity(list)]: [[...list].sort(...)] sorts a copy,
    the argument is not written to. *)
Definition sortConversationsByActivity (convs : list conv_summary) : list conv_summary :=
  Array_sort by_activity convs.

(** [new Map(previous.map((conv) => [conv.id, conv]))]: a later entry replaces
    an earlier one with the same key. *)
Definition Map_by_id (previous : list conv_summary) : gmap string conv_summary :=
  foldl (fun m conv => <[cs_id conv := conv]> m) ∅ previous.

(** The object literal of [incoming.map(...)] in
    [mergeConversationsWithRecency]. *)
Definition normalize (prevMap : gmap string conv_summary) (conv : conv_summary)
  : conv_summary :=
  let prev := prevMap !! cs_id conv in
  {| cs_id := cs_id conv;
     created_at := created_at conv;
     updated_at := updated_at conv;
     title := title conv;
     message_count := message_count conv;
     council_key := js_or (council_key conv) (JSStr "default");
     lastInteracted :=
       js_or (js_or (getLastInteracted (Some conv)) (getLastInteracted prev))
         (created_at conv);
     last_interacted_at :=
       js_or
         (js_or
            (js_or
               (js_or (last_interacted_at conv)
                  (match prev with Some p => last_interacted_at p | None => JSUndefined end))
               (getLastInteracted (Some conv)))
            (getLastInteracted prev))
         (created_at conv) |}.

(** [mergeConversationsWithRecency(incoming, previous)]. *)
Definition mergeConversationsWithRecency (incoming previous : list conv_summary)
  : list conv_summary :=
  let prevMap := Map_by_id previous in
  let normalized := map (normalize prevMap) incoming in
  sortConversationsByActivity normalized.

(** [markConversationInteracted(id, timestamp)] as it acts on the list, with
    [now] the clock's [new Date().toISOString()]. *)
Definition markConversationInteracted (now : string) (id : string) (timestamp : js_value)
  (prev : list conv_summary) : list conv_summary :=
  if String.eqb id "" then prev
  else
    let ts := js_or timestamp (JSStr now) in
    if existsb (fun conv => String.eqb (cs_id conv) id) prev then
      sortConversationsByActivity
        (map (fun conv =>
                if String.eqb (cs_id conv) id
                then {| cs_id := cs_id conv;
                        created_at := created_at conv;
                        updated_at := updated_at conv;
                        title := title conv;
                        message_count := message_count conv;
                        council_key := council_key conv;
                        lastInteracted := ts;
                        last_interacted_at := ts |}
                else conv) prev)
    else prev.

End Recency.

(** Following the claim's words: the timestamp the merge is to keep for a
    conversation, the one [previous] knows when the incoming record has none
    ([lastInteracted] or [last_interacted_at]), and [created_at] when neither
    has. *)
Definition known_recency (c : conv_summary) : js_value :=
  js_or (lastInteracted c) (last_interacted_at c).

Definition preserved_recency (incoming : conv_summary) (previous : option conv_summary)
  : js_value :=
  js_or
    (js_or (known_recency incoming)
       (match previous with Some p => known_recency p | None => JSUndefined end))
    (created_at incoming).

(* ===================================================================== *)
(** * App.jsx: the open conversation and the streamed run *)
(* ===================================================================== *)

(** The [loading] object of an assistant message. *)
Record loading_flags : Type := Loading {
  ld_stage1 : bool;
  ld_stage2 : bool;
  ld_stage3 : bool
}.

(** A message object.  A property that is absent reads as [undefined]; a
    message without a [loading] object has [None]. *)
Record chat_message : Type := ChatMessage {
  role : js_value;
  content : js_value;
  stage1 : js_value;
  stage2 : js_value;
  stage3 : js_value;
  metadata : js_value;
  loading : option loading_flags
}.

(** Message objects are shared between the successive [messages] arrays and
    written in place ([lastMsg.stage1 = ...]), so they live in a store and an
    array holds their addresses. *)
Definition address : Type := nat.

(** The [currentConversation] object: [conv_props] stands for every property
    other than [id], [title] and [messages]. *)
Record conversation : Type := Conversation {
  conv_id : string;
  conv_title : js_value;
  conv_props : list (string * js_value);
  messages : list address
}.

(** What the handlers do besides setting state. *)
Inductive effect : Type :=
| ConsoleLog (label : string) (arg : js_value)
| ConsoleError (label : string) (arg : js_value)
| LoadConversations.

Record app_state : Type := AppState {
  store : list chat_message;
  conversations : list conv_summary;
  currentConversationId : option string;
  currentConversation : option conversation;
  isLoading : bool;
  sendError : js_value;
  effects : list effect
}.

Definition set_store (h : list chat_message) (st : app_state) : app_state :=
  {| store := h;
     conversations := conversations st;
     currentConversationId := currentConversationId st;
     currentConversation := currentConversation st;
     isLoading := isLoading st;
     sendError := sendError st;
     effects := effects st |}.

Definition setConversations (l : list conv_summary) (st : app_state) : app_state :=
  {| store := store st;
     conversations := l;
     currentConversationId := currentConversationId st;
     currentConversation := currentConversation st;
     isLoading := isLoading st;
     sendError := sendError st;
     effects := effects st |}.

Definition set_currentConversation (c : option conversation) (st : app_state) : app_state :=
  {| store := store st;
     conversations := conversations st;
     currentConversationId := currentConversationId st;
     currentConversation := c;
     isLoading := isLoading st;
     sendError := sendError st;
     effects := effects st |}.

Definition setIsLoading (b : bool) (st : app_state) : app_state :=
  {| store := store st;
     conversations := conversations st;
     currentConversationId := currentConversationId st;
     currentConversation := currentConversation st;
     isLoading := b;
     sendError := sendError st;
     effects := effects st |}.

Definition setSendError (v : js_value) (st : app_state) : app_state :=
  {| store := store st;
     conversations := conversations st;
     currentConversationId := currentConversationId st;
     currentConversation := currentConversation st;
     isLoading := isLoading st;
     sendError := v;
     effects := effects st |}.

Definition perform (e : effect) (st : app_state) : app_state :=
  {| store := store st;
     conversations := conversations st;
     currentConversationId := currentConversationId st;
     currentConversation := currentConversation st;
     isLoading := isLoading st;
     sendError := sendError st;
     effects := effects st ++ [e] |}.

(** [setCurrentConversation(updater)]: the updater sees the store and the
    previous value; [None] is an exception thrown inside it, which React
    rethrows while rendering: the component tree is gone. *)
Definition setCurrentConversation
  (updater : list chat_message -> option conversation ->
             option (list chat_message * option conversation))
  (st : app_state) : option app_state :=
  match updater (store st) (currentConversation st) with
  | Some (h, c) => Some (set_currentConversation c (set_store h st))
  | None => None
  end.

(** The first updater of [handleSendMessage]: a conversation object to append
    to, for a thread that has none yet. *)
Definition ensure_conversation (convs : list conv_summary) (currentId : string)
  (h : list chat_message) (prev : option conversation)
  : option (list chat_message * option conversation) :=
  match prev with
  | Some _ => Some (h, prev)
  | None =>
      let fallbackTitle :=
        js_or
          (match find (fun c => String.eqb (cs_id c) currentId) convs with
           | Some c => title c
           | None => JSUndefined
           end)
          (JSStr "New Conversation") in
      Some (h, Some {| conv_id := currentId;
                       conv_title := fallbackTitle;
                       conv_props := [];
                       messages := [] |})
  end.

(** [{ role: 'user', content }]. *)
Definition userMessage (content : string) : chat_message :=
  {| role := JSStr "user";
     content := JSStr content;
     stage1 := JSUndefined;
     stage2 := JSUndefined;
     stage3 := JSUndefined;
     metadata := JSUndefined;
     loading := None |}.

(** The partial assistant message that the events fill in. *)
Definition assistantMessage : chat_message :=
  {| role := JSStr "assistant";
     content := JSUndefined;
     stage1 := JSNull;
     stage2 := JSNull;
     stage3 := JSNull;
     metadata := JSNull;
     loading := Some {| ld_stage1 := false; ld_stage2 := false; ld_stage3 := false |} |}.

(** [prev => ({ ...prev, messages: [...prev.messages, msg] })] for a message
    object that was just created, at a fresh address. *)
Definition append_message (msg : chat_message)
  (h : list chat_message) (prev : option conversation)
  : option (list chat_message * option conversation) :=
  match prev with
  | None => None
  | Some conv =>
      Some (h ++ [msg],
            Some {| conv_id := conv_id conv;
                    conv_title := conv_title conv;
                    conv_props := conv_props conv;
                    messages := messages conv ++ [length h] |})
  end.

(** The shape of the six stage updaters:
    [const messages = [...prev.messages];
     const lastMsg = messages[messages.length - 1];
     (writes to lastMsg);
     return { ...prev, messages };]
    The copy holds the same addresses, and the write goes to the store (an
    address that an array holds is always one of the store; a conversation
    with no message has no last one, and the write throws). *)
Definition update_last (write : chat_message -> option chat_message)
  (h : list chat_message) (prev : option conversation)
  : option (list chat_message * option conversation) :=
  match prev with
  | None => None
  | Some conv =>
      match last (messages conv) with
      | None => None
      | Some a =>
          match h !! a with
          | None => None
          | Some lastMsg =>
              match write lastMsg with
              | None => None
              | Some lastMsg' =>
                  Some (<[a := lastMsg']> h,
                        Some {| conv_id := conv_id conv;
                                conv_title := conv_title conv;
                                conv_props := conv_props conv;
                                messages := messages conv |})
              end
          end
      end
  end.

Definition with_loading (l : loading_flags) (m : chat_message) : chat_message :=
  {| role := role m; content := content m;
     stage1 := stage1 m; stage2 := stage2 m; stage3 := stage3 m;
     metadata := metadata m;
     loading := Some l |}.

(** [lastMsg.loading.stageN = b]: a [TypeError] when there is no [loading]. *)
Definition write_loading (f : loading_flags -> loading_flags) (m : chat_message)
  : option chat_message :=
  match loading m with
  | None => None
  | Some l => Some (with_loading (f l) m)
  end.

Definition loading_stage1 (b : bool) (l : loading_flags) : loading_flags :=
  {| ld_stage1 := b; ld_stage2 := ld_stage2 l; ld_stage3 := ld_stage3 l |}.
Definition loading_stage2 (b : bool) (l : loading_flags) : loading_flags :=
  {| ld_stage1 := ld_stage1 l; ld_stage2 := b; ld_stage3 := ld_stage3 l |}.
Definition loading_stage3 (b : bool) (l : loading_flags) : loading_flags :=
  {| ld_stage1 := ld_stage1 l; ld_stage2 := ld_stage2 l; ld_stage3 := b |}.

(** [lastMsg.stage1 = v] and its siblings. *)
Definition write_stage1 (v : js_value) (m : chat_message) : chat_message :=
  {| role := role m; content := content m;
     stage1 := v; stage2 := stage2 m; stage3 := stage3 m;
     metadata := metadata m; loading := loading m |}.
Definition write_stage2 (v : js_value) (m : chat_message) : chat_message :=
  {| role := role m; content := content m;
     stage1 := stage1 m; stage2 := v; stage3 := stage3 m;
     metadata := metadata m; loading := loading m |}.
Definition write_stage3 (v : js_value) (m : chat_message) : chat_message :=
  {| role := role m; content := content m;
     stage1 := stage1 m; stage2 := stage2 m; stage3 := v;
     metadata := metadata m; loading := loading m |}.
Definition write_metadata (v : js_value) (m : chat_message) : chat_message :=
  {| role := role m; content := content m;
     stage1 := stage1 m; stage2 := stage2 m; stage3 := stage3 m;
     metadata := v; loading := loading m |}.

(** [event.k].  The stream reader calls the callback only with an event whose
    [type] it could read, so no read on it throws. *)
Definition prop (event : js_value) (k : string) : js_value :=
  default JSUndefined (get_prop event k).

(** The cases of [switch (eventType)]. *)
Inductive event_case : Type :=
| stage1_start | stage1_complete
| stage2_start | stage2_complete
| stage3_start | stage3_complete
| title_complete | complete | error
| unknown_event.

Definition case_of (eventType : js_value) : event_case :=
  match eventType with
  | JSStr t =>
      if String.eqb t "stage1_start" then stage1_start
      else if String.eqb t "stage1_complete" then stage1_complete
      else if String.eqb t "stage2_start" then stage2_start
      else if String.eqb t "stage2_complete" then stage2_complete
      else if String.eqb t "stage3_start" then stage3_start
      else if String.eqb t "stage3_complete" then stage3_complete
      else if String.eqb t "title_complete" then title_complete
      else if String.eqb t "complete" then complete
      else if String.eqb t "error" then error
      else unknown_event
  | _ => unknown_event
  end.

(** The callback that [handleSendMessage] passes to [sendMessageStream]. *)
Definition dispatch (eventType event : js_value) (st : app_state) : option app_state :=
  match case_of eventType with
  | stage1_start =>
      setCurrentConversation (update_last (write_loading (loading_stage1 true))) st
  | stage1_complete =>
      setCurrentConversation
        (update_last (fun lastMsg =>
           write_loading (loading_stage1 false)
             (write_stage1 (prop event "data") lastMsg))) st
  | stage2_start =>
      setCurrentConversation (update_last (write_loading (loading_stage2 true))) st
  | stage2_complete =>
      setCurrentConversation
        (update_last (fun lastMsg =>
           write_loading (loading_stage2 false)
             (write_metadata (prop event "metadata")
                (write_stage2 (prop event "data") lastMsg)))) st
  | stage3_start =>
      setCurrentConversation (update_last (write_loading (loading_stage3 true))) st
  | stage3_complete =>
      setCurrentConversation
        (update_last (fun lastMsg =>
           write_loading (loading_stage3 false)
             (write_stage3 (prop event "data") lastMsg))) st
  | title_complete =>
      Some (perform LoadConversations st)
  | complete =>
      Some (setIsLoading false (perform LoadConversations st))
  | error =>
      Some (setIsLoading false
              (setSendError
                 (js_or (prop event "message")
                    (JSStr "Failed to send message. Check API key in Settings."))
                 (perform (ConsoleError "Stream error:" (prop event "message")) st)))
  | unknown_event =>
      Some (perform (ConsoleLog "Unknown event type:" eventType) st)
  end.

(** The nine event types of the interface table. *)
Definition handled_types : list string :=
  ["stage1_start"; "stage1_complete"; "stage2_start"; "stage2_complete";
   "stage3_start"; "stage3_complete"; "title_complete"; "complete"; "error"].

(** The six cases that write to the last message. *)
Definition is_stage_case (c : event_case) : bool :=
  match c with
  | stage1_start | stage1_complete | stage2_start | stage2_complete
  | stage3_start | stage3_complete => true
  | _ => false
  end.

(** The open conversation ends with the message at address [a], the
    assistant message in progress: it has a [loading] object. *)
Definition in_progress (st : app_state) (conv : conversation) (a : address)
  (m : chat_message) (l : loading_flags) : Prop :=
  currentConversation st = Some conv /\
  last (messages conv) = Some a /\
  store st !! a = Some m /\
  loading m = Some l.

(** What [MessagesView] hands to the [Stage2] view for a message whose
    [stage2] is set: [rankings={msg.stage2}],
    [labelToModel={msg.metadata?.label_to_model}] and
    [aggregateRankings={msg.metadata?.aggregate_rankings}]. *)
Record stage2_props : Type := Stage2Props {
  view_rankings : js_value;
  view_labelToModel : js_value;
  view_aggregateRankings : js_value
}.

Definition Stage2_props (msg : chat_message) : option stage2_props :=
  if truthy (stage2 msg) then
    Some {| view_rankings := stage2 msg;
            view_labelToModel := prop (metadata msg) "label_to_model";
            view_aggregateRankings := prop (metadata msg) "aggregate_rankings" |}
  else None.

(** The messages of the open conversation, none when there is no such
    object. *)
Definition open_messages (st : app_state) : list address :=
  match currentConversation st with
  | Some conv => messages conv
  | None => []
  end.

(** The callback and the reader's console, on a run that an exception in an
    updater may have ended ([None]). *)
Definition onEvent (eventType event : js_value) (run : option app_state)
  : option app_state :=
  match run with
  | Some st => dispatch eventType event st
  | None => None
  end.

Definition reader_console (data : string) (run : option app_state) : option app_state :=
  match run with
  | Some st => Some (perform (ConsoleError "Failed to parse SSE event chunk:" (JSStr data)) st)
  | None => None
  end.

(** [prev => ({ ...prev, messages: prev.messages.slice(0, -2) })]. *)
Definition drop_optimistic (h : list chat_message) (prev : option conversation)
  : option (list chat_message * option conversation) :=
  match prev with
  | None => None
  | Some conv =>
      Some (h,
            Some {| conv_id := conv_id conv;
                    conv_title := conv_title conv;
                    conv_props := conv_props conv;
                    messages := take (length (messages conv) - 2) (messages conv) |})
  end.

(** The text that the [catch] block shows: [error?.message || '...'], replaced
    by a hint when it speaks of the network. *)
Definition failure_text (e : js_error) : string :=
  let text :=
    if String.eqb (message e) ""
    then "Failed to send. Verify your API key and model settings."
    else message e in
  if includes (toLowerCase text) "network"
     || includes (toLowerCase text) "failed to fetch"
  then "Failed to reach the backend. Ensure the server is running and your API key/models are set in Settings."
  else text.

(** The [catch] block of [handleSendMessage]. *)
Definition catch_send (e : js_error) (st : app_state) : option app_state :=
  match setCurrentConversation drop_optimistic
          (perform (ConsoleError "Failed to send message:" (JSStr (message e))) st) with
  | Some st' => Some (setIsLoading false (setSendError (JSStr (failure_text e)) st'))
  | None => None
  end.

(** The optimistic part of [handleSendMessage], up to the call of
    [api.sendMessageStream]: flags, the conversation object, the recency mark
    (with [now] the clock's [new Date().toISOString()]), the user message and
    the assistant placeholder. *)
Definition begin_send (Date_getTime : js_value -> option Z) (now : string)
  (currentId content : string) (st : app_state) : option app_state :=
  let st1 := setSendError (JSStr "") (setIsLoading true st) in
  match setCurrentConversation (ensure_conversation (conversations st) currentId) st1 with
  | None => None
  | Some st2 =>
      let st3 :=
        setConversations
          (markConversationInteracted Date_getTime now currentId JSUndefined
             (conversations st2)) st2 in
      match setCurrentConversation (append_message (userMessage content)) st3 with
      | None => None
      | Some st4 => setCurrentConversation (append_message assistantMessage) st4
      end
  end.

(** [handleSendMessage(content)], given what the network does to the request. *)
Definition handleSendMessage (JSON_parse : string -> option js_value)
  (Date_getTime : js_value -> option Z) (now : string)
  (content : string) (resp : response) (st : app_state) : option app_state :=
  match currentConversationId st with
  | None => Some st
  | Some currentId =>
      if String.eqb currentId "" then Some st
      else
        match begin_send Date_getTime now currentId content st with
        | None => None
        | Some st' =>
            match sendMessageStream JSON_parse onEvent reader_console resp (Some st') with
            | (run, Returned _) => run
            | (Some st'', Thrown e) => catch_send e st''
            | (None, Thrown _) => None
            end
        end
  end.

(** The same handler in [frontend/src/App.jsx]: no recency mark, and the
    [catch] block shows [error?.message || '...'] as it is. *)
Definition Earlier_failure_text (e : js_error) : string :=
  if String.eqb (message e) ""
  then "Failed to send. Verify your API key and model settings."
  else message e.

Definition Earlier_catch_send (e : js_error) (st : app_state) : option app_state :=
  match setCurrentConversation drop_optimistic
          (perform (ConsoleError "Failed to send message:" (JSStr (message e))) st) with
  | Some st' => Some (setIsLoading false (setSendError (JSStr (Earlier_failure_text e)) st'))
  | None => None
  end.

Definition Earlier_begin_send (currentId content : string) (st : app_state) : option app_state :=
  let st1 := setSendError (JSStr "") (setIsLoading true st) in
  match setCurrentConversation (ensure_conversation (conversations st) currentId) st1 with
  | None => None
  | Some st2 =>
      match setCurrentConversation (append_message (userMessage content)) st2 with
      | None => None
      | Some st3 => setCurrentConversation (append_message assistantMessage) st3
      end
  end.

Definition Earlier_handleSendMessage (JSON_parse : string -> option js_value)
  (content : string) (resp : response) (st : app_state) : option app_state :=
  match currentConversationId st with
  | None => Some st
  | Some currentId =>
      if String.eqb currentId "" then Some st
      else
        match Earlier_begin_send currentId content st with
        | None => None
        | Some st' =>
            match sendMessageStream JSON_parse onEvent reader_console resp (Some st') with
            | (run, Returned _) => run
            | (Some st'', Thrown e) => Earlier_catch_send e st''
            | (None, Thrown _) => None
            end
        end
  end.

(* ===================================================================== *)
(** * App.jsx: the settings dialog *)
(* ===================================================================== *)

(** A council as the server lists it. *)
Record council : Type := Council {
  c_key : string;
  c_name : string;
  c_models : list string;
  c_chairman : string
}.

(** [settingsForm]: the member selection being edited. *)
Record settings_form : Type := SettingsForm {
  council_models : list string;
  chairman_model : string
}.

(** [models.includes(model)]. *)
Definition includes_model (models : list string) (model : string) : bool :=
  bool_decide (model ∈ models).

(** [models.filter((m) => m !== model)]. *)
Definition without_model (model : string) (models : list string) : list string :=
  filter (fun m => m <> model) models.

(** [models[0] || '']. *)
Definition first_or_empty (models : list string) : string :=
  match models with
  | m :: _ => if String.eqb m "" then "" else m
  | [] => ""
  end.

(** [models.includes(chair) ? chair : models[0] || '']. *)
Definition next_chairman (models : list string) (chair : string) : string :=
  if includes_model models chair then chair else first_or_empty models.

(** The updater of [handleToggleModel(model)]. *)
Definition handleToggleModel (model : string) (prev : settings_form) : settings_form :=
  let exists_ := includes_model (council_models prev) model in
  if negb exists_ && (4 <=? length (council_models prev)) then prev
  else
    let nextModels :=
      if exists_ then without_model model (council_models prev)
      else council_models prev ++ [model] in
    let nextChair := next_chairman nextModels (chairman_model prev) in
    {| council_models := nextModels; chairman_model := nextChair |}.

(** A JavaScript [Set] of keys, in insertion order. *)
Definition Set_add (k : string) (s : list string) : list string :=
  if bool_decide (k ∈ s) then s else s ++ [k].

Definition Set_of (l : list string) : list string := foldl (fun s k => Set_add k s) [] l.

(** The state of the settings dialog. *)
Record settings_state : Type := SettingsState {
  councils : list council;
  selectedCouncilKey : string;
  editingCouncilKey : string;
  editingCouncilName : string;
  isNewCouncil : bool;
  councilError : string;
  dirtyCouncils : list string;
  newModelInput : string;
  addModelError : string;
  settingsForm : settings_form;
  availableModels : list string;
  settingsError : string;
  apiKeyInput : string;
  removeApiKey : bool;
  hasApiKey : bool;
  apiKeyLast4 : js_value;
  isSettingsOpen : bool;
  updateStatus : string
}.

(** The council that stops [handleRemoveModel]: another council that has the
    model and would be left empty. *)
Definition blocking (editingKey model : string) (c : council) : bool :=
  negb (String.eqb (c_key c) editingKey)
  && includes_model (c_models c) model
  && (length (c_models c) <=? 1).

(** The [map] callback of [setCouncils] in [handleRemoveModel]. *)
Definition trim_council (model : string) (c : council) : council :=
  if negb (includes_model (c_models c) model) then c
  else
    let trimmedModels := without_model model (c_models c) in
    {| c_key := c_key c;
       c_name := c_name c;
       c_models := trimmedModels;
       c_chairman := next_chairman trimmedModels (c_chairman c) |}.

(** The keys that the callback pushes to [changedKeys]. *)
Definition changed_keys (model : string) (cs : list council) : list string :=
  map c_key (filter (fun c => includes_model (c_models c) model = true) cs).

(** [handleRemoveModel(model)]. *)
Definition handleRemoveModel (model : string) (st : settings_state) : settings_state :=
  match find (blocking (editingCouncilKey st) model) (councils st) with
  | Some blockingCouncil =>
      {| councils := councils st;
         selectedCouncilKey := selectedCouncilKey st;
         editingCouncilKey := editingCouncilKey st;
         editingCouncilName := editingCouncilName st;
         isNewCouncil := isNewCouncil st;
         councilError :=
           c_name blockingCouncil +:+ " would have no members if you remove "
             +:+ model +:+ ". Add another model first.";
         dirtyCouncils := dirtyCouncils st;
         newModelInput := newModelInput st;
         addModelError := addModelError st;
         settingsForm := settingsForm st;
         availableModels := availableModels st;
         settingsError := "";
         apiKeyInput := apiKeyInput st;
         removeApiKey := removeApiKey st;
         hasApiKey := hasApiKey st;
         apiKeyLast4 := apiKeyLast4 st;
         isSettingsOpen := isSettingsOpen st;
         updateStatus := updateStatus st |}
  | None =>
      let form := settingsForm st in
      let editingUsesModel := includes_model (council_models form) model in
      let nextCouncilModels :=
        if editingUsesModel then without_model model (council_models form)
        else council_models form in
      let nextChair := next_chairman nextCouncilModels (chairman_model form) in
      let merged := foldl (fun s k => Set_add k s) (dirtyCouncils st)
                      (changed_keys model (councils st)) in
      {| councils := map (trim_council model) (councils st);
         selectedCouncilKey := selectedCouncilKey st;
         editingCouncilKey := editingCouncilKey st;
         editingCouncilName := editingCouncilName st;
         isNewCouncil := isNewCouncil st;
         councilError := "";
         dirtyCouncils :=
           if editingUsesModel && negb (isNewCouncil st)
           then Set_add (editingCouncilKey st) merged else merged;
         newModelInput := newModelInput st;
         addModelError := addModelError st;
         settingsForm :=
           {| council_models := nextCouncilModels; chairman_model := nextChair |};
         availableModels := without_model model (availableModels st);
         settingsError := "";
         apiKeyInput := apiKeyInput st;
         removeApiKey := removeApiKey st;
         hasApiKey := hasApiKey st;
         apiKeyLast4 := apiKeyLast4 st;
         isSettingsOpen := isSettingsOpen st;
         updateStatus := updateStatus st |}
  end.

(** [handleSelectEditingCouncil(key)]. *)
Definition handleSelectEditingCouncil (key : string) (st : settings_state) : settings_state :=
  match find (fun c => String.eqb (c_key c) key) (councils st) with
  | None => st
  | Some c =>
      {| councils := councils st;
         selectedCouncilKey := selectedCouncilKey st;
         editingCouncilKey := c_key c;
         editingCouncilName := c_name c;
         isNewCouncil := false;
         councilError := "";
         dirtyCouncils := dirtyCouncils st;
         newModelInput := "";
         addModelError := "";
         settingsForm :=
           {| council_models := c_models c; chairman_model := c_chairman c |};
         availableModels := availableModels st;
         settingsError := settingsError st;
         apiKeyInput := apiKeyInput st;
         removeApiKey := removeApiKey st;
         hasApiKey := hasApiKey st;
         apiKeyLast4 := apiKeyLast4 st;
         isSettingsOpen := isSettingsOpen st;
         updateStatus := updateStatus st |}
  end.

(** ** Saving: the requests sent to the server *)

(** The body of [createCouncil] and [updateCouncil]. *)
Record council_payload : Type := CouncilPayload {
  p_name : string;
  p_council_models : list string;
  p_chairman_model : string
}.

(** The body of [updateSettings]; [openrouter_api_key] is a string or [null],
    and [available_models] is sent by the later version only. *)
Record settings_payload : Type := SettingsPayload {
  openrouter_api_key : option string;
  s_council_models : list string;
  s_chairman_model : string;
  s_available_models : option (list string)
}.

Inductive api_call : Type :=
| createCouncil (p : council_payload)
| updateCouncil (key : string) (p : council_payload)
| listCouncils
| updateSettings (p : settings_payload).

(** What the settings endpoint answers. *)
Record settings_answer : Type := SettingsAnswer {
  has_openrouter_key : js_value;
  openrouter_key_last4 : js_value;
  a_available_models : option (list string);
  a_council_models : list string;
  a_chairman_model : string
}.

(** What the server does to the requests of one save: each answer is a
    rejection with its error, or a value.  The answer to the create or update
    of the edited council may be [null]. *)
Record server : Type := Server {
  answer_save : js_error + option council;
  answer_dirty : string -> js_error + unit;
  answer_list : js_error + list council;
  answer_settings : js_error + settings_answer
}.

Definition setCouncilError (text : string) (st : settings_state) : settings_state :=
  {| councils := councils st;
     selectedCouncilKey := selectedCouncilKey st;
     editingCouncilKey := editingCouncilKey st;
     editingCouncilName := editingCouncilName st;
     isNewCouncil := isNewCouncil st;
     councilError := text;
     dirtyCouncils := dirtyCouncils st;
     newModelInput := newModelInput st;
     addModelError := addModelError st;
     settingsForm := settingsForm st;
     availableModels := availableModels st;
     settingsError := settingsError st;
     apiKeyInput := apiKeyInput st;
     removeApiKey := removeApiKey st;
     hasApiKey := hasApiKey st;
     apiKeyLast4 := apiKeyLast4 st;
     isSettingsOpen := isSettingsOpen st;
     updateStatus := updateStatus st |}.

Definition setSettingsError (text : string) (st : settings_state) : settings_state :=
  {| councils := councils st;
     selectedCouncilKey := selectedCouncilKey st;
     editingCouncilKey := editingCouncilKey st;
     editingCouncilName := editingCouncilName st;
     isNewCouncil := isNewCouncil st;
     councilError := councilError st;
     dirtyCouncils := dirtyCouncils st;
     newModelInput := newModelInput st;
     addModelError := addModelError st;
     settingsForm := settingsForm st;
     availableModels := availableModels st;
     settingsError := text;
     apiKeyInput := apiKeyInput st;
     removeApiKey := removeApiKey st;
     hasApiKey := hasApiKey st;
     apiKeyLast4 := apiKeyLast4 st;
     isSettingsOpen := isSettingsOpen st;
     updateStatus := updateStatus st |}.

(** [setCouncils(latestCouncils); setDirtyCouncils(new Set())]. *)
Definition set_latest_councils (latest : list council) (st : settings_state) : settings_state :=
  {| councils := latest;
     selectedCouncilKey := selectedCouncilKey st;
     editingCouncilKey := editingCouncilKey st;
     editingCouncilName := editingCouncilName st;
     isNewCouncil := isNewCouncil st;
     councilError := councilError st;
     dirtyCouncils := [];
     newModelInput := newModelInput st;
     addModelError := addModelError st;
     settingsForm := settingsForm st;
     availableModels := availableModels st;
     settingsError := settingsError st;
     apiKeyInput := apiKeyInput st;
     removeApiKey := removeApiKey st;
     hasApiKey := hasApiKey st;
     apiKeyLast4 := apiKeyLast4 st;
     isSettingsOpen := isSettingsOpen st;
     updateStatus := updateStatus st |}.

(** [error.message || 'Failed to save settings.']. *)
Definition save_failure_text (e : js_error) : string :=
  if String.eqb (message e) "" then "Failed to save settings." else message e.

(** [s || fallback] on strings. *)
Definition str_or (s fallback : string) : string :=
  if String.eqb s "" then fallback else s.

(** [removeApiKey ? '' : apiKeyInput.trim() || null]. *)
Definition api_key_field (st : settings_state) : option string :=
  if removeApiKey st then Some ""
  else if String.eqb (trim (apiKeyInput st)) "" then None
  else Some (trim (apiKeyInput st)).

(** The dirty councils that the loop of [handleSaveSettings] updates, in
    order: those other than the saved one that [councils] still has. *)
Definition dirty_updates (st : settings_state) (savedKey : string) : list (string * council_payload) :=
  omap (fun key =>
          match find (fun c => String.eqb (c_key c) key) (councils st) with
          | Some c =>
              Some (key, {| p_name := c_name c;
                            p_council_models := c_models c;
                            p_chairman_model := c_chairman c |})
          | None => None
          end)
       (filter (fun key => key <> savedKey) (dirtyCouncils st)).

(** The loop itself: the requests sent, and the error that stopped it. *)
Fixpoint send_dirty (srv : server) (updates : list (string * council_payload))
  : list api_call * option js_error :=
  match updates with
  | [] => ([], None)
  | (key, p) :: rest =>
      match answer_dirty srv key with
      | inl e => ([updateCouncil key p], Some e)
      | inr _ =>
          let '(calls, err) := send_dirty srv rest in
          (updateCouncil key p :: calls, err)
      end
  end.

(** The request that saves the council being edited: [createCouncil] for a
    new one, [updateCouncil] otherwise. *)
Definition edited_council_request (st : settings_state) : api_call :=
  let payload :=
    {| p_name := str_or (trim (editingCouncilName st)) "Untitled Council";
       p_council_models := council_models (settingsForm st);
       p_chairman_model := chairman_model (settingsForm st) |} in
  if isNewCouncil st then createCouncil payload
  else updateCouncil (editingCouncilKey st) payload.

(** [handleSaveSettings()]: the requests it sends, in order, and the state it
    leaves. *)
Definition handleSaveSettings (srv : server) (st0 : settings_state)
  : list api_call * settings_state :=
  let st := setCouncilError "" (setSettingsError "" st0) in
  let form := settingsForm st in
  if length (council_models form) =? 0 then
    ([], setSettingsError "Select at least one council member (max 4)." st)
  else if 4 <? length (council_models form) then
    ([], setSettingsError "Council limited to 4 members." st)
  else if String.eqb (chairman_model form) "" then
    ([], setSettingsError "Choose a chairman from the selected members." st)
  else
    let cleanedAvailable :=
      Set_of (filter (fun m => m <> "") (map trim (availableModels st))) in
    let councilName := str_or (trim (editingCouncilName st)) "Untitled Council" in
    let first_call := edited_council_request st in
    match answer_save srv with
    | inl e => ([first_call], setSettingsError (save_failure_text e) st)
    | inr savedCouncil =>
        let savedKey :=
          str_or (match savedCouncil with Some c => c_key c | None => "" end)
            (editingCouncilKey st) in
        match send_dirty srv (dirty_updates st savedKey) with
        | (dirty_calls, Some e) =>
            (first_call :: dirty_calls, setSettingsError (save_failure_text e) st)
        | (dirty_calls, None) =>
            match answer_list srv with
            | inl e =>
                (first_call :: dirty_calls ++ [listCouncils],
                 setSettingsError (save_failure_text e) st)
            | inr latestCouncils =>
                let st1 := set_latest_councils latestCouncils st in
                let defaultCouncil :=
                  match find (fun c => String.eqb (c_key c) "default") latestCouncils with
                  | Some c => Some c
                  | None => savedCouncil
                  end in
                let settingsCouncil :=
                  match defaultCouncil with Some c => Some c | None => savedCouncil end in
                let settings :=
                  {| openrouter_api_key := api_key_field st;
                     s_council_models :=
                       match settingsCouncil with
                       | Some c => c_models c
                       | None => council_models form
                       end;
                     s_chairman_model :=
                       str_or (match settingsCouncil with Some c => c_chairman c | None => "" end)
                         (chairman_model form);
                     s_available_models := Some cleanedAvailable |} in
                let calls := first_call :: dirty_calls ++ [listCouncils; updateSettings settings] in
                match answer_settings srv with
                | inl e => (calls, setSettingsError (save_failure_text e) st1)
                | inr updated =>
                    (calls,
                     {| councils := latestCouncils;
                        selectedCouncilKey :=
                          str_or (match savedCouncil with Some c => c_key c | None => "" end)
                            (selectedCouncilKey st);
                        editingCouncilKey := savedKey;
                        editingCouncilName :=
                          str_or (match savedCouncil with Some c => c_name c | None => "" end)
                            councilName;
                        isNewCouncil := false;
                        councilError := "";
                        dirtyCouncils := [];
                        newModelInput := newModelInput st;
                        addModelError := addModelError st;
                        settingsForm :=
                          {| council_models :=
                               match savedCouncil with
                               | Some c => c_models c
                               | None => council_models form
                               end;
                             chairman_model :=
                               str_or (match savedCouncil with Some c => c_chairman c | None => "" end)
                                 (chairman_model form) |};
                        availableModels :=
                          match a_available_models updated with
                          | Some l => l
                          | None => cleanedAvailable
                          end;
                        settingsError := "";
                        apiKeyInput := "";
                        removeApiKey := false;
                        hasApiKey := truthy (has_openrouter_key updated);
                        apiKeyLast4 := openrouter_key_last4 updated;
                        isSettingsOpen := false;
                        updateStatus := "Settings saved." |})
                end
            end
        end
    end.

(** [handleSaveSettings] of [frontend/src/App.jsx]: one settings request that
    carries the form. *)
Definition Earlier_handleSaveSettings (answer : js_error + settings_answer)
  (st0 : settings_state) : list api_call * settings_state :=
  let st := setSettingsError "" st0 in
  let form := settingsForm st in
  if length (council_models form) =? 0 then
    ([], setSettingsError "Select at least one council member (max 4)." st)
  else if 4 <? length (council_models form) then
    ([], setSettingsError "Council limited to 4 members." st)
  else if String.eqb (chairman_model form) "" then
    ([], setSettingsError "Choose a chairman from the selected members." st)
  else
    let settings :=
      {| openrouter_api_key := api_key_field st;
         s_council_models := council_models form;
         s_chairman_model := chairman_model form;
         s_available_models := None |} in
    match answer with
    | inl e => ([updateSettings settings], setSettingsError (save_failure_text e) st)
    | inr updated =>
        ([updateSettings settings],
         {| councils := councils st;
            selectedCouncilKey := selectedCouncilKey st;
            editingCouncilKey := editingCouncilKey st;
            editingCouncilName := editingCouncilName st;
            isNewCouncil := isNewCouncil st;
            councilError := councilError st;
            dirtyCouncils := dirtyCouncils st;
            newModelInput := newModelInput st;
            addModelError := addModelError st;
            settingsForm :=
              {| council_models := a_council_models updated;
                 chairman_model := a_chairman_model updated |};
            availableModels := availableModels st;
            settingsError := "";
            apiKeyInput := "";
            removeApiKey := false;
            hasApiKey := truthy (has_openrouter_key updated);
            apiKeyLast4 := openrouter_key_last4 updated;
            isSettingsOpen := false;
            updateStatus := "Settings saved." |})
    end.

(* ===================================================================== *)
(** * The deliberation session *)
(* ===================================================================== *)

(** The Deliberation Session of spec sections 2, 4.6, 5, 6 and 7.  Its code,
    the server's event generator, is not among the client sources. *)
Module Session.

(** Modelled from the spec: the event types of the interface table of
    section 6, which the missing event generator emits; [Failed] is the
    [error] event. *)
Inductive event : Type :=
| Stage1Start | Stage1Complete
| Stage2Start | Stage2Complete
| Stage3Start | Stage3Complete
| TitleComplete
| Complete
| Failed.

Global Instance event_eq_dec : EqDecision event.
Proof. solve_decision. Defined.

(** Modelled from the spec: the states of the missing session, section 4.6
    ([Idle -> Stage1Running -> Stage2Running -> Stage3Running -> Completed],
    with [Errored]) and section 5 ([Cancelled]). *)
Inductive state : Type :=
| Idle | Stage1Running | Stage2Running | Stage3Running
| Completed | Errored | Cancelled.

Definition running (s : state) : bool :=
  match s with
  | Stage1Running | Stage2Running | Stage3Running => true
  | _ => false
  end.

(** Modelled from the spec: the transitions of the missing session and the
    events each emits, in order (sections 2, 4.6 and 7).  Stage completion or
    failure triggers a transition: Stage 1 with a success moves on, Stage 2
    always does (it degrades softly), Stage 3 ends the run, with the title
    event when a title was generated; a fatal failure, in any running state,
    emits a single [error] event. *)
Inductive transition : state -> list event -> state -> Prop :=
| run_started : transition Idle [Stage1Start] Stage1Running
| stage1_done : transition Stage1Running [Stage1Complete; Stage2Start] Stage2Running
| stage2_done : transition Stage2Running [Stage2Complete; Stage3Start] Stage3Running
| stage3_done (titled : bool) :
    transition Stage3Running
      (Stage3Complete :: (if titled then [TitleComplete] else []) ++ [Complete])
      Completed
| fatal_failure (s : state) :
    running s = true -> transition s [Failed] Errored.

(** Modelled from the spec: a step of the missing session is a transition,
    or a cancellation that cuts one short (sections 4.6 and 5): what had been
    emitted stays, nothing follows. *)
Inductive step : state -> list event -> state -> Prop :=
| step_transition (s s' : state) (evs : list event) :
    transition s evs s' -> step s evs s'
| step_cancelled (s s' : state) (evs emitted : list event) :
    transition s evs s' -> emitted `prefix_of` evs -> step s emitted Cancelled.

(** Modelled from the spec: the events that the missing session has emitted
    on its way from [Idle], in arrival order, and the state it has reached. *)
Inductive run : state -> list event -> Prop :=
| run_idle : run Idle []
| run_step (s s' : state) (tr evs : list event) :
    run s tr -> step s evs s' -> run s' (tr ++ evs).

(** The place of an event in a run: its stage, then the title, then the
    terminal event ([complete] or [error]). *)
Definition rank (e : event) : nat :=
  match e with
  | Stage1Start | Stage1Complete => 1
  | Stage2Start | Stage2Complete => 2
  | Stage3Start | Stage3Complete => 3
  | TitleComplete => 4
  | Complete | Failed => 5
  end.

Definition terminal (e : event) : bool :=
  match e with Complete | Failed => true | _ => false end.

(** A sequence without repeats whose ranks never go down. *)
Fixpoint ordered (tr : list event) : bool :=
  match tr with
  | [] => true
  | e :: rest =>
      forallb (fun e' => rank e <=? rank e') rest
      && negb (bool_decide (e ∈ rest))
      && ordered rest
  end.

(** A terminal event, if there is one, is the last event. *)
Definition terminal_last (tr : list event) : bool :=
  forallb (fun e => negb (terminal e)) (removelast tr).

(** What has been emitted when the session is in a given state. *)
Definition emitted_in (s : state) (tr : list event) : Prop :=
  match s with
  | Idle => tr = []
  | Stage1Running => tr = [Stage1Start]
  | Stage2Running => tr = [Stage1Start; Stage1Complete; Stage2Start]
  | Stage3Running =>
      tr = [Stage1Start; Stage1Complete; Stage2Start; Stage2Complete; Stage3Start]
  | Completed | Errored | Cancelled =>
      ordered tr = true /\ terminal_last tr = true
  end.

End Session.

(* ===================================================================== *)
(** * Stage 2: peer rankings and their aggregate *)
(* ===================================================================== *)

(** The Stage 2 Aggregator of spec section 4.4 with the error policy of
    section 7.  Its code is not among the client sources.  Throughout,
    [labels] is the list of the labels of the successful Stage 1 responses in
    the stable Stage 1 order, which the spec identifies with ascending label
    order. *)
Module Stage2.

Definition label : Type := string.

(** Modelled from the spec: how a stage of the missing engine ends, with its
    output or fatally (section 7). *)
Inductive stage_outcome (A : Type) : Type :=
| StageOutput (a : A)
| StageFatal (reason : string).
Arguments StageOutput {A} a.
Arguments StageFatal {A} reason.

(** Modelled from the spec: the output of the missing aggregator (section
    4.4): every model's ranking or its failure, the aggregate ranking, and the
    label map. *)
Record stage2_output : Type := Stage2Output {
  rankings : list (string * option (list label));
  aggregate_ranking : list label;
  label_to_model : list (label * string)
}.

Section Aggregator.

(** The tolerant parser, a pure function from text to ordered labels or a
    parse failure. *)
Variable parse_ranking : string -> option (list label).

(** Modelled from the spec: the validity check of the missing aggregator; a
    ranking counts when it is a permutation of the visible labels. *)
Definition is_permutation_of (labels ranking : list label) : bool :=
  bool_decide (NoDup ranking)
  && forallb (fun l => bool_decide (l ∈ labels)) ranking
  && (length ranking =? length labels).

(** Modelled from the spec: one model's ranking in the missing aggregator;
    [None] when the call failed, the text could not be parsed, or what was
    parsed is no permutation of the labels. *)
Definition ranking_of (labels : list label) (answer : option string) : option (list label) :=
  match answer with
  | None => None
  | Some text =>
      match parse_ranking text with
      | Some r => if is_permutation_of labels r then Some r else None
      | None => None
      end
  end.

Fixpoint position (l : label) (ranking : list label) : nat :=
  match ranking with
  | [] => 0
  | l' :: rest => if String.eqb l l' then 0 else S (position l rest)
  end.

(** Modelled from the spec: the Borda points of the missing aggregator; in a
    ranking of [k] labels the first gets [k - 1], the second [k - 2], the last
    [0], and a label's score is the sum over the valid rankings. *)
Definition points (ranking : list label) (l : label) : nat :=
  length ranking - 1 - position l ranking.

Definition score (valid : list (list label)) (l : label) : nat :=
  foldr (fun r acc => points r l + acc) 0 valid.

(** Modelled from the spec: the order of the missing aggregator, descending
    by total score; equal scores keep the stable order. *)
Definition by_score (valid : list (list label)) (a b : label) : option Z :=
  Some (Z.of_nat (score valid b) - Z.of_nat (score valid a))%Z.

Definition borda_order (labels : list label) (valid : list (list label)) : list label :=
  Array_sort (by_score valid) labels.

(** Modelled from the spec: the aggregate ranking of the missing aggregator,
    with the documented fallback to the stable Stage 1 order when no ranking
    is valid. *)
Definition aggregate (labels : list label) (valid : list (list label)) : list label :=
  match valid with
  | [] => labels
  | _ :: _ => borda_order labels valid
  end.

(** Modelled from the spec: the missing Stage 2 as a whole; [answers] pairs
    each ranking model with the text it returned, if its call succeeded.  A
    model's failure is recorded, never fatal. *)
Definition aggregator (label_map : list (label * string))
  (answers : list (string * option string))
  : stage_outcome stage2_output :=
  let labels := map fst label_map in
  let parsed := map (fun a => (a.1, ranking_of labels a.2)) answers in
  let valid := omap snd parsed in
  StageOutput {| rankings := parsed;
                 aggregate_ranking := aggregate labels valid;
                 label_to_model := label_map |}.

End Aggregator.

End Stage2.

(* ===================================================================== *)
(** * Sample data *)
(* ===================================================================== *)

(** Texts with quotes and line feeds, for the examples. *)
Definition quoted (s : string) : string :=
  String DQUOTE s +:+ String DQUOTE EmptyString.

Definition blank_line : string := String LF (String LF EmptyString).

(** [data: {"type": "<ty>"}] followed by a blank line. *)
Definition sse_event (ty : string) : string :=
  "data: {" +:+ quoted "type" +:+ ": " +:+ quoted ty +:+ "}" +:+ blank_line.

(** A conversation in the middle of a run: a user message and the assistant
    placeholder, Stage 1 running. *)
Definition sample_state : app_state :=
  {| store :=
       [userMessage "What is a council?";
        with_loading {| ld_stage1 := true; ld_stage2 := false; ld_stage3 := false |}
          assistantMessage];
     conversations := [];
     currentConversationId := Some "c1";
     currentConversation :=
       Some {| conv_id := "c1";
               conv_title := JSStr "New Conversation";
               conv_props := [];
               messages := [0; 1] |};
     isLoading := true;
     sendError := JSStr "";
     effects := [] |}.

(** The state of a run between the optimistic appends and its end: the open
    conversation is the list [old] of earlier messages followed by the user
    message and the placeholder, which were created at the two addresses after
    the store [store0] of before the send; the placeholder has its [loading]
    object; and the message objects of before are as they were. *)
Definition placeholder_last (store0 : list chat_message) (old : list address)
  (st : app_state) : Prop :=
  exists conv m l,
    currentConversation st = Some conv
    /\ messages conv = old ++ [length store0; S (length store0)]
    /\ length (store st) = S (S (length store0))
    /\ store st !! S (length store0) = Some m
    /\ loading m = Some l
    /\ forall a, a < length store0 -> store st !! a = store0 !! a.

(** A request that the network drops before any answer. *)
Definition sample_idle_state : app_state :=
  {| store := [userMessage "Earlier question"];
     conversations := [];
     currentConversationId := Some "c1";
     currentConversation :=
       Some {| conv_id := "c1";
               conv_title := JSStr "Thread";
               conv_props := [];
               messages := [0] |};
     isLoading := false;
     sendError := JSStr "";
     effects := [] |}.

(** The chairman of a council that has members is one of them. *)
Definition chairman_is_member (models : list string) (chair : string) : Prop :=
  models <> [] -> chair ∈ models.

Definition form_ok (f : settings_form) : Prop :=
  chairman_is_member (council_models f) (chairman_model f).

Definition council_ok (c : council) : Prop :=
  chairman_is_member (c_models c) (c_chairman c).

(** Two councils listed by the server, the first one being edited. *)
Definition sample_settings : settings_state :=
  {| councils :=
       [ {| c_key := "default"; c_name := "General";
            c_models := ["openai/gpt-5"]; c_chairman := "openai/gpt-5" |};
         {| c_key := "research"; c_name := "Research";
            c_models := ["google/gemini"; "x-ai/grok"]; c_chairman := "google/gemini" |} ];
     selectedCouncilKey := "default";
     editingCouncilKey := "default";
     editingCouncilName := "General";
     isNewCouncil := false;
     councilError := "";
     dirtyCouncils := [];
     newModelInput := "";
     addModelError := "";
     settingsForm :=
       {| council_models := ["openai/gpt-5"]; chairman_model := "openai/gpt-5" |};
     availableModels := ["openai/gpt-5"; "google/gemini"; "x-ai/grok"];
     settingsError := "";
     apiKeyInput := "";
     removeApiKey := false;
     hasApiKey := true;
     apiKeyLast4 := JSStr "abcd";
     isSettingsOpen := true;
     updateStatus := "" |}.

(** A server that accepts every request and echoes the saved council. *)
Definition accepting_server (saved : option council) (latest : list council) : server :=
  {| answer_save := inr saved;
     answer_dirty := fun _ => inr tt;
     answer_list := inr latest;
     answer_settings :=
       inr {| has_openrouter_key := JSBool true;
              openrouter_key_last4 := JSStr "abcd";
              a_available_models := None;
              a_council_models := [];
              a_chairman_model := "" |} |}.

(** [new Date(n).getTime()] for a number [n] of milliseconds since the epoch:
    [n] itself within the range of dates, [NaN] outside.  Date strings are
    left to the platform and have no time in this sample clock. *)
Definition epoch_getTime (v : js_value) : option Z :=
  match v with
  | JSNum m 0 => if (Z.abs m <=? 8640000000000000)%Z then Some m else None
  | _ => None
  end.

(** The time that [sortConversationsByActivity] sorts an entry by, zero when
    the date is invalid. *)
Definition activity_time (Date_getTime : js_value -> option Z) (c : conv_summary) : Z :=
  default 0%Z (toTime Date_getTime (getLastInteracted (Some c))).

(** A list entry as the server sends it, created at [created] and without a
    recency stamp, and the same entry after an interaction at [touched]. *)
Definition listed (id : string) (created : Z) : conv_summary :=
  {| cs_id := id;
     created_at := JSNum created 0;
     updated_at := JSUndefined;
     lastInteracted := JSUndefined;
     last_interacted_at := JSUndefined;
     council_key := JSStr "default";
     title := JSStr "Thread";
     message_count := JSNum 2 0 |}.

Definition interacted (id : string) (created touched : Z) : conv_summary :=
  {| cs_id := id;
     created_at := JSNum created 0;
     updated_at := JSUndefined;
     lastInteracted := JSNum touched 0;
     last_interacted_at := JSNum touched 0;
     council_key := JSStr "default";
     title := JSStr "Thread";
     message_count := JSNum 2 0 |}.

(** A council of three whose rankings all fail: one call fails, one text
    cannot be parsed, one names a label twice. *)
Definition sample_label_map : list (Stage2.label * string) :=
  [("A", "openai/gpt-5"); ("B", "google/gemini"); ("C", "x-ai/grok")].

Definition sample_parse_ranking (text : string) : option (list Stage2.label) :=
  if String.eqb text "A > A > B" then Some ["A"; "A"; "B"] else None.

Definition sample_answers : list (string * option string) :=
  [("openai/gpt-5", None);
   ("google/gemini", Some "I cannot rank these.");
   ("x-ai/grok", Some "A > A > B")].

(* ===================================================================== *)
(** * api.js: the address of the backend and the error of a refused send *)
(* ===================================================================== *)

Definition SLASH : ascii := "/"%char.

(** [s.replace(/\/+$/, '')]: the pattern matches a run of slashes that ends
    the text, and the leftmost match is the whole of that run; a text that
    does not end in a slash has no match and stays as it is. *)
Fixpoint strip_trailing_slashes (s : string) : string :=
  match s with
  | EmptyString => EmptyString
  | String a r =>
      match strip_trailing_slashes r with
      | EmptyString => if Ascii.eqb a SLASH then EmptyString else String a EmptyString
      | t => String a t
      end
  end.

(** The last code unit of a text. *)
Fixpoint last_char (s : string) : option ascii :=
  match s with
  | EmptyString => None
  | String a EmptyString => Some a
  | String _ r => last_char r
  end.

(** [envBase]: [(import.meta.env.VITE_API_BASE || '').trim().replace(/\/+$/, '')];
    a variable that is not set reads as [undefined]. *)
Definition envBase (VITE_API_BASE : option string) : string :=
  strip_trailing_slashes (trim (default EmptyString VITE_API_BASE)).

(** [window.location], as far as the client reads it. *)
Record location : Type := Location {
  protocol : string;
  hostname : string
}.

(** [computeHostPortBase()]; [None] is a program that runs without a
    [window]. *)
Definition computeHostPortBase (window : option location) : string :=
  match window with
  | None => "http://localhost:8001"
  | Some loc =>
      let host :=
        if includes (hostname loc) ":" then "[" +:+ hostname loc +:+ "]"
        else hostname loc in
      protocol loc +:+ "//" +:+ host +:+ ":8001"
  end.

(** [API_BASE = envBase || computeHostPortBase()]. *)
Definition API_BASE (VITE_API_BASE : option string) (window : option location) : string :=
  str_or (envBase VITE_API_BASE) (computeHostPortBase window).

(** How a block of statements ends: normally, or with an exception. *)
Inductive outcome (A : Type) : Type :=
| Normal (a : A)
| Throw (e : js_error).
Arguments Normal {A} a.
Arguments Throw {A} e.

(** [try { body } catch (e) { handler(e) }]. *)
Definition try_catch {A : Type} (body : outcome A) (handler : js_error -> outcome A)
  : outcome A :=
  match body with
  | Normal a => Normal a
  | Throw e => handler e
  end.

(** The [try] block that [sendMessageStream] runs on the body text of an
    answer with an error status:
    [const parsed = JSON.parse(text); if (parsed?.detail) throw new Error(parsed.detail);].
    [SyntaxError_of] is the error of [JSON.parse] and [String_of] the text
    that [new Error(value)] makes of a value; both are the platform's. *)
Definition surface_detail (JSON_parse : string -> option js_value)
  (SyntaxError_of : string -> js_error) (String_of : js_value -> string)
  (text : string) : outcome unit :=
  match JSON_parse text with
  | None => Throw (SyntaxError_of text)
  | Some parsed =>
      let detail := default JSUndefined (get_prop parsed "detail") in
      if truthy detail then Throw (Error (String_of detail)) else Normal tt
  end.

(** The whole [if (!response.ok)] block of [sendMessageStream]: the [try]
    block above with a [catch] block that is empty, then
    [throw new Error(text || 'Failed to send message')]. *)
Definition refuse_send (JSON_parse : string -> option js_value)
  (SyntaxError_of : string -> js_error) (String_of : js_value -> string)
  (text : string) : outcome unit :=
  match try_catch (surface_detail JSON_parse SyntaxError_of String_of text)
          (fun _ => Normal tt) with
  | Normal _ => Throw (Error (str_or text "Failed to send message"))
  | Throw e => Throw e
  end.

(* ===================================================================== *)
(** * ChatInterface.jsx: the compose box *)
(* ===================================================================== *)

(** The calls that the compose box makes to the callbacks of its parent. *)
Inductive composer_call : Type :=
| onSendMessage (content : string)
| clearError.

(** [handleSubmit(e)]: the calls made, and the next value of [input].
    [clearError?.()] is a call only when the parent gave the callback. *)
Definition handleSubmit (has_clearError : bool) (busy : bool) (input : string)
  : list composer_call * string :=
  if negb (String.eqb (trim input) "") && negb busy
  then (onSendMessage input :: (if has_clearError then [clearError] else []), "")
  else ([], input).

(** [handleKeyDown(e)] of the text area: Enter without Shift submits. *)
Definition handleKeyDown (has_clearError : bool) (key : string) (shiftKey : bool)
  (busy : bool) (input : string) : list composer_call * string :=
  if String.eqb key "Enter" && negb shiftKey
  then handleSubmit has_clearError busy input
  else ([], input).

(** [disabled={!input.trim() || isLoading}] of the send button. *)
Definition send_disabled (busy : bool) (input : string) : bool :=
  String.eqb (trim input) "" || busy.

(** The code units of a text. *)
Fixpoint code_units (s : string) : list ascii :=
  match s with
  | EmptyString => []
  | String a r => a :: code_units r
  end.

(* ===================================================================== *)
(** * ChatInterface.jsx: what MessagesView shows *)
(* ===================================================================== *)

(** The elements of the transcript. *)
Inductive view_part : Type :=
| EmptyStateView
| UserMessageView (text : js_value)
| AssistantLabel
| StageLoading (stage : nat)
| Stage1View (responses : js_value)
| Stage2View (props : stage2_props)
| Stage3View (finalResponse : js_value)
| TextView (v : js_value)
| LoadingIndicator.

(** [{value && element}] in JSX: the element for a truthy value; a falsy
    number is rendered as text; [null], [undefined], [false] and the empty
    string render nothing. *)
Definition render_when (value : js_value) (element : view_part) : list view_part :=
  if truthy value then [element]
  else match value with
       | JSNum _ _ => [TextView value]
       | _ => []
       end.

(** [msg.loading?.stageN], for a [loading] object that holds booleans. *)
Definition loading_flag (stage : loading_flags -> bool) (msg : chat_message) : bool :=
  match loading msg with
  | Some l => stage l
  | None => false
  end.

(** [msg.role === 'user']. *)
Definition is_user (msg : chat_message) : bool :=
  match role msg with
  | JSStr r => String.eqb r "user"
  | _ => false
  end.

(** One [message-group] of [MessagesView]. *)
Definition message_group (msg : chat_message) : list view_part :=
  if is_user msg then [UserMessageView (content msg)]
  else
    AssistantLabel
    :: (if loading_flag ld_stage1 msg then [StageLoading 1] else [])
    ++ render_when (stage1 msg) (Stage1View (stage1 msg))
    ++ (if loading_flag ld_stage2 msg then [StageLoading 2] else [])
    ++ render_when (stage2 msg)
         (Stage2View {| view_rankings := stage2 msg;
                        view_labelToModel := prop (metadata msg) "label_to_model";
                        view_aggregateRankings := prop (metadata msg) "aggregate_rankings" |})
    ++ (if loading_flag ld_stage3 msg then [StageLoading 3] else [])
    ++ render_when (stage3 msg) (Stage3View (stage3 msg)).

(** [MessagesView({ messages, isLoading })]: the groups, or the empty state,
    then the indicator of a run. *)
Definition MessagesView (msgs : list chat_message) (busy : bool) : list (list view_part) :=
  (match msgs with
   | [] => [[EmptyStateView]]
   | _ :: _ => map message_group msgs
   end)
  ++ (if busy then [[LoadingIndicator]] else []).

(** The message objects of the open conversation. *)
Definition open_message_objects (st : app_state) : list chat_message :=
  omap (fun a => store st !! a) (open_messages st).

(** The last message object of the open conversation. *)
Definition last_message (st : app_state) : option chat_message :=
  match last (open_messages st) with
  | Some a => store st !! a
  | None => None
  end.

(** The callback applied to a sequence of events, in order. *)
Definition deliver_all (events : list (js_value * js_value)) (run : option app_state)
  : option app_state :=
  foldl (apply_call onEvent) run events.

(** The events of a run in which every stage succeeds, each type with its
    event object. *)
Definition successful_run (start1 done1 start2 done2 start3 done3 titled completed : js_value)
  : list (js_value * js_value) :=
  [(JSStr "stage1_start", start1);
   (JSStr "stage1_complete", done1);
   (JSStr "stage2_start", start2);
   (JSStr "stage2_complete", done2);
   (JSStr "stage3_start", start3);
   (JSStr "stage3_complete", done3);
   (JSStr "title_complete", titled);
   (JSStr "complete", completed)].

(** What an event writes to the last message of the open conversation, when
    that message has its [loading] object: the writes of the six stage
    updaters of the dispatcher. *)
Definition written (eventType event : js_value) (m : chat_message) : chat_message :=
  match loading m with
  | None => m
  | Some l =>
      match case_of eventType with
      | stage1_start => with_loading (loading_stage1 true l) m
      | stage1_complete =>
          with_loading (loading_stage1 false l) (write_stage1 (prop event "data") m)
      | stage2_start => with_loading (loading_stage2 true l) m
      | stage2_complete =>
          with_loading (loading_stage2 false l)
            (write_metadata (prop event "metadata")
               (write_stage2 (prop event "data") m))
      | stage3_start => with_loading (loading_stage3 true l) m
      | stage3_complete =>
          with_loading (loading_stage3 false l) (write_stage3 (prop event "data") m)
      | _ => m
      end
  end.

(** What the last group of the transcript shows after each event of a
    sequence. *)
Fixpoint last_views (events : list (js_value * js_value)) (st : app_state)
  : list (option (list view_part)) :=
  match events with
  | [] => []
  | (ty, event) :: rest =>
      match dispatch ty event st with
      | Some st' => option_map message_group (last_message st') :: last_views rest st'
      | None => [None]
      end
  end.

(** The groups that a message goes through under a sequence of events. *)
Fixpoint groups_under (events : list (js_value * js_value)) (m : chat_message)
  : list (option (list view_part)) :=
  match events with
  | [] => []
  | (ty, event) :: rest =>
      Some (message_group (written ty event m)) :: groups_under rest (written ty event m)
  end.

(* ===================================================================== *)
(** * App.jsx: the handlers of the conversation list *)
(* ===================================================================== *)

(** The requests of these handlers. *)
Inductive request : Type :=
| listConversations
| getConversation (id : string)
| createConversation (preferredCouncil : string)
| renameConversation (id newTitle : string)
| deleteConversation (id : string).

(** The state that the handlers of the list read and set besides that of the
    open conversation: [selectedCouncilKey] (here [councilKey]; it takes
    whatever a list entry holds as its [council_key]), the layout flags and
    the rename dialog. *)
Record sidebar_state : Type := SidebarState {
  core : app_state;
  councilKey : js_value;
  isMobile : bool;
  isSidebarOpen : bool;
  renameTarget : option conv_summary;
  renameValue : js_value;
  renameError : string
}.

Definition set_currentConversationId (id : option string) (st : app_state) : app_state :=
  {| store := store st;
     conversations := conversations st;
     currentConversationId := id;
     currentConversation := currentConversation st;
     isLoading := isLoading st;
     sendError := sendError st;
     effects := effects st |}.

Definition with_core (f : app_state -> app_state) (st : sidebar_state) : sidebar_state :=
  {| core := f (core st);
     councilKey := councilKey st;
     isMobile := isMobile st;
     isSidebarOpen := isSidebarOpen st;
     renameTarget := renameTarget st;
     renameValue := renameValue st;
     renameError := renameError st |}.

Definition setSelectedCouncilKey (key : js_value) (st : sidebar_state) : sidebar_state :=
  {| core := core st;
     councilKey := key;
     isMobile := isMobile st;
     isSidebarOpen := isSidebarOpen st;
     renameTarget := renameTarget st;
     renameValue := renameValue st;
     renameError := renameError st |}.

Definition setIsSidebarOpen (b : bool) (st : sidebar_state) : sidebar_state :=
  {| core := core st;
     councilKey := councilKey st;
     isMobile := isMobile st;
     isSidebarOpen := b;
     renameTarget := renameTarget st;
     renameValue := renameValue st;
     renameError := renameError st |}.

Definition setRenameTarget (target : option conv_summary) (st : sidebar_state)
  : sidebar_state :=
  {| core := core st;
     councilKey := councilKey st;
     isMobile := isMobile st;
     isSidebarOpen := isSidebarOpen st;
     renameTarget := target;
     renameValue := renameValue st;
     renameError := renameError st |}.

Definition setRenameValue (v : js_value) (st : sidebar_state) : sidebar_state :=
  {| core := core st;
     councilKey := councilKey st;
     isMobile := isMobile st;
     isSidebarOpen := isSidebarOpen st;
     renameTarget := renameTarget st;
     renameValue := v;
     renameError := renameError st |}.

Definition setRenameError (text : string) (st : sidebar_state) : sidebar_state :=
  {| core := core st;
     councilKey := councilKey st;
     isMobile := isMobile st;
     isSidebarOpen := isSidebarOpen st;
     renameTarget := renameTarget st;
     renameValue := renameValue st;
     renameError := text |}.

(** [console.error(label, error)]. *)
Definition console_error_of (label : string) (e : js_error) (st : sidebar_state)
  : sidebar_state :=
  with_core (perform (ConsoleError label (JSStr (message e)))) st.

(** [!currentConversationId]. *)
Definition no_selection (id : option string) : bool :=
  match id with
  | None => true
  | Some s => String.eqb s ""
  end.


(** [if (entry?.council_key) setSelectedCouncilKey(entry.council_key)]. *)
Definition adopt_council (entry : option conv_summary) (st : sidebar_state) : sidebar_state :=
  match entry with
  | Some c => if truthy (council_key c) then setSelectedCouncilKey (council_key c) st else st
  | None => st
  end.





(** [handleRenameConversation(conversation)]; [None] is a call without a
    conversation. *)
Definition handleRenameConversation (target : option conv_summary) (st : sidebar_state)
  : sidebar_state :=
  match target with
  | None => st
  | Some c =>
      setRenameError ""
        (setRenameValue (js_or (title c) (JSStr "New Conversation"))
           (setRenameTarget (Some c) st))
  end.

(** [{ ...conv, title: trimmedTitle }]. *)
Definition with_title (newTitle : string) (conv : conv_summary) : conv_summary :=
  {| cs_id := cs_id conv;
     created_at := created_at conv;
     updated_at := updated_at conv;
     lastInteracted := lastInteracted conv;
     last_interacted_at := last_interacted_at conv;
     council_key := council_key conv;
     title := JSStr newTitle;
     message_count := message_count conv |}.

(** [prev && prev.id === id ? { ...prev, title: trimmedTitle } : prev]. *)
Definition retitle_open (id newTitle : string) (prev : option conversation)
  : option conversation :=
  match prev with
  | Some conv =>
      if String.eqb (conv_id conv) id
      then Some {| conv_id := conv_id conv;
                   conv_title := JSStr newTitle;
                   conv_props := conv_props conv;
                   messages := messages conv |}
      else prev
  | None => None
  end.

(** [submitRename()].  [renameValue.trim()] is the first statement: on a
    value that is no text it throws, and the handler ends there ([None]). *)
Definition submitRename (answer : js_error + unit) (st : sidebar_state)
  : option (list request * sidebar_state) :=
  match renameValue st with
  | JSStr typed =>
      let trimmedTitle := trim typed in
      if String.eqb trimmedTitle "" then
        Some ([], setRenameError "Title cannot be empty." st)
      else
        match renameTarget st with
        | None => Some ([], st)
        | Some target =>
            match answer with
            | inr _ =>
                Some ([renameConversation (cs_id target) trimmedTitle],
                      setRenameTarget None
                        (with_core
                           (fun a =>
                              set_currentConversation
                                (retitle_open (cs_id target) trimmedTitle
                                   (currentConversation a))
                                (setConversations
                                   (map (fun conv =>
                                           if String.eqb (cs_id conv) (cs_id target)
                                           then with_title trimmedTitle conv
                                           else conv)
                                      (conversations a)) a))
                           st))
            | inl e =>
                Some ([renameConversation (cs_id target) trimmedTitle],
                      setRenameError "Rename failed. Please try again."
                        (console_error_of "Failed to rename conversation:" e st))
            end
        end
  | _ => None
  end.

(** What the server answers to [createConversation]. *)
Record created_conversation : Type := CreatedConversation {
  nc_id : string;
  nc_created_at : js_value;
  nc_title : js_value;
  nc_council_key : js_value
}.

(** [selectedCouncilKey === council.key]. *)
Definition is_key (selected : js_value) (c : council) : bool :=
  match selected with
  | JSStr k => String.eqb (c_key c) k
  | _ => false
  end.

(** [councils.find((council) => council.key === selectedCouncilKey)?.key
     || councils[0]?.key || 'default']. *)
Definition preferred_council (listed : list council) (selected : js_value) : string :=
  str_or (match find (is_key selected) listed with Some c => c_key c | None => "" end)
    (str_or (match listed with c :: _ => c_key c | [] => "" end) "default").

(** The list entry that [handleNewConversation] makes of the answer. *)
Definition new_entry (newConv : created_conversation) (newCouncilKey : js_value)
  (now : string) : conv_summary :=
  {| cs_id := nc_id newConv;
     created_at := nc_created_at newConv;
     updated_at := JSUndefined;
     lastInteracted := JSStr now;
     last_interacted_at := JSStr now;
     council_key := newCouncilKey;
     title := nc_title newConv;
     message_count := JSNum 0 0 |}.

(** [handleNewConversation()] of [part_001], with [listed] the councils,
    [now] the clock's [new Date().toISOString()] and [answer] the server's. *)
Definition handleNewConversation (Date_getTime : js_value -> option Z)
  (listed : list council) (now : string)
  (answer : js_error + created_conversation) (st : sidebar_state)
  : list request * sidebar_state :=
  let preferredCouncil := preferred_council listed (councilKey st) in
  match answer with
  | inl e =>
      ([createConversation preferredCouncil],
       console_error_of "Failed to create conversation:" e st)
  | inr newConv =>
      let newCouncilKey :=
        js_or (js_or (nc_council_key newConv) (JSStr preferredCouncil)) (JSStr "default") in
      let st1 :=
        with_core
          (fun a =>
             set_currentConversation
               (Some {| conv_id := nc_id newConv;
                        conv_title := nc_title newConv;
                        conv_props :=
                          [("created_at", nc_created_at newConv);
                           ("council_key", js_or newCouncilKey (JSStr "default"))];
                        messages := [] |})
               (set_currentConversationId (Some (nc_id newConv))
                  (setConversations
                     (sortConversationsByActivity Date_getTime
                        (new_entry newConv newCouncilKey now :: conversations a))
                     a)))
          st in
      let st2 := setSelectedCouncilKey (js_or newCouncilKey (JSStr "default")) st1 in
      ([createConversation preferredCouncil],
       if isMobile st then setIsSidebarOpen false st2 else st2)
  end.

(** [loadConversations()] of [part_001].  The function is a closure of the
    render that made it: [!currentConversationId] tests the selection of that
    render, [selected_at_call] ([null] for the call of the mount effect, whose
    function is the first render's), whereas the updater of
    [setConversations] works on the list of the state that the answer arrives
    in, [st]. *)
Definition loadConversations (Date_getTime : js_value -> option Z)
  (selected_at_call : option string)
  (answer : js_error + list conv_summary) (st : sidebar_state)
  : list request * sidebar_state :=
  match answer with
  | inl e => ([listConversations], console_error_of "Failed to load conversations:" e st)
  | inr convs =>
      let merged :=
        mergeConversationsWithRecency Date_getTime convs (conversations (core st)) in
      let st1 :=
        match merged with
        | first :: _ =>
            if no_selection selected_at_call then
              setSelectedCouncilKey (js_or (council_key first) (JSStr "default"))
                (with_core (set_currentConversationId (Some (cs_id first))) st)
            else st
        | [] => st
        end in
      ([listConversations], with_core (setConversations merged) st1)
  end.

(** [loadConversations()] of [frontend/src/App.jsx]: the list as the server
    sends it; [!currentConversationId] tests the selection of the render that
    made the function, as above. *)
Definition Earlier_loadConversations (selected_at_call : option string)
  (answer : js_error + list conv_summary)
  (st : sidebar_state) : list request * sidebar_state :=
  match answer with
  | inl e => ([listConversations], console_error_of "Failed to load conversations:" e st)
  | inr convs =>
      let st1 := with_core (setConversations convs) st in
      ([listConversations],
       match convs with
       | first :: _ =>
           if no_selection selected_at_call then
             with_core (set_currentConversationId (Some (cs_id first))) st1
           else st1
       | [] => st1
       end)
  end.

(** The properties of a list entry other than [id] and [title]. *)
Definition summary_props (c : conv_summary) : list (string * js_value) :=
  [("created_at", created_at c);
   ("updated_at", updated_at c);
   ("lastInteracted", lastInteracted c);
   ("last_interacted_at", last_interacted_at c);
   ("council_key", council_key c);
   ("message_count", message_count c)].

(** What the server answers to [getConversation]: the properties of the
    conversation and its messages. *)
Record conversation_detail : Type := ConversationDetail {
  cd_summary : conv_summary;
  cd_messages : list chat_message
}.

(** The entry that [loadConversation] makes of a list entry and the answer. *)
Definition refreshed (conv c : conv_summary) : conv_summary :=
  {| cs_id := cs_id c;
     created_at := created_at c;
     updated_at := updated_at c;
     title := title c;
     message_count := message_count c;
     council_key := js_or (council_key conv) (council_key c);
     lastInteracted :=
       js_or (js_or (getLastInteracted (Some conv)) (lastInteracted c)) (created_at c);
     last_interacted_at :=
       js_or (js_or (last_interacted_at conv) (last_interacted_at c)) (created_at c) |}.

(** [loadConversation(id)] of [part_001].  The message objects of the answer
    are new objects, at the addresses after those of the store. *)
Definition loadConversation (Date_getTime : js_value -> option Z)
  (answer : js_error + conversation_detail) (id : string) (st : sidebar_state)
  : list request * sidebar_state :=
  match answer with
  | inl e => ([getConversation id], console_error_of "Failed to load conversation:" e st)
  | inr detail =>
      let conv := cd_summary detail in
      let st1 :=
        with_core
          (fun a =>
             set_currentConversation
               (Some {| conv_id := cs_id conv;
                        conv_title := title conv;
                        conv_props := summary_props conv;
                        messages := seq (length (store a)) (length (cd_messages detail)) |})
               (set_store (store a ++ cd_messages detail) a))
          st in
      let st2 := adopt_council (Some conv) st1 in
      ([getConversation id],
       with_core
         (fun a =>
            setConversations
              (sortConversationsByActivity Date_getTime
                 (map (fun c => if String.eqb (cs_id c) id then refreshed conv c else c)
                    (conversations a)))
              a)
         st2)
  end.

(** The identifiers of the list, in its order. *)
Definition listed_ids (st : sidebar_state) : list string :=
  map cs_id (conversations (core st)).

(** The entry that [markConversationInteracted] makes of the one it marks:
    [{ ...conv, lastInteracted: ts, last_interacted_at: ts }]. *)
Definition marked_at (ts : js_value) (conv : conv_summary) : conv_summary :=
  {| cs_id := cs_id conv;
     created_at := created_at conv;
     updated_at := updated_at conv;
     title := title conv;
     message_count := message_count conv;
     council_key := council_key conv;
     lastInteracted := ts;
     last_interacted_at := ts |}.

(** A list of three conversations with the most recent one open, on a wide
    screen. *)
Definition sample_sidebar : sidebar_state :=
  {| core :=
       {| store := [userMessage "Earlier question"];
          conversations := [interacted "b" 50 300; listed "c" 200; listed "a" 100];
          currentConversationId := Some "b";
          currentConversation :=
            Some {| conv_id := "b";
                    conv_title := JSStr "Thread";
                    conv_props := [];
                    messages := [0] |};
          isLoading := false;
          sendError := JSStr "";
          effects := [] |};
     councilKey := JSStr "default";
     isMobile := false;
     isSidebarOpen := true;
     renameTarget := None;
     renameValue := JSStr "";
     renameError := "" |}.

(* ===================================================================== *)
(** * App.jsx: more handlers of the settings dialog *)
(* ===================================================================== *)

(** [setAvailableModels], [setNewModelInput] and [setAddModelError], the
    setters of the roster of models. *)
Definition set_roster (models : list string) (input error : string) (st : settings_state)
  : settings_state :=
  {| councils := councils st;
     selectedCouncilKey := selectedCouncilKey st;
     editingCouncilKey := editingCouncilKey st;
     editingCouncilName := editingCouncilName st;
     isNewCouncil := isNewCouncil st;
     councilError := councilError st;
     dirtyCouncils := dirtyCouncils st;
     newModelInput := input;
     addModelError := error;
     settingsForm := settingsForm st;
     availableModels := models;
     settingsError := settingsError st;
     apiKeyInput := apiKeyInput st;
     removeApiKey := removeApiKey st;
     hasApiKey := hasApiKey st;
     apiKeyLast4 := apiKeyLast4 st;
     isSettingsOpen := isSettingsOpen st;
     updateStatus := updateStatus st |}.

Definition setCouncils (listed : list council) (st : settings_state) : settings_state :=
  {| councils := listed;
     selectedCouncilKey := selectedCouncilKey st;
     editingCouncilKey := editingCouncilKey st;
     editingCouncilName := editingCouncilName st;
     isNewCouncil := isNewCouncil st;
     councilError := councilError st;
     dirtyCouncils := dirtyCouncils st;
     newModelInput := newModelInput st;
     addModelError := addModelError st;
     settingsForm := settingsForm st;
     availableModels := availableModels st;
     settingsError := settingsError st;
     apiKeyInput := apiKeyInput st;
     removeApiKey := removeApiKey st;
     hasApiKey := hasApiKey st;
     apiKeyLast4 := apiKeyLast4 st;
     isSettingsOpen := isSettingsOpen st;
     updateStatus := updateStatus st |}.

Definition setSelectedKey (key : string) (st : settings_state) : settings_state :=
  {| councils := councils st;
     selectedCouncilKey := key;
     editingCouncilKey := editingCouncilKey st;
     editingCouncilName := editingCouncilName st;
     isNewCouncil := isNewCouncil st;
     councilError := councilError st;
     dirtyCouncils := dirtyCouncils st;
     newModelInput := newModelInput st;
     addModelError := addModelError st;
     settingsForm := settingsForm st;
     availableModels := availableModels st;
     settingsError := settingsError st;
     apiKeyInput := apiKeyInput st;
     removeApiKey := removeApiKey st;
     hasApiKey := hasApiKey st;
     apiKeyLast4 := apiKeyLast4 st;
     isSettingsOpen := isSettingsOpen st;
     updateStatus := updateStatus st |}.

(** [setEditingCouncilKey], [setEditingCouncilName] and [setSettingsForm]. *)
Definition set_editing (key name : string) (form : settings_form) (st : settings_state)
  : settings_state :=
  {| councils := councils st;
     selectedCouncilKey := selectedCouncilKey st;
     editingCouncilKey := key;
     editingCouncilName := name;
     isNewCouncil := isNewCouncil st;
     councilError := councilError st;
     dirtyCouncils := dirtyCouncils st;
     newModelInput := newModelInput st;
     addModelError := addModelError st;
     settingsForm := form;
     availableModels := availableModels st;
     settingsError := settingsError st;
     apiKeyInput := apiKeyInput st;
     removeApiKey := removeApiKey st;
     hasApiKey := hasApiKey st;
     apiKeyLast4 := apiKeyLast4 st;
     isSettingsOpen := isSettingsOpen st;
     updateStatus := updateStatus st |}.

(** [handleAddModel()]. *)
Definition handleAddModel (st : settings_state) : settings_state :=
  let trimmed := trim (newModelInput st) in
  if String.eqb trimmed "" then
    set_roster (availableModels st) (newModelInput st)
      "Enter an OpenRouter model id to add." st
  else if includes_model (availableModels st) trimmed then
    set_roster (availableModels st) (newModelInput st) "That model is already listed." st
  else set_roster (availableModels st ++ [trimmed]) "" "" st.

(** The list of models that [handleSaveSettings] sends:
    [Array.from(new Set(availableModels.map((model) => model.trim()).filter(Boolean)))]. *)
Definition cleanedAvailable (models : list string) : list string :=
  Set_of (filter (fun m => m <> "") (map trim models)).

(** A roster as [handleAddModel] keeps it: no entry twice, none empty, none
    with white space around it. *)
Definition clean_roster (models : list string) : Prop :=
  NoDup models /\ Forall (fun m => m <> "" /\ trim m = m) models.

(** [handleStartNewCouncil()]; [stamp] is the text of [Date.now()]. *)
Definition handleStartNewCouncil (stamp : string) (st : settings_state) : settings_state :=
  {| councils := councils st;
     selectedCouncilKey := selectedCouncilKey st;
     editingCouncilKey := "new-" +:+ stamp;
     editingCouncilName := "New Council";
     isNewCouncil := true;
     councilError := "";
     dirtyCouncils := dirtyCouncils st;
     newModelInput := "";
     addModelError := "";
     settingsForm := {| council_models := []; chairman_model := "" |};
     availableModels := availableModels st;
     settingsError := settingsError st;
     apiKeyInput := apiKeyInput st;
     removeApiKey := removeApiKey st;
     hasApiKey := hasApiKey st;
     apiKeyLast4 := apiKeyLast4 st;
     isSettingsOpen := isSettingsOpen st;
     updateStatus := updateStatus st |}.

(** [setSettingsForm(updater)], as [handleToggleModel(model)] calls it. *)
Definition toggle_in_dialog (model : string) (st : settings_state) : settings_state :=
  set_editing (editingCouncilKey st) (editingCouncilName st)
    (handleToggleModel model (settingsForm st)) st.

(** The requests of [handleDeleteCouncil] and [loadCouncils]. *)
Inductive council_request : Type :=
| deleteCouncil (key : string)
| listCouncils_again.

(** [latest.find((c) => c.key === 'default') || latest[0] || null]. *)
Definition fallback_council (latest : list council) : option council :=
  match find (fun c => String.eqb (c_key c) "default") latest with
  | Some c => Some c
  | None => head latest
  end.

(** The statements of [handleDeleteCouncil] after its two requests have been
    answered.  [handleSelectEditingCouncil] and [editingCouncilKey] are those
    of the render in which the handler was made: the key of the fallback is
    looked up in the list of before the requests, not in [latest]. *)
Definition after_council_deleted (latest : list council) (st : settings_state)
  : settings_state :=
  let st1 :=
    match fallback_council latest with
    | Some fallback =>
        setSelectedKey
          (if String.eqb (selectedCouncilKey st) (editingCouncilKey st)
           then c_key fallback else selectedCouncilKey st)
          (handleSelectEditingCouncil (c_key fallback) st)
    | None =>
        set_editing "default" "General" {| council_models := []; chairman_model := "" |} st
    end in
  setCouncilError "" (setCouncils latest st1).

(** [handleDeleteCouncil()]: [confirmed] is the answer of [window.confirm],
    the other two those of the server. *)
Definition handleDeleteCouncil (confirmed : bool) (answer_delete : js_error + unit)
  (answer_latest : js_error + list council) (st : settings_state)
  : list council_request * settings_state :=
  if isNewCouncil st then
    ([], setCouncilError "Save this council before deleting." st)
  else if String.eqb (editingCouncilKey st) "default" then
    ([], setCouncilError "Default council cannot be deleted." st)
  else if negb confirmed then ([], st)
  else
    match answer_delete with
    | inl e =>
        ([deleteCouncil (editingCouncilKey st)],
         setCouncilError (str_or (message e) "Failed to delete council.") st)
    | inr _ =>
        match answer_latest with
        | inl e =>
            ([deleteCouncil (editingCouncilKey st); listCouncils_again],
             setCouncilError (str_or (message e) "Failed to delete council.") st)
        | inr latest =>
            ([deleteCouncil (editingCouncilKey st); listCouncils_again],
             after_council_deleted latest st)
        end
    end.

(** [useState('default')]: the [selectedCouncilKey] of the first render. *)
Definition initial_selectedCouncilKey : string := "default".

(** [loadCouncils()]; a request that fails is only reported to the console.
    The function is a closure of the render that made it: the key that
    [find] compares with is the [selectedCouncilKey] of that render,
    [selected_at_call], not the one of the state that the answer arrives in,
    [st]. *)
Definition loadCouncils (selected_at_call : string)
  (answer : js_error + list council) (st : settings_state)
  : settings_state :=
  match answer with
  | inl _ => st
  | inr councilList =>
      match councilList with
      | [] => setCouncils councilList st
      | first :: _ =>
          setSelectedKey
            (str_or
               (match find (fun c => String.eqb (c_key c) selected_at_call)
                        councilList with
                | Some c => c_key c
                | None => ""
                end)
               (c_key first))
            (setCouncils councilList st)
      end
  end.

(** The only call of [loadCouncils] in the application: the mount effect
    [useEffect(() => { loadConversations(); loadCouncils(); }, [])] calls the
    function of the first render. *)
Definition loadCouncils_on_mount (answer : js_error + list council) (st : settings_state)
  : settings_state :=
  loadCouncils initial_selectedCouncilKey answer st.

(** The payload of [updateSettings], if a save got as far as sending it. *)
Definition sent_settings (calls : list api_call) : option settings_payload :=
  match last calls with
  | Some (updateSettings p) => Some p
  | _ => None
  end.

(* ===================================================================== *)
(** * App.jsx: the end of a send *)
(* ===================================================================== *)

(** The two cases of the dispatcher that clear the loading state. *)
Definition ends_run (call : js_value * js_value) : bool :=
  match case_of call.1 with
  | complete | error => true
  | _ => false
  end.

(** The calls that a stream makes to the callback, in order. *)
Definition delivered (JSON_parse : string -> option js_value) (chunks : list string)
  : list (js_value * js_value) :=
  omap (delivery JSON_parse) (complete_chunks (concat_text chunks)).

(** The state of a run of [handleSendMessage content] that started in [st0]:
    the open conversation is the one of [st0] with the user message and the
    placeholder appended, the two being new objects after those of [st0];
    the objects of [st0] and the user message are as they were made; the
    placeholder has its [loading] object and the role of an assistant. *)
Definition sending (st0 : app_state) (content : string) (st : app_state) : Prop :=
  exists conv m l,
    in_progress st conv (S (length (store st0))) m l
    /\ messages conv = open_messages st0 ++ [length (store st0); S (length (store st0))]
    /\ store st = store st0 ++ [userMessage content; m]
    /\ role m = JSStr "assistant".

(* ===================================================================== *)
(** * App.jsx: opening the settings dialog *)
(* ===================================================================== *)

(** The requests of [handleOpenSettings]. *)
Inductive open_request : Type :=
| getSettings
| listCouncils_for_dialog.

(** [setIsSettingsOpen(true); setSettingsError('')], the first statements of
    [handleOpenSettings]. *)
Definition open_dialog (st : settings_state) : settings_state :=
  {| councils := councils st;
     selectedCouncilKey := selectedCouncilKey st;
     editingCouncilKey := editingCouncilKey st;
     editingCouncilName := editingCouncilName st;
     isNewCouncil := isNewCouncil st;
     councilError := councilError st;
     dirtyCouncils := dirtyCouncils st;
     newModelInput := newModelInput st;
     addModelError := addModelError st;
     settingsForm := settingsForm st;
     availableModels := availableModels st;
     settingsError := "";
     apiKeyInput := apiKeyInput st;
     removeApiKey := removeApiKey st;
     hasApiKey := hasApiKey st;
     apiKeyLast4 := apiKeyLast4 st;
     isSettingsOpen := true;
     updateStatus := updateStatus st |}.

(** [currentConversation?.council_key || selectedCouncilKey || 'default'];
    [conversationCouncil] is the key of the open conversation, empty when
    there is none. *)
Definition preferredCouncilKey (conversationCouncil : string) (st : settings_state) : string :=
  str_or conversationCouncil (str_or (selectedCouncilKey st) "default").

(** [councilList.find((c) => c.key === preferredCouncilKey) || councilList[0] || null]. *)
Definition activeCouncil (councilList : list council) (preferred : string) : option council :=
  match find (fun c => String.eqb (c_key c) preferred) councilList with
  | Some c => Some c
  | None => head councilList
  end.

(** The state that the [try] block of [handleOpenSettings] leaves when both
    requests are answered. *)
Definition dialog_opened (data : settings_answer) (councilList : list council)
  (conversationCouncil : string) (st : settings_state) : settings_state :=
  let preferred := preferredCouncilKey conversationCouncil st in
  let active := activeCouncil councilList preferred in
  {| councils := councilList;
     selectedCouncilKey := selectedCouncilKey st;
     editingCouncilKey := str_or (match active with Some c => c_key c | None => "" end)
         (str_or preferred "default");
     editingCouncilName := str_or (match active with Some c => c_name c | None => "" end) "General";
     isNewCouncil := match active with Some _ => false | None => true end;
     councilError := "";
     dirtyCouncils := [];
     newModelInput := "";
     addModelError := "";
     settingsForm := {| council_models :=
            match active with
            | Some c => c_models c
            | None => a_council_models data
            end;
          chairman_model :=
            str_or (match active with Some c => c_chairman c | None => "" end)
              (str_or (a_chairman_model data) "") |};
     availableModels := default [] (a_available_models data);
     settingsError := settingsError st;
     apiKeyInput := "";
     removeApiKey := false;
     hasApiKey := truthy (has_openrouter_key data);
     apiKeyLast4 := openrouter_key_last4 data;
     isSettingsOpen := isSettingsOpen st;
     updateStatus := updateStatus st |}.

(** [handleOpenSettings()]: the requests, the state, and [settingsLoading],
    which the [finally] block sets. *)
Definition handleOpenSettings (answer_settings_now : js_error + settings_answer)
  (answer_councils : js_error + list council) (conversationCouncil : string)
  (st0 : settings_state) : list open_request * settings_state * bool :=
  let st := open_dialog st0 in
  match answer_settings_now with
  | inl _ => ([getSettings], setSettingsError "Failed to load settings. Try again." st, false)
  | inr data =>
      match answer_councils with
      | inl _ =>
          ([getSettings; listCouncils_for_dialog],
           setSettingsError "Failed to load settings. Try again." st, false)
      | inr councilList =>
          ([getSettings; listCouncils_for_dialog],
           dialog_opened data councilList conversationCouncil st, false)
      end
  end.

(* ===================================================================== *)
(** * Sidebar.jsx: the menu of a conversation *)
(* ===================================================================== *)

Section ContextMenu.

(** Screen coordinates are the platform's numbers; [plus4] is [n + 4]. *)
Variable coordinate : Type.
Variable origin : coordinate.
Variable plus4 : coordinate -> coordinate.

(** The [contextMenu] state. *)
Record context_menu : Type := ContextMenu {
  visible : bool;
  menu_x : coordinate;
  menu_y : coordinate;
  menu_conversation : option conv_summary
}.

(** [useState({ visible: false, x: 0, y: 0, conversation: null })]. *)
Definition closed_menu : context_menu :=
  {| visible := false; menu_x := origin; menu_y := origin; menu_conversation := None |}.

(** [{ ...prev, visible: false, conversation: null }]. *)
Definition hidden (prev : context_menu) : context_menu :=
  {| visible := false; menu_x := menu_x prev; menu_y := menu_y prev;
     menu_conversation := None |}.

(** [hideMenu()]. *)
Definition hideMenu (prev : context_menu) : context_menu :=
  if visible prev then hidden prev else prev.

(** [handleKeyDown(event)] of the sidebar: Escape hides the menu. *)
Definition Sidebar_handleKeyDown (key : string) (prev : context_menu) : context_menu :=
  if String.eqb key "Escape" then hideMenu prev else prev.

(** [openContextMenu(event, conversation)]. *)
Definition openContextMenu (clientX clientY : coordinate) (conv : conv_summary)
  : context_menu :=
  {| visible := true; menu_x := clientX; menu_y := clientY;
     menu_conversation := Some conv |}.

(** [openMenuFromButton(event, conversation)], with the right and bottom
    edges of the button. *)
Definition openMenuFromButton (right bottom : coordinate) (conv : conv_summary)
  : context_menu :=
  {| visible := true; menu_x := plus4 right; menu_y := plus4 bottom;
     menu_conversation := Some conv |}.

(** The calls of the menu to the callbacks of its parent. *)
Inductive menu_call : Type :=
| onRenameConversation (id : string) (current : js_value)
| onDeleteConversation (id : string).

(** [handleRename()] and [handleDelete()]. *)
Definition handleRename (menu : context_menu) : list menu_call * context_menu :=
  match menu_conversation menu with
  | None => ([], menu)
  | Some c => ([onRenameConversation (cs_id c) (title c)], hidden menu)
  end.

Definition handleDelete (menu : context_menu) : list menu_call * context_menu :=
  match menu_conversation menu with
  | None => ([], menu)
  | Some c => ([onDeleteConversation (cs_id c)], hidden menu)
  end.

(** What the user and the window do to the sidebar.  The two buttons of the
    menu are rendered only while the menu is visible. *)
Inductive menu_action : Type :=
| DocumentClick
| WindowResize
| KeyDown (key : string)
| RightClick (clientX clientY : coordinate) (conv : conv_summary)
| OptionsButton (right bottom : coordinate) (conv : conv_summary)
| RenameButton
| DeleteButton.

Definition menu_step (acc : list menu_call * context_menu) (action : menu_action)
  : list menu_call * context_menu :=
  let '(calls, menu) := acc in
  match action with
  | DocumentClick | WindowResize => (calls, hideMenu menu)
  | KeyDown key => (calls, Sidebar_handleKeyDown key menu)
  | RightClick x y conv => (calls, openContextMenu x y conv)
  | OptionsButton r b conv => (calls, openMenuFromButton r b conv)
  | RenameButton =>
      if visible menu then (calls ++ (handleRename menu).1, (handleRename menu).2)
      else acc
  | DeleteButton =>
      if visible menu then (calls ++ (handleDelete menu).1, (handleDelete menu).2)
      else acc
  end.

(** The calls made and the menu left by a sequence of actions on a sidebar
    that was just mounted. *)
Definition menu_after (actions : list menu_action) : list menu_call * context_menu :=
  foldl menu_step ([], closed_menu) actions.

(** The conversation that an action opens the menu on. *)
Definition opens_on (action : menu_action) : option conv_summary :=
  match action with
  | RightClick _ _ conv | OptionsButton _ _ conv => Some conv
  | _ => None
  end.

(** The conversation that a call is about. *)
Definition call_about (c : conv_summary) (call : menu_call) : Prop :=
  call = onRenameConversation (cs_id c) (title c) \/ call = onDeleteConversation (cs_id c).

End ContextMenu.

Arguments visible {coordinate} _.
Arguments menu_conversation {coordinate} _.
Arguments hidden {coordinate} prev.
Arguments hideMenu {coordinate} prev.
Arguments Sidebar_handleKeyDown {coordinate} key prev.
Arguments handleRename {coordinate} menu.
Arguments handleDelete {coordinate} menu.
Arguments DocumentClick {coordinate}.
Arguments WindowResize {coordinate}.
Arguments KeyDown {coordinate} key.
Arguments RightClick {coordinate} clientX clientY conv.
Arguments OptionsButton {coordinate} right bottom conv.
Arguments RenameButton {coordinate}.
Arguments DeleteButton {coordinate}.
Arguments menu_step {coordinate} plus4 acc action.
Arguments menu_after {coordinate} origin plus4 actions.
Arguments opens_on {coordinate} action.

(* ===================================================================== *)
(** * Facts about strings and blank-line framing *)
(* ===================================================================== *)

Lemma append_cons (a : ascii) (s t : string) : String a s +:+ t = String a (s +:+ t).
Proof. reflexivity. Qed.

Lemma append_nil_r (s : string) : s +:+ EmptyString = s.
Proof. induction s as [|a s IH]; [reflexivity | rewrite append_cons; f_equal; exact IH]. Qed.

Lemma append_assoc (s t u : string) : (s +:+ t) +:+ u = s +:+ (t +:+ u).
Proof. induction s as [|a s IH]; [reflexivity | rewrite !append_cons; f_equal; exact IH]. Qed.

(** Induction over a string two characters at a time, as
    [split_blank_line] recurses. *)
Lemma string_pair_ind (P : string -> Prop) :
  P EmptyString ->
  (forall a, P (String a EmptyString)) ->
  (forall a b r, P r -> P (String b r) -> P (String a (String b r))) ->
  forall s, P s.
Proof.
  intros H0 H1 H2 s.
  assert (H : P s /\ forall a, P (String a s)).
  { induction s as [|b r [IHr IHbr]].
    - split; [exact H0 | exact H1].
    - split; [apply IHbr | intros a; apply H2; [exact IHr | apply IHbr]]. }
  apply H.
Qed.

Lemma cons_head_nonempty a l : cons_head a l <> [].
Proof. destruct l; discriminate. Qed.

Lemma split_blank_line_step (a b : ascii) (r : string) :
  split_blank_line (String a (String b r)) =
  if Ascii.eqb a LF && Ascii.eqb b LF
  then EmptyString :: split_blank_line r
  else cons_head a (split_blank_line (String b r)).
Proof. reflexivity. Qed.

Lemma split_blank_line_nonempty (s : string) : split_blank_line s <> [].
Proof.
  induction s as [| a | a b r IHr IHbr] using string_pair_ind; try discriminate.
  rewrite split_blank_line_step.
  destruct (Ascii.eqb a LF && Ascii.eqb b LF); [discriminate|].
  apply cons_head_nonempty.
Qed.

(** A text without a blank line is a single piece, itself. *)
Lemma split_blank_line_single (s p : string) :
  split_blank_line s = [p] -> p = s.
Proof.
  revert p.
  induction s as [| a | a b r IHr IHbr] using string_pair_ind; intros p.
  - intros [= <-]; reflexivity.
  - intros [= <-]; reflexivity.
  - rewrite split_blank_line_step.
    destruct (Ascii.eqb a LF && Ascii.eqb b LF).
    + intros [= <- H]. exfalso. exact (split_blank_line_nonempty _ H).
    + pose proof (split_blank_line_nonempty (String b r)) as Hne.
      destruct (split_blank_line (String b r)) as [|p0 [|p1 ps]]; simpl.
      * contradiction.
      * intros [= <-]. f_equal. exact (IHbr p0 eq_refl).
      * discriminate.
Qed.

(** Joining the pieces with blank lines gives the text back. *)
Lemma join_split_blank_line (s : string) :
  join_blank_line (split_blank_line s) = s.
Proof.
  induction s as [| a | a b r IHr IHbr] using string_pair_ind; try reflexivity.
  rewrite split_blank_line_step.
  destruct (Ascii.eqb a LF && Ascii.eqb b LF) eqn:E.
  - apply andb_prop in E as [Ea Eb].
    apply Ascii.eqb_eq in Ea, Eb. subst a b.
    pose proof (split_blank_line_nonempty r) as Hne.
    destruct (split_blank_line r) as [|p ps]; [contradiction|].
    cbn [join_blank_line] in *. now rewrite IHr.
  - pose proof (split_blank_line_nonempty (String b r)) as Hne.
    destruct (split_blank_line (String b r)) as [|p ps]; [contradiction|].
    destruct ps as [|p' ps]; cbn [cons_head join_blank_line] in *.
    + now rewrite IHbr.
    + now rewrite <- IHbr.
Qed.

(** Splitting is incremental: the complete pieces of a prefix stay, and
    splitting goes on from the pending piece. *)
Lemma split_blank_line_app (s t : string) :
  split_blank_line (s +:+ t) =
  complete_chunks s ++ split_blank_line (pending_chunk s +:+ t).
Proof.
  unfold complete_chunks, pending_chunk.
  induction s as [| a | a b r IHr IHbr] using string_pair_ind.
  - reflexivity.
  - reflexivity.
  - rewrite !append_cons, !split_blank_line_step.
    destruct (Ascii.eqb a LF && Ascii.eqb b LF) eqn:E.
    + rewrite IHr.
      pose proof (split_blank_line_nonempty r) as Hne.
      destruct (split_blank_line r) as [|p ps]; [contradiction|].
      reflexivity.
    + rewrite <- append_cons, IHbr.
      pose proof (split_blank_line_nonempty (String b r)) as Hne.
      destruct (split_blank_line (String b r)) as [|p [|p' ps]] eqn:Es;
        [contradiction| |].
      * apply split_blank_line_single in Es. subst p.
        cbn. now rewrite !append_cons, split_blank_line_step, E.
      * reflexivity.
Qed.

Lemma complete_chunks_app (s t : string) :
  complete_chunks (s +:+ t) =
  complete_chunks s ++ complete_chunks (pending_chunk s +:+ t).
Proof.
  unfold complete_chunks at 1. rewrite split_blank_line_app.
  rewrite removelast_app by apply split_blank_line_nonempty. reflexivity.
Qed.

Lemma pending_chunk_app (s t : string) :
  pending_chunk (s +:+ t) = pending_chunk (pending_chunk s +:+ t).
Proof.
  unfold pending_chunk at 1. rewrite split_blank_line_app, last_app.
  pose proof (split_blank_line_nonempty (pending_chunk s +:+ t)) as Hne.
  unfold pending_chunk at 2.
  destruct (last (split_blank_line (pending_chunk s +:+ t))) eqn:E; [reflexivity|].
  apply last_None in E. contradiction.
Qed.

Lemma pending_chunk_idem (s : string) : pending_chunk (pending_chunk s) = pending_chunk s.
Proof.
  pose proof (pending_chunk_app s EmptyString) as H.
  now rewrite !append_nil_r in H.
Qed.

Lemma complete_chunks_pending (s : string) : complete_chunks (pending_chunk s) = [].
Proof.
  pose proof (complete_chunks_app s EmptyString) as H.
  rewrite !append_nil_r in H.
  destruct (complete_chunks (pending_chunk s)); [reflexivity|].
  apply (f_equal (@length _)) in H. rewrite length_app in H. simpl in H. lia.
Qed.

(** The pending piece holds no blank line. *)
Lemma split_pending_chunk (s : string) :
  split_blank_line (pending_chunk s) = [pending_chunk s].
Proof.
  pose proof (split_blank_line_nonempty (pending_chunk s)) as Hne.
  rewrite (app_removelast_last EmptyString Hne) at 1.
  fold (complete_chunks (pending_chunk s)). rewrite complete_chunks_pending.
  pose proof (pending_chunk_idem s) as Hi. unfold pending_chunk at 1 in Hi.
  destruct (split_blank_line (pending_chunk s)) as [|p ps] eqn:E; [contradiction|].
  rewrite <- Hi. clear Hi Hne E.
  revert p; induction ps as [|p' ps IH]; intros p; [reflexivity|].
  cbn [List.last]. rewrite last_cons_cons. apply IH.
Qed.

(* ===================================================================== *)
(** * Facts about the stream reader *)
(* ===================================================================== *)

Section StreamFacts.

Context {St : Type}.
Variable JSON_parse : string -> option js_value.
Variable onEvent : js_value -> js_value -> St -> St.
Variable console_error : string -> St -> St.

Lemma handle_chunk_effect (st : St) (evt : string) :
  handle_chunk JSON_parse onEvent console_error st evt =
  match effect_of_chunk JSON_parse evt with
  | Some e => run_effect onEvent console_error st e
  | None => st
  end.
Proof.
  unfold handle_chunk, effect_of_chunk.
  destruct (startsWith (trim evt) "data: "); cbn [negb]; [|reflexivity].
  destruct (JSON_parse (slice_from 6 (trim evt))) as [event|]; [|reflexivity].
  destruct (get_prop event "type"); reflexivity.
Qed.

Lemma foldl_handle_chunk (evts : list string) (st : St) :
  foldl (handle_chunk JSON_parse onEvent console_error) st evts =
  foldl (run_effect onEvent console_error) st (omap (effect_of_chunk JSON_parse) evts).
Proof.
  revert st; induction evts as [|evt evts IH]; intros st; [reflexivity|].
  cbn [foldl omap list_omap]. rewrite IH, handle_chunk_effect.
  destruct (effect_of_chunk JSON_parse evt); reflexivity.
Qed.

(** The loop hands the callback the complete chunks of the whole text, however
    the reads cut it. *)
Lemma read_loop_spec (chunks : list string) (buffer : string) (st : St) :
  split_blank_line buffer = [buffer] ->
  read_loop JSON_parse onEvent console_error buffer chunks st =
  (foldl (handle_chunk JSON_parse onEvent console_error) st
     (complete_chunks (buffer +:+ concat_text chunks)),
   pending_chunk (buffer +:+ concat_text chunks)).
Proof.
  revert buffer st; induction chunks as [|value rest IH]; intros buffer st Hb.
  - cbn [read_loop concat_text fold_right]. rewrite append_nil_r.
    unfold complete_chunks, pending_chunk. now rewrite Hb.
  - cbn [read_loop concat_text fold_right].
    fold (concat_text rest).
    fold (pending_chunk (buffer +:+ value)).
    fold (complete_chunks (buffer +:+ value)).
    rewrite IH by apply split_pending_chunk.
    rewrite <- append_assoc.
    rewrite (complete_chunks_app (buffer +:+ value) (concat_text rest)), foldl_app.
    rewrite (pending_chunk_app (buffer +:+ value) (concat_text rest)).
    reflexivity.
Qed.

Lemma sendMessageStream_stream (chunks : list string) (failure : option js_error) (st : St) :
  sendMessageStream JSON_parse onEvent console_error (HttpStream chunks failure) st =
  (foldl (run_effect onEvent console_error) st
     (omap (effect_of_chunk JSON_parse) (complete_chunks (concat_text chunks))),
   match failure with
   | None => Returned (pending_chunk (concat_text chunks))
   | Some e => Thrown e
   end).
Proof.
  unfold sendMessageStream.
  rewrite read_loop_spec by reflexivity.
  rewrite foldl_handle_chunk. reflexivity.
Qed.

End StreamFacts.

Lemma foldl_record_call (JSON_parse : string -> option js_value) (evts : list string)
  (log : list (js_value * js_value)) :
  foldl (run_effect record_call no_console) log (omap (effect_of_chunk JSON_parse) evts) =
  log ++ omap (delivery JSON_parse) evts.
Proof.
  revert log; induction evts as [|evt evts IH]; intros log; cbn [omap list_omap].
  - cbn. now rewrite app_nil_r.
  - unfold delivery at 1.
    destruct (effect_of_chunk JSON_parse evt) as [[ty event|data]|]; cbn [foldl run_effect].
    + rewrite IH. unfold record_call. now rewrite <- app_assoc.
    + apply IH.
    + apply IH.
Qed.

Lemma delivery_iff (JSON_parse : string -> option js_value) (evt : string)
  (ty event : js_value) :
  delivery JSON_parse evt = Some (ty, event) <->
  startsWith (trim evt) "data: " = true /\
  JSON_parse (slice_from 6 (trim evt)) = Some event /\
  event <> JSNull /\ event <> JSUndefined /\
  get_prop event "type" = Some ty.
Proof.
  unfold delivery, effect_of_chunk. split.
  - destruct (startsWith (trim evt) "data: "); [|discriminate].
    destruct (JSON_parse (slice_from 6 (trim evt))) as [ev|]; [|discriminate].
    destruct (get_prop ev "type") as [t|] eqn:E; [|discriminate].
    intros [= <- <-]. repeat split; try assumption; intros ->; discriminate.
  - intros (-> & -> & _ & _ & ->). reflexivity.
Qed.

Lemma read_loop_bytes_decoded {St Decoder : Type}
  (TextDecoder_decode : Decoder -> list Byte.byte -> Decoder * string)
  (JSON_parse : string -> option js_value)
  (onEvent : js_value -> js_value -> St -> St) (console_error : string -> St -> St)
  (values : list (list Byte.byte)) (decoder : Decoder) (buffer : string) (st : St) :
  read_loop_bytes TextDecoder_decode JSON_parse onEvent console_error decoder buffer values st
  = read_loop JSON_parse onEvent console_error buffer
      (decode_reads TextDecoder_decode decoder values) st.
Proof.
  revert decoder buffer st.
  induction values as [|value rest IH]; intros decoder buffer st; [reflexivity|].
  cbn [read_loop_bytes decode_reads].
  destruct (TextDecoder_decode decoder value) as [decoder' text].
  cbn [read_loop]. apply IH.
Qed.

Lemma sendMessageStream_bytes_decoded {St Decoder : Type}
  (TextDecoder_decode : Decoder -> list Byte.byte -> Decoder * string)
  (JSON_parse : string -> option js_value)
  (onEvent : js_value -> js_value -> St -> St) (console_error : string -> St -> St)
  (decoder : Decoder) (values : list (list Byte.byte)) (failure : option js_error)
  (st : St) :
  sendMessageStream_bytes TextDecoder_decode JSON_parse onEvent console_error
    decoder values failure st
  = sendMessageStream JSON_parse onEvent console_error
      (HttpStream (decode_reads TextDecoder_decode decoder values) failure) st.
Proof.
  unfold sendMessageStream_bytes, sendMessageStream.
  now rewrite read_loop_bytes_decoded.
Qed.

Lemma foldl_record_effects (effects log : list chunk_effect) :
  foldl (run_effect record_delivery record_report) log effects = log ++ effects.
Proof.
  revert log; induction effects as [|e effects IH]; intros log.
  - cbn. now rewrite app_nil_r.
  - cbn [foldl]. rewrite IH. destruct e; cbn [run_effect];
      unfold record_delivery, record_report; now rewrite <- app_assoc.
Qed.

Lemma foldl_apply_call {St : Type} (onEvent : js_value -> js_value -> St -> St)
  (effects : list chunk_effect) (st : St) :
  foldl (run_effect onEvent no_console) st effects
  = foldl (apply_call onEvent) st (omap delivered_call effects).
Proof.
  revert st; induction effects as [|e effects IH]; intros st; [reflexivity|].
  cbn [omap list_omap foldl]. destruct e; cbn [delivered_call run_effect foldl]; apply IH.
Qed.

Lemma delivered_call_effect (JSON_parse : string -> option js_value) (evts : list string) :
  omap delivered_call (omap (effect_of_chunk JSON_parse) evts)
  = omap (delivery JSON_parse) evts.
Proof.
  induction evts as [|evt evts IH]; [reflexivity|].
  cbn [omap list_omap]. unfold delivery at 1.
  destruct (effect_of_chunk JSON_parse evt) as [[ty event|data]|];
    cbn [omap list_omap delivered_call]; now rewrite IH.
Qed.

Lemma get_prop_None (v : js_value) (k : string) :
  get_prop v k = None <-> v = JSNull \/ v = JSUndefined.
Proof.
  destruct v; cbn; split; try discriminate; try tauto;
    intros [H|H]; discriminate.
Qed.

Lemma report_iff (JSON_parse : string -> option js_value) (evt data : string) :
  effect_of_chunk JSON_parse evt = Some (Report data) <->
  startsWith (trim evt) "data: " = true /\
  data = slice_from 6 (trim evt) /\
  (JSON_parse data = None \/ JSON_parse data = Some JSNull
   \/ JSON_parse data = Some JSUndefined).
Proof.
  unfold effect_of_chunk. split.
  - destruct (startsWith (trim evt) "data: "); [|discriminate].
    destruct (JSON_parse (slice_from 6 (trim evt))) as [ev|] eqn:Ep.
    + destruct (get_prop ev "type") as [t|] eqn:E; [discriminate|].
      intros H.
      assert (Hd : slice_from 6 (trim evt) = data) by congruence.
      rewrite <- Hd. split; [reflexivity|]. split; [reflexivity|].
      apply get_prop_None in E as [-> | ->]; rewrite Ep; tauto.
    + intros H.
      assert (Hd : slice_from 6 (trim evt) = data) by congruence.
      rewrite <- Hd, Ep. tauto.
  - intros (-> & -> & [-> | [-> | ->]]); reflexivity.
Qed.

(* ===================================================================== *)
(** * The stream reader delivers the complete chunks *)
(* ===================================================================== *)

(** C1, as the code has it, for every sequence of byte reads and every
    decoder; the text is what the decoder makes of the reads, in order.
    However the reads cut the bytes, the callback is invoked once for every
    complete chunk (a piece of the text that a blank line ends) whose trimmed
    content starts with [data: ] and whose remainder parses as JSON to a value
    other than [null], in stream order and with the arguments
    [(event.type, event)]; every other complete chunk that starts with
    [data: ] (its remainder does not parse, or parses to [null]) is reported
    once to [console.error], with the remainder, and skipped, and the chunks
    after it are still handled; a complete chunk that does not start with
    [data: ] has no effect; the piece after the last blank line is the buffer
    that the function ends with, and it is not delivered.  The effects on the
    callback and on the console come in the order of the chunks, whatever the
    callback and the console do. *)
Theorem sendMessageStream_delivers_complete_chunks :
  forall (Decoder : Type)
         (TextDecoder_decode : Decoder -> list Byte.byte -> Decoder * string)
         (decoder : Decoder) (values : list (list Byte.byte))
         (JSON_parse : string -> option js_value),
    let text := concat_text (decode_reads TextDecoder_decode decoder values) in
    let effects := omap (effect_of_chunk JSON_parse) (complete_chunks text) in
    let calls := omap (delivery JSON_parse) (complete_chunks text) in
    (forall failure,
        (sendMessageStream_bytes TextDecoder_decode JSON_parse
           record_delivery record_report decoder values failure []).1 = effects)
    /\ (forall (St : Type) (onEvent : js_value -> js_value -> St -> St)
               (console_error : string -> St -> St) (st : St) failure,
          (sendMessageStream_bytes TextDecoder_decode JSON_parse
             onEvent console_error decoder values failure st).1
          = foldl (run_effect onEvent console_error) st effects)
    /\ calls = omap delivered_call effects
    /\ (forall failure,
          (sendMessageStream_bytes TextDecoder_decode JSON_parse
             record_call no_console decoder values failure []).1 = calls)
    /\ (forall (St : Type) (onEvent : js_value -> js_value -> St -> St) (st : St) failure,
          (sendMessageStream_bytes TextDecoder_decode JSON_parse
             onEvent no_console decoder values failure st).1
          = foldl (apply_call onEvent) st calls)
    /\ (forall (St : Type) (onEvent : js_value -> js_value -> St -> St)
               (console_error : string -> St -> St) (st : St),
          (sendMessageStream_bytes TextDecoder_decode JSON_parse
             onEvent console_error decoder values None st).2
          = Returned (pending_chunk text))
    /\ join_blank_line (complete_chunks text ++ [pending_chunk text]) = text
    /\ (forall evt ty event,
          delivery JSON_parse evt = Some (ty, event) <->
          startsWith (trim evt) "data: " = true /\
          JSON_parse (slice_from 6 (trim evt)) = Some event /\
          event <> JSNull /\ event <> JSUndefined /\
          get_prop event "type" = Some ty)
    /\ (forall evt ty event,
          effect_of_chunk JSON_parse evt = Some (Deliver ty event) <->
          startsWith (trim evt) "data: " = true /\
          JSON_parse (slice_from 6 (trim evt)) = Some event /\
          event <> JSNull /\ event <> JSUndefined /\
          get_prop event "type" = Some ty)
    /\ (forall evt data,
          effect_of_chunk JSON_parse evt = Some (Report data) <->
          startsWith (trim evt) "data: " = true /\
          data = slice_from 6 (trim evt) /\
          (JSON_parse data = None \/ JSON_parse data = Some JSNull
           \/ JSON_parse data = Some JSUndefined))
    /\ (forall evt,
          effect_of_chunk JSON_parse evt = None <->
          startsWith (trim evt) "data: " = false).
Proof.
  intros Decoder TextDecoder_decode decoder values JSON_parse text effects calls.
  assert (Hcalls : calls = omap delivered_call effects)
    by (subst calls effects; now rewrite delivered_call_effect).
  assert (Hrun : forall (St : Type) (onEvent : js_value -> js_value -> St -> St)
                        (console_error : string -> St -> St) (st : St) failure,
             sendMessageStream_bytes TextDecoder_decode JSON_parse
               onEvent console_error decoder values failure st
             = (foldl (run_effect onEvent console_error) st effects,
                match failure with
                | None => Returned (pending_chunk text)
                | Some e => Thrown e
                end)).
  { intros St onEvent console_error st failure.
    rewrite sendMessageStream_bytes_decoded. apply sendMessageStream_stream. }
  repeat match goal with |- _ /\ _ => split end.
  - intros failure. rewrite Hrun. cbn [fst]. apply foldl_record_effects.
  - intros St onEvent console_error st failure. now rewrite Hrun.
  - exact Hcalls.
  - intros failure. rewrite Hrun. cbn [fst]. apply foldl_record_call.
  - intros St onEvent st failure. rewrite Hrun, Hcalls. cbn [fst].
    apply foldl_apply_call.
  - intros St onEvent console_error st. now rewrite Hrun.
  - unfold complete_chunks, pending_chunk.
    pose proof (split_blank_line_nonempty text) as Hne.
    rewrite <- (join_split_blank_line text) at 3.
    rewrite (app_removelast_last EmptyString Hne) at 3.
    do 2 f_equal.
    destruct (split_blank_line text) as [|p ps]; [contradiction|].
    clear. revert p. induction ps as [|p' ps IH]; intros p; [reflexivity|].
    rewrite last_cons_cons. cbn [List.last]. apply IH.
  - intros evt ty event. apply delivery_iff.
  - intros evt ty event. rewrite <- delivery_iff. unfold delivery.
    destruct (effect_of_chunk JSON_parse evt) as [[ty' event'|data]|];
      split; intros H; try discriminate; now inversion H.
  - intros evt data. apply report_iff.
  - intros evt. unfold effect_of_chunk.
    destruct (startsWith (trim evt) "data: "); [|tauto].
    destruct (JSON_parse (slice_from 6 (trim evt))) as [ev|];
      [destruct (get_prop ev "type")|]; split; discriminate.
Qed.

(** C1, as the claim has it, fails on the chunk [data: null]: the chunk is
    complete, starts with [data: ] and its remainder parses as JSON, so the
    claim counts one invocation, but reading [type] off [null] throws inside
    the [try] block and the callback is never invoked. *)
Lemma sendMessageStream_skips_null_payload :
  let body := ["data: null" +:+ blank_line] in
  complete_chunks (concat_text body) = ["data: null"]
  /\ length (filter (fun evt => parses_as_event Json.parse evt = true)
               (complete_chunks (concat_text body))) = 1
  /\ (sendMessageStream Json.parse record_call no_console (HttpStream body None) []).1 = [].
Proof. vm_compute. repeat split; reflexivity. Qed.

(** A parse failure does not stop the chunks after it. *)
Example sendMessageStream_goes_on_after_bad_chunk :
  (sendMessageStream Json.parse record_call no_console
     (HttpStream ["data: {oops" +:+ blank_line +:+ "data: nu";
                  "ll" +:+ blank_line +:+ sse_event "complete" +:+ "data: {"] None) []).1
  = [(JSStr "complete", JSObj [("type", JSStr "complete")])].
Proof. vm_compute. reflexivity. Qed.

(** Two reads that cut the body between the two line feeds of a blank line:
    the chunk [data: null] is reported, the event after it is delivered, and
    the piece after the last blank line stays in the buffer. *)
Example sendMessageStream_bytes_cut_reads :
  let body :=
    list_byte_of_string
      ("data: null" +:+ blank_line +:+ sse_event "complete" +:+ "data: {") in
  sendMessageStream_bytes ascii_decode Json.parse record_delivery record_report
    tt [take 11 body; drop 11 body] None []
  = ([Report "null"; Deliver (JSStr "complete") (JSObj [("type", JSStr "complete")])],
     Returned "data: {").
Proof. vm_compute. reflexivity. Qed.

(* ===================================================================== *)
(** * The event dispatcher of handleSendMessage *)
(* ===================================================================== *)

Lemma conversation_eta (conv : conversation) :
  {| conv_id := conv_id conv;
     conv_title := conv_title conv;
     conv_props := conv_props conv;
     messages := messages conv |} = conv.
Proof. destruct conv; reflexivity. Qed.

(** A stage updater on a conversation whose last message is in progress
    writes that message and nothing else. *)
Lemma update_last_in_progress (write : chat_message -> option chat_message)
  (st : app_state) conv a m l m' :
  in_progress st conv a m l ->
  write m = Some m' ->
  setCurrentConversation (update_last write) st
  = Some (set_store (<[a := m']> (store st)) st).
Proof.
  intros (Hc & Hlast & Hm & _) Hw.
  unfold setCurrentConversation, update_last.
  rewrite Hc, Hlast, Hm, Hw, conversation_eta.
  unfold set_currentConversation, set_store; cbn. now rewrite Hc.
Qed.

Lemma write_loading_Some (f : loading_flags -> loading_flags) (m : chat_message) l :
  loading m = Some l -> write_loading f m = Some (with_loading (f l) m).
Proof. intros H. unfold write_loading. now rewrite H. Qed.

Lemma case_of_handled (t : string) :
  t ∈ handled_types -> case_of (JSStr t) <> unknown_event.
Proof.
  unfold handled_types. rewrite !elem_of_cons, elem_of_nil.
  intros H; repeat (destruct H as [->|H]; [cbv; discriminate|]); contradiction.
Qed.

Lemma case_of_unknown_iff (eventType : js_value) :
  case_of eventType = unknown_event <->
  forall t, t ∈ handled_types -> eventType <> JSStr t.
Proof.
  split.
  - intros Hc t Ht ->. exact (case_of_handled t Ht Hc).
  - intros H. destruct eventType as [| | | |s| |]; try reflexivity.
    cbn [case_of].
    assert (Hne : forall t, t ∈ handled_types -> String.eqb s t = false).
    { intros t Ht. destruct (String.eqb_spec s t) as [->|_]; [|reflexivity].
      now destruct (H t Ht). }
    rewrite !Hne by (unfold handled_types; repeat constructor).
    reflexivity.
Qed.

(** What the dispatcher does in each of its cases, on a conversation whose
    last message is in progress. *)
Lemma dispatch_in_progress :
  forall (st : app_state) (conv : conversation) (a : address) (m : chat_message)
         (l : loading_flags) (eventType event : js_value),
    in_progress st conv a m l ->
    let last_becomes (m' : chat_message) :=
      Some (set_store (<[a := m']> (store st)) st) in
    match case_of eventType with
       | stage1_start =>
           dispatch eventType event st
           = last_becomes (with_loading (loading_stage1 true l) m)
       | stage1_complete =>
           dispatch eventType event st
           = last_becomes (with_loading (loading_stage1 false l)
                             (write_stage1 (prop event "data") m))
       | stage2_start =>
           dispatch eventType event st
           = last_becomes (with_loading (loading_stage2 true l) m)
       | stage2_complete =>
           dispatch eventType event st
           = last_becomes (with_loading (loading_stage2 false l)
                             (write_metadata (prop event "metadata")
                                (write_stage2 (prop event "data") m)))
       | stage3_start =>
           dispatch eventType event st
           = last_becomes (with_loading (loading_stage3 true l) m)
       | stage3_complete =>
           dispatch eventType event st
           = last_becomes (with_loading (loading_stage3 false l)
                             (write_stage3 (prop event "data") m))
       | title_complete =>
           dispatch eventType event st = Some (perform LoadConversations st)
       | complete =>
           dispatch eventType event st
           = Some (setIsLoading false (perform LoadConversations st))
       | error =>
           dispatch eventType event st
           = Some (setIsLoading false
                     (setSendError
                        (if truthy (prop event "message")
                         then prop event "message"
                         else JSStr "Failed to send message. Check API key in Settings.")
                        (perform (ConsoleError "Stream error:" (prop event "message")) st)))
       | unknown_event =>
           dispatch eventType event st
           = Some (perform (ConsoleLog "Unknown event type:" eventType) st)
       end.
Proof.
  intros st conv a m l eventType event Hp last_becomes.
  unfold dispatch, last_becomes.
  destruct (case_of eventType); try reflexivity;
    apply (update_last_in_progress _ st conv a m l _ Hp);
    apply write_loading_Some; apply Hp.
Qed.

(** C2, as the code has it.  On a conversation whose last message is the
    assistant message in progress, the dispatcher tells apart exactly the nine
    event types of the interface table, and: each [stageN_start] sets that
    stage's loading flag on the last message; each [stageN_complete] stores
    [event.data] on it (and [stage2_complete] the metadata too) and clears the
    flag; [title_complete] asks for the conversation list again; [complete]
    does so too and clears the overall loading state; [error] clears it as
    well and shows [event.message] when that is truthy, and the fixed text
    [Failed to send message. Check API key in Settings.] when it is not. *)
Theorem dispatch_performs_documented_update :
  forall (st : app_state) (conv : conversation) (a : address) (m : chat_message)
         (l : loading_flags) (eventType event : js_value),
    in_progress st conv a m l ->
    let last_becomes (m' : chat_message) :=
      Some (set_store (<[a := m']> (store st)) st) in
    map (fun t => case_of (JSStr t)) handled_types
    = [stage1_start; stage1_complete; stage2_start; stage2_complete;
       stage3_start; stage3_complete; title_complete; complete; error]
    /\ (case_of eventType = unknown_event <->
        forall t, t ∈ handled_types -> eventType <> JSStr t)
    /\ match case_of eventType with
       | stage1_start =>
           dispatch eventType event st
           = last_becomes (with_loading (loading_stage1 true l) m)
       | stage1_complete =>
           dispatch eventType event st
           = last_becomes (with_loading (loading_stage1 false l)
                             (write_stage1 (prop event "data") m))
       | stage2_start =>
           dispatch eventType event st
           = last_becomes (with_loading (loading_stage2 true l) m)
       | stage2_complete =>
           dispatch eventType event st
           = last_becomes (with_loading (loading_stage2 false l)
                             (write_metadata (prop event "metadata")
                                (write_stage2 (prop event "data") m)))
       | stage3_start =>
           dispatch eventType event st
           = last_becomes (with_loading (loading_stage3 true l) m)
       | stage3_complete =>
           dispatch eventType event st
           = last_becomes (with_loading (loading_stage3 false l)
                             (write_stage3 (prop event "data") m))
       | title_complete =>
           dispatch eventType event st = Some (perform LoadConversations st)
       | complete =>
           dispatch eventType event st
           = Some (setIsLoading false (perform LoadConversations st))
       | error =>
           dispatch eventType event st
           = Some (setIsLoading false
                     (setSendError
                        (if truthy (prop event "message")
                         then prop event "message"
                         else JSStr "Failed to send message. Check API key in Settings.")
                        (perform (ConsoleError "Stream error:" (prop event "message")) st)))
       | unknown_event =>
           dispatch eventType event st
           = Some (perform (ConsoleLog "Unknown event type:" eventType) st)
       end.
Proof.
  intros st conv a m l eventType event Hp last_becomes.
  split; [reflexivity|]. split; [apply case_of_unknown_iff|].
  exact (dispatch_in_progress st conv a m l eventType event Hp).
Qed.

Lemma dispatch_update_witness :
  dispatch (JSStr "stage1_complete")
    (JSObj [("type", JSStr "stage1_complete"); ("data", JSArr [JSStr "answer"])])
    sample_state
  = Some (set_store
            (<[1 := with_loading {| ld_stage1 := false; ld_stage2 := false; ld_stage3 := false |}
                      (write_stage1 (JSArr [JSStr "answer"])
                         (with_loading {| ld_stage1 := true; ld_stage2 := false; ld_stage3 := false |}
                            assistantMessage))]>
               (store sample_state))
            sample_state).
Proof.
  refine (proj2 (proj2
    (dispatch_performs_documented_update sample_state
       {| conv_id := "c1"; conv_title := JSStr "New Conversation";
          conv_props := []; messages := [0; 1] |}
       1
       (with_loading {| ld_stage1 := true; ld_stage2 := false; ld_stage3 := false |}
          assistantMessage)
       {| ld_stage1 := true; ld_stage2 := false; ld_stage3 := false |}
       (JSStr "stage1_complete")
       (JSObj [("type", JSStr "stage1_complete"); ("data", JSArr [JSStr "answer"])])
       _))).
  repeat split; reflexivity.
Defined.

(** C2, as the claim has it, fails on an [error] event that carries no
    message: what is shown is the fixed text, which is not [event.message]. *)
Lemma error_event_without_message :
  let chunk := sse_event "error" in
  let event := JSObj [("type", JSStr "error")] in
  (sendMessageStream Json.parse record_call no_console (HttpStream [chunk] None) []).1
  = [(JSStr "error", event)]
  /\ prop event "message" = JSUndefined
  /\ (sendError <$> dispatch (JSStr "error") event sample_state)
     = Some (JSStr "Failed to send message. Check API key in Settings.")
  /\ (sendError <$> dispatch (JSStr "error") event sample_state)
     <> Some (prop event "message").
Proof. vm_compute. repeat split; try reflexivity. discriminate. Qed.

(** C10.  An event whose type is none of the nine leaves the state as it is:
    the open conversation and its messages, the loading flag and the send
    error keep their values; the dispatcher only logs the type. *)
Theorem unknown_event_changes_nothing :
  forall (st : app_state) (eventType event : js_value),
    (forall t, t ∈ handled_types -> eventType <> JSStr t) ->
    exists st',
      dispatch eventType event st = Some st'
      /\ currentConversation st' = currentConversation st
      /\ store st' = store st
      /\ isLoading st' = isLoading st
      /\ sendError st' = sendError st
      /\ conversations st' = conversations st
      /\ currentConversationId st' = currentConversationId st
      /\ effects st' = effects st ++ [ConsoleLog "Unknown event type:" eventType].
Proof.
  intros st eventType event H.
  apply case_of_unknown_iff in H.
  exists (perform (ConsoleLog "Unknown event type:" eventType) st).
  unfold dispatch. rewrite H. repeat split.
Qed.

Lemma unknown_event_witness :
  exists st',
    dispatch (JSStr "heartbeat") (JSObj [("type", JSStr "heartbeat")]) sample_state = Some st'
    /\ currentConversation st' = currentConversation sample_state
    /\ store st' = store sample_state
    /\ isLoading st' = isLoading sample_state
    /\ sendError st' = sendError sample_state
    /\ conversations st' = conversations sample_state
    /\ currentConversationId st' = currentConversationId sample_state
    /\ effects st' = effects sample_state ++ [ConsoleLog "Unknown event type:" (JSStr "heartbeat")].
Proof.
  apply (unknown_event_changes_nothing sample_state (JSStr "heartbeat")
           (JSObj [("type", JSStr "heartbeat")])).
  intros t Ht. unfold handled_types in Ht.
  repeat (apply elem_of_cons in Ht as [->|Ht]; [discriminate|]).
  now apply elem_of_nil in Ht.
Defined.

(** C7.  On [stage2_complete] the last message of the open conversation gets
    [event.data] as its rankings and [event.metadata] as its metadata, which
    is where the Stage 2 view reads [label_to_model] and [aggregate_rankings];
    and each of the six stage events writes to that last message only: the
    conversation object and its list of messages, every earlier message, and
    the rest of the state are as before. *)
Theorem stage_events_write_only_last_message :
  forall (st : app_state) (conv : conversation) (earlier : list address)
         (a : address) (m : chat_message) (l : loading_flags)
         (eventType event : js_value),
    in_progress st conv a m l ->
    messages conv = earlier ++ [a] ->
    a ∉ earlier ->
    is_stage_case (case_of eventType) = true ->
    exists st' m',
      dispatch eventType event st = Some st'
      /\ store st' !! a = Some m'
      /\ (case_of eventType = stage2_complete ->
          stage2 m' = prop event "data"
          /\ metadata m' = prop event "metadata"
          /\ (truthy (prop event "data") = true ->
              Stage2_props m'
              = Some {| view_rankings := prop event "data";
                        view_labelToModel :=
                          prop (prop event "metadata") "label_to_model";
                        view_aggregateRankings :=
                          prop (prop event "metadata") "aggregate_rankings" |}))
      /\ currentConversation st' = Some conv
      /\ (forall a', a' ∈ earlier -> store st' !! a' = store st !! a')
      /\ (forall a', a' <> a -> store st' !! a' = store st !! a')
      /\ length (store st') = length (store st)
      /\ role m' = role m /\ content m' = content m
      /\ conversations st' = conversations st
      /\ currentConversationId st' = currentConversationId st
      /\ isLoading st' = isLoading st
      /\ sendError st' = sendError st
      /\ effects st' = effects st.
Proof.
  intros st conv earlier a m l eventType event Hp Hmsgs Hfresh Hstage.
  pose proof (dispatch_in_progress st conv a m l eventType event Hp) as Hd.
  assert (Hlt : a < length (store st)).
  { destruct Hp as (_ & _ & Hm & _). now apply lookup_lt_Some in Hm. }
  assert (Hc : currentConversation st = Some conv) by apply Hp.
  assert (Hframe : forall m' a', a' <> a ->
            <[a := m']> (store st) !! a' = store st !! a').
  { intros m' a' Hne. now apply list_lookup_insert_ne. }
  assert (Hearlier : forall a', a' ∈ earlier -> a' <> a).
  { intros a' Hin ->. contradiction. }
  destruct (case_of eventType) eqn:Hcase; try discriminate Hstage;
    (eexists; eexists; split; [exact Hd|]);
    cbn [store set_store currentConversation conversations currentConversationId
           isLoading sendError effects];
    (split; [now apply list_lookup_insert_eq|]);
    (split; [intros Hc2; try discriminate Hc2|]);
    try (split; [reflexivity|split; [reflexivity|]];
         intros Ht; unfold Stage2_props; cbn [stage2 metadata with_loading
           write_metadata write_stage2]; now rewrite Ht);
    repeat split; auto using length_insert.
Qed.

Lemma stage_events_witness :
  exists st' m',
    dispatch (JSStr "stage2_complete")
      (JSObj [("type", JSStr "stage2_complete");
              ("data", JSArr [JSStr "ranking"]);
              ("metadata", JSObj [("label_to_model", JSObj [("Response A", JSStr "m1")]);
                                  ("aggregate_rankings", JSArr [])])])
      sample_state = Some st'
    /\ store st' !! 1 = Some m'
    /\ stage2 m' = JSArr [JSStr "ranking"]
    /\ prop (metadata m') "label_to_model" = JSObj [("Response A", JSStr "m1")]
    /\ store st' !! 0 = store sample_state !! 0
    /\ currentConversation st' = currentConversation sample_state.
Proof.
  destruct (stage_events_write_only_last_message sample_state
              {| conv_id := "c1"; conv_title := JSStr "New Conversation";
                 conv_props := []; messages := [0; 1] |}
              [0] 1
              (with_loading {| ld_stage1 := true; ld_stage2 := false; ld_stage3 := false |}
                 assistantMessage)
              {| ld_stage1 := true; ld_stage2 := false; ld_stage3 := false |}
              (JSStr "stage2_complete")
              (JSObj [("type", JSStr "stage2_complete");
                      ("data", JSArr [JSStr "ranking"]);
                      ("metadata", JSObj [("label_to_model", JSObj [("Response A", JSStr "m1")]);
                                          ("aggregate_rankings", JSArr [])])]))
    as (st' & m' & Hd & Hm & H2 & Hc & He & _).
  - repeat split; reflexivity.
  - reflexivity.
  - intros H. apply list_elem_of_singleton in H. discriminate.
  - reflexivity.
  - exists st', m'. destruct (H2 eq_refl) as (Hs & Hmeta & _).
    repeat split; try assumption.
    + now rewrite Hmeta.
    + apply He. now apply list_elem_of_singleton.
Defined.

(* ===================================================================== *)
(** * A run of handleSendMessage *)
(* ===================================================================== *)

Lemma store_after_appends (h : list chat_message) (u p : chat_message) :
  length ((h ++ [u]) ++ [p]) = S (S (length h))
  /\ ((h ++ [u]) ++ [p]) !! S (length h) = Some p
  /\ (forall a, a < length h -> ((h ++ [u]) ++ [p]) !! a = h !! a)
  /\ length (h ++ [u]) = S (length h).
Proof.
  repeat split.
  - rewrite !length_app; cbn; lia.
  - rewrite <- app_assoc. rewrite lookup_app_r by lia.
    replace (S (length h) - length h) with 1 by lia. reflexivity.
  - intros a Ha. rewrite <- app_assoc. now apply lookup_app_l.
  - rewrite length_app; cbn; lia.
Qed.

Lemma begin_send_placeholder (Date_getTime : js_value -> option Z) (now : string)
  (currentId content : string) (st : app_state) :
  exists st1,
    begin_send Date_getTime now currentId content st = Some st1
    /\ placeholder_last (store st) (open_messages st) st1
    /\ isLoading st1 = true
    /\ sendError st1 = JSStr "".
Proof.
  unfold begin_send, setCurrentConversation, ensure_conversation, append_message,
    open_messages.
  destruct st as [h convs cid [conv|] ld err eff]; cbn -[markConversationInteracted].
  all: eexists; split; [reflexivity|]; split; [|split; reflexivity].
  all: eexists _, assistantMessage, _; cbn.
  all: destruct (store_after_appends h (userMessage content) assistantMessage)
         as (H1 & H2 & H3 & H4).
  all: rewrite H4; repeat split; try assumption.
  now rewrite <- app_assoc.
Qed.

Lemma Earlier_begin_send_placeholder (currentId content : string) (st : app_state) :
  exists st1,
    Earlier_begin_send currentId content st = Some st1
    /\ placeholder_last (store st) (open_messages st) st1
    /\ isLoading st1 = true
    /\ sendError st1 = JSStr "".
Proof.
  unfold Earlier_begin_send, setCurrentConversation, ensure_conversation, append_message,
    open_messages.
  destruct st as [h convs cid [conv|] ld err eff]; cbn.
  all: eexists; split; [reflexivity|]; split; [|split; reflexivity].
  all: eexists _, assistantMessage, _; cbn.
  all: destruct (store_after_appends h (userMessage content) assistantMessage)
         as (H1 & H2 & H3 & H4).
  all: rewrite H4; repeat split; try assumption.
  now rewrite <- app_assoc.
Qed.

Lemma placeholder_in_progress (store0 : list chat_message) (old : list address)
  (st : app_state) :
  placeholder_last store0 old st ->
  exists conv m l, in_progress st conv (S (length store0)) m l.
Proof.
  intros (conv & m & l & Hc & Hm & Hlen & Hlk & Hl & Hframe).
  exists conv, m, l. repeat split; try assumption.
  rewrite Hm, last_app. reflexivity.
Qed.

(** Every event keeps the run in that state: no updater throws, and the
    messages of before the send are not written to. *)
Lemma dispatch_keeps_placeholder (store0 : list chat_message) (old : list address)
  (st : app_state) (eventType event : js_value) :
  placeholder_last store0 old st ->
  exists st', dispatch eventType event st = Some st'
              /\ placeholder_last store0 old st'.
Proof.
  intros Hp.
  destruct (placeholder_in_progress _ _ _ Hp) as (conv & m & l & Hin).
  pose proof (dispatch_in_progress st conv _ m l eventType event Hin) as Hd.
  destruct Hp as (conv' & m0 & l0 & Hc & Hm & Hlen & Hlk & Hl & Hframe).
  assert (Hkeep : forall m', loading m' <> None ->
            placeholder_last store0 old
              (set_store (<[S (length store0) := m']> (store st)) st)).
  { intros m' Hm'. destruct (loading m') as [l'|] eqn:El; [|contradiction].
    exists conv', m', l'. cbn. repeat split; try assumption.
    - now rewrite length_insert.
    - apply list_lookup_insert_eq. lia.
    - intros a Ha. rewrite list_lookup_insert_ne by lia. now apply Hframe. }
  assert (Hsame : forall st', currentConversation st' = currentConversation st ->
            store st' = store st -> placeholder_last store0 old st').
  { intros st' E1 E2. exists conv', m0, l0. rewrite E1, E2. repeat split; assumption. }
  destruct (case_of eventType); (eexists; split; [exact Hd|]);
    try (apply Hkeep; discriminate); apply Hsame; reflexivity.
Qed.

Lemma reader_console_keeps_placeholder (store0 : list chat_message) (old : list address)
  (st : app_state) (data : string) :
  placeholder_last store0 old st ->
  exists st', reader_console data (Some st) = Some st'
              /\ placeholder_last store0 old st'.
Proof.
  intros (conv & m & l & H). eexists; split; [reflexivity|].
  exists conv, m, l. exact H.
Qed.

Lemma effects_keep_placeholder (store0 : list chat_message) (old : list address)
  (effs : list chunk_effect) (st : app_state) :
  placeholder_last store0 old st ->
  exists st', foldl (run_effect onEvent reader_console) (Some st) effs = Some st'
              /\ placeholder_last store0 old st'.
Proof.
  revert st; induction effs as [|e effs IH]; intros st Hp.
  - exists st. split; [reflexivity | assumption].
  - cbn [foldl]. destruct e as [ty event|data]; cbn [run_effect onEvent].
    + destruct (dispatch_keeps_placeholder _ _ st ty event Hp) as (st' & -> & Hp').
      now apply IH.
    + destruct (reader_console_keeps_placeholder _ _ st data Hp) as (st' & -> & Hp').
      now apply IH.
Qed.

(** During a run the placeholder is a message object of its own: when the
    messages of before the send are objects of the store of before, the last
    address of the list occurs nowhere else in it. *)
Lemma placeholder_fresh (store0 : list chat_message) (old : list address)
  (st : app_state) :
  placeholder_last store0 old st ->
  Forall (fun a => a < length store0) old ->
  exists conv m l,
    in_progress st conv (S (length store0)) m l
    /\ messages conv = (old ++ [length store0]) ++ [S (length store0)]
    /\ (S (length store0) ∉ old ++ [length store0]).
Proof.
  intros Hp Hold.
  destruct (placeholder_in_progress _ _ _ Hp) as (conv & m & l & Hin).
  exists conv, m, l. split; [exact Hin|].
  destruct Hp as (conv' & _ & _ & Hc & Hm & _).
  destruct Hin as (Hc' & _). rewrite Hc in Hc'. injection Hc' as <-.
  split; [now rewrite Hm, <- app_assoc|].
  rewrite elem_of_app, list_elem_of_singleton. intros [Hin|Heq]; [|lia].
  rewrite Forall_forall in Hold. apply Hold in Hin. lia.
Qed.

(** At every event of a run the dispatcher finds the placeholder last: the
    state after any number of the reader's effects is such a state. *)
Lemma run_finds_placeholder (Date_getTime : js_value -> option Z) (now : string)
  (currentId content : string) (st : app_state) (effs : list chunk_effect) :
  exists st1 st2,
    begin_send Date_getTime now currentId content st = Some st1
    /\ foldl (run_effect onEvent reader_console) (Some st1) effs = Some st2
    /\ placeholder_last (store st) (open_messages st) st2.
Proof.
  destruct (begin_send_placeholder Date_getTime now currentId content st)
    as (st1 & Hb & Hp & _).
  destruct (effects_keep_placeholder _ _ effs st1 Hp) as (st2 & Hf & Hp2).
  now exists st1, st2.
Qed.

Section RunFacts.

Variable JSON_parse : string -> option js_value.

(** Whether the reader returns or throws is the network's doing, not the
    callback's. *)
Lemma completion_independent {St St' : Type}
  (f : js_value -> js_value -> St -> St) (g : string -> St -> St)
  (f' : js_value -> js_value -> St' -> St') (g' : string -> St' -> St')
  (resp : response) (s : St) (s' : St') :
  (sendMessageStream JSON_parse f g resp s).2
  = (sendMessageStream JSON_parse f' g' resp s').2.
Proof.
  destruct resp as [e|text|chunks failure]; try reflexivity.
  now rewrite !sendMessageStream_stream.
Qed.

Lemma stream_keeps_placeholder (store0 : list chat_message) (old : list address)
  (resp : response) (st : app_state) :
  placeholder_last store0 old st ->
  exists st', (sendMessageStream JSON_parse onEvent reader_console resp (Some st)).1 = Some st'
              /\ placeholder_last store0 old st'.
Proof.
  intros Hp. destruct resp as [e|text|chunks failure].
  - exists st. split; [reflexivity | assumption].
  - exists st. split; [reflexivity | assumption].
  - rewrite sendMessageStream_stream. cbn [fst].
    now apply effects_keep_placeholder.
Qed.

End RunFacts.

Lemma take_all_but_two {A : Type} (old : list A) (x y : A) :
  take (length (old ++ [x; y]) - 2) (old ++ [x; y]) = old.
Proof.
  rewrite length_app. cbn [length].
  replace (length old + 2 - 2) with (length old) by lia.
  now rewrite take_app_length.
Qed.

Lemma str_nonempty_or (s d : string) :
  d <> "" -> (if String.eqb s "" then d else s) <> "".
Proof.
  intros Hd. destruct (String.eqb_spec s ""); [assumption | assumption].
Qed.

Lemma failure_text_nonempty (e : js_error) : failure_text e <> "".
Proof.
  unfold failure_text.
  match goal with |- (if ?c then _ else _) <> _ => destruct c end;
    [discriminate | apply str_nonempty_or; discriminate].
Qed.

Lemma Earlier_failure_text_nonempty (e : js_error) : Earlier_failure_text e <> "".
Proof. unfold Earlier_failure_text. apply str_nonempty_or; discriminate. Qed.

Lemma catch_send_restores (store0 : list chat_message) (old : list address)
  (st : app_state) (e : js_error) :
  placeholder_last store0 old st ->
  (exists st', catch_send e st = Some st'
               /\ open_messages st' = old
               /\ (forall a, a < length store0 -> store st' !! a = store0 !! a)
               /\ isLoading st' = false
               /\ sendError st' = JSStr (failure_text e))
  /\ (exists st', Earlier_catch_send e st = Some st'
                  /\ open_messages st' = old
                  /\ (forall a, a < length store0 -> store st' !! a = store0 !! a)
                  /\ isLoading st' = false
                  /\ sendError st' = JSStr (Earlier_failure_text e)).
Proof.
  intros (conv & m & l & Hc & Hm & Hlen & Hlk & Hl & Hframe).
  unfold catch_send, Earlier_catch_send, setCurrentConversation, drop_optimistic,
    open_messages.
  cbn [store currentConversation perform set_store set_currentConversation
         setSendError setIsLoading].
  rewrite Hc, Hm, take_all_but_two.
  split; (eexists; split; [reflexivity|]); cbn; repeat split; assumption.
Qed.

(** C8.  When [api.sendMessageStream] throws, whether before the first event
    or after some, the [catch] block of [handleSendMessage] takes the user
    message and the assistant placeholder off again: the open conversation
    has the messages it had before the send, none of which was written to;
    the loading flag is cleared; and the send error is a text that is not
    empty.  This holds for both versions of the handler.  (Whether the reader
    throws is decided by the network alone, so the hypothesis may start it in
    any state.) *)
Theorem failed_send_restores_messages :
  forall (JSON_parse : string -> option js_value)
         (Date_getTime : js_value -> option Z) (now content : string)
         (resp : response) (st : app_state) (currentId : string) (e : js_error),
    currentConversationId st = Some currentId ->
    currentId <> "" ->
    (sendMessageStream JSON_parse onEvent reader_console resp (Some st)).2 = Thrown e ->
    (exists st1 st',
        begin_send Date_getTime now currentId content st = Some st1
        /\ open_messages st1
           = open_messages st ++ [length (store st); S (length (store st))]
        /\ handleSendMessage JSON_parse Date_getTime now content resp st = Some st'
        /\ open_messages st' = open_messages st
        /\ (forall a, a < length (store st) -> store st' !! a = store st !! a)
        /\ isLoading st' = false
        /\ sendError st' = JSStr (failure_text e)
        /\ failure_text e <> "")
    /\ (exists st1 st',
          Earlier_begin_send currentId content st = Some st1
          /\ open_messages st1
             = open_messages st ++ [length (store st); S (length (store st))]
          /\ Earlier_handleSendMessage JSON_parse content resp st = Some st'
          /\ open_messages st' = open_messages st
          /\ (forall a, a < length (store st) -> store st' !! a = store st !! a)
          /\ isLoading st' = false
          /\ sendError st' = JSStr (Earlier_failure_text e)
          /\ Earlier_failure_text e <> "").
Proof.
  intros JSON_parse Date_getTime now content resp st currentId e Hid Hne Hthrow.
  assert (Heqb : String.eqb currentId "" = false)
    by (now destruct (String.eqb_spec currentId "")).
  split.
  - destruct (begin_send_placeholder Date_getTime now currentId content st)
      as (st1 & Hb & Hp & _).
    destruct (stream_keeps_placeholder JSON_parse _ _ resp st1 Hp) as (st2 & Hs & Hp2).
    destruct (catch_send_restores _ _ st2 e Hp2) as [(st' & Hcatch & Hrest) _].
    exists st1, st'. split; [exact Hb|]. split.
    { destruct Hp as (conv & _ & _ & Hc & Hm & _). unfold open_messages at 1.
      now rewrite Hc. }
    split.
    { unfold handleSendMessage. rewrite Hid, Heqb, Hb.
      rewrite (completion_independent JSON_parse onEvent reader_console
                 onEvent reader_console resp (Some st) (Some st1)) in Hthrow.
      destruct (sendMessageStream JSON_parse onEvent reader_console resp (Some st1))
        as [run c]. cbn [fst snd] in Hs, Hthrow. subst run c. exact Hcatch. }
    destruct Hrest as (H1 & H2 & H3 & H4).
    repeat split; try assumption. apply failure_text_nonempty.
  - destruct (Earlier_begin_send_placeholder currentId content st)
      as (st1 & Hb & Hp & _).
    destruct (stream_keeps_placeholder JSON_parse _ _ resp st1 Hp) as (st2 & Hs & Hp2).
    destruct (catch_send_restores _ _ st2 e Hp2) as [_ (st' & Hcatch & Hrest)].
    exists st1, st'. split; [exact Hb|]. split.
    { destruct Hp as (conv & _ & _ & Hc & Hm & _). unfold open_messages at 1.
      now rewrite Hc. }
    split.
    { unfold Earlier_handleSendMessage. rewrite Hid, Heqb, Hb.
      rewrite (completion_independent JSON_parse onEvent reader_console
                 onEvent reader_console resp (Some st) (Some st1)) in Hthrow.
      destruct (sendMessageStream JSON_parse onEvent reader_console resp (Some st1))
        as [run c]. cbn [fst snd] in Hs, Hthrow. subst run c. exact Hcatch. }
    destruct Hrest as (H1 & H2 & H3 & H4).
    repeat split; try assumption. apply Earlier_failure_text_nonempty.
Qed.

Lemma failed_send_witness :
  exists st',
    handleSendMessage Json.parse (fun _ => None) "2024-05-01T10:00:00.000Z" "Next question"
      (HttpStream [sse_event "stage1_start"; "data: {"] (Some (Error "network error")))
      sample_idle_state = Some st'
    /\ open_messages st' = [0]
    /\ store st' !! 0 = Some (userMessage "Earlier question")
    /\ isLoading st' = false
    /\ sendError st'
       = JSStr "Failed to reach the backend. Ensure the server is running and your API key/models are set in Settings.".
Proof.
  destruct (failed_send_restores_messages Json.parse (fun _ => None)
              "2024-05-01T10:00:00.000Z" "Next question"
              (HttpStream [sse_event "stage1_start"; "data: {"] (Some (Error "network error")))
              sample_idle_state "c1" (Error "network error"))
    as [(st1 & st' & _ & _ & Hh & Hm & Hs & Hl & He & _) _].
  - reflexivity.
  - discriminate.
  - vm_compute. reflexivity.
  - exists st'. repeat split; try assumption.
    apply (Hs 0). cbn. lia.
Defined.

(* ===================================================================== *)
(** * The settings dialog: members and chairman *)
(* ===================================================================== *)

Lemma includes_model_iff (models : list string) (model : string) :
  includes_model models model = true <-> model ∈ models.
Proof. unfold includes_model. apply bool_decide_eq_true. Qed.

Lemma first_or_empty_head (models : list string) :
  first_or_empty models = default "" (head models).
Proof.
  destruct models as [|m ms]; [reflexivity|]. cbn.
  now destruct (String.eqb_spec m "") as [->|].
Qed.

(** The chairman that the handlers compute is a member, whenever there is a
    member. *)
Lemma next_chairman_member (models : list string) (chair : string) :
  chairman_is_member models (next_chairman models chair).
Proof.
  unfold chairman_is_member, next_chairman. intros Hne.
  destruct (includes_model models chair) eqn:E.
  - now apply includes_model_iff.
  - rewrite first_or_empty_head. destruct models as [|m ms]; [contradiction|].
    cbn. apply list_elem_of_here.
Qed.

Lemma without_model_not_in (model : string) (models : list string) :
  model ∉ without_model model models.
Proof. unfold without_model. rewrite list_elem_of_filter. tauto. Qed.

Lemma without_model_id (model : string) (models : list string) :
  model ∉ models -> without_model model models = models.
Proof.
  unfold without_model. induction models as [|m ms IH]; [reflexivity|].
  rewrite not_elem_of_cons. intros [Hne Hnin].
  rewrite filter_cons_True by congruence. now rewrite IH.
Qed.

Lemma without_model_length (model : string) (models : list string) :
  length (without_model model models) <= length models.
Proof. apply length_filter. Qed.

(** Without the chairman among the members, the next chairman is the first
    member, or the empty string. *)
Lemma next_chairman_removed (model : string) (models : list string) :
  next_chairman (without_model model models) model
  = default "" (head (without_model model models)).
Proof.
  unfold next_chairman.
  destruct (includes_model (without_model model models) model) eqn:E.
  - apply includes_model_iff in E. now apply without_model_not_in in E.
  - apply first_or_empty_head.
Qed.

(** [handleToggleModel] gives the form back as it was, or a form whose
    chairman is a member. *)
Lemma handleToggleModel_cases (model : string) (prev : settings_form) :
  (handleToggleModel model prev = prev
   /\ (model ∉ council_models prev) /\ 4 <= length (council_models prev))
  \/ (form_ok (handleToggleModel model prev)
      /\ council_models (handleToggleModel model prev)
         = (if includes_model (council_models prev) model
            then without_model model (council_models prev)
            else council_models prev ++ [model])
      /\ chairman_model (handleToggleModel model prev)
         = next_chairman (council_models (handleToggleModel model prev))
             (chairman_model prev)).
Proof.
  unfold handleToggleModel.
  destruct (includes_model (council_models prev) model) eqn:E; cbn [negb andb].
  - right. repeat split. apply next_chairman_member.
  - destruct (4 <=? length (council_models prev)) eqn:E4.
    + left. apply Nat.leb_le in E4. repeat split; [|assumption].
      intros Hin. apply includes_model_iff in Hin. congruence.
    + right. repeat split. apply next_chairman_member.
Qed.

Lemma trim_council_ok (model : string) (c : council) :
  council_ok c -> council_ok (trim_council model c).
Proof.
  intros Hc. unfold trim_council.
  destruct (includes_model (c_models c) model); cbn [negb]; [|exact Hc].
  apply next_chairman_member.
Qed.

Lemma handleRemoveModel_cases (model : string) (st : settings_state) :
  (exists c, find (blocking (editingCouncilKey st) model) (councils st) = Some c
             /\ settingsForm (handleRemoveModel model st) = settingsForm st
             /\ councils (handleRemoveModel model st) = councils st
             /\ availableModels (handleRemoveModel model st) = availableModels st)
  \/ (find (blocking (editingCouncilKey st) model) (councils st) = None
      /\ form_ok (settingsForm (handleRemoveModel model st))
      /\ council_models (settingsForm (handleRemoveModel model st))
         = without_model model (council_models (settingsForm st))
      /\ chairman_model (settingsForm (handleRemoveModel model st))
         = next_chairman (without_model model (council_models (settingsForm st)))
             (chairman_model (settingsForm st))
      /\ councils (handleRemoveModel model st) = map (trim_council model) (councils st)).
Proof.
  unfold handleRemoveModel.
  destruct (find (blocking (editingCouncilKey st) model) (councils st)) as [c|].
  - left. exists c. repeat split.
  - right. cbn [settingsForm councils council_models chairman_model].
    assert (E : (if includes_model (council_models (settingsForm st)) model
                 then without_model model (council_models (settingsForm st))
                 else council_models (settingsForm st))
                = without_model model (council_models (settingsForm st))).
    { destruct (includes_model (council_models (settingsForm st)) model) eqn:E;
        [reflexivity|].
      symmetry. apply without_model_id. intros Hin.
      apply includes_model_iff in Hin. congruence. }
    rewrite E. repeat split. apply next_chairman_member.
Qed.

Lemma find_some_elem {A : Type} (f : A -> bool) (l : list A) (x : A) :
  find f l = Some x -> x ∈ l.
Proof.
  induction l as [|y l IH]; [discriminate|]. cbn.
  destruct (f y); [intros [= ->]; apply list_elem_of_here|].
  intros H. apply list_elem_of_further. now apply IH.
Qed.

(** C4.  The three editing operations keep the chairman a member.  A form
    that [handleToggleModel] changes, and the form that [handleRemoveModel]
    leaves when no other council blocks the removal, have a chairman who is
    one of the members whenever there are members; when an operation leaves
    the form as it was, or copies a listed council into it
    ([handleSelectEditingCouncil]), the chairman is a member afterwards if
    that held before, in the form and in the listed councils.  And taking the
    chairman out, by unticking the model or by removing it from the roster,
    makes the first remaining member the chairman, or the empty string when
    no member remains. *)
Theorem council_edits_keep_chairman_a_member :
  forall (st : settings_state) (model key : string),
    (handleToggleModel model (settingsForm st) <> settingsForm st ->
     form_ok (handleToggleModel model (settingsForm st)))
    /\ (form_ok (settingsForm st) ->
        form_ok (handleToggleModel model (settingsForm st)))
    /\ (find (blocking (editingCouncilKey st) model) (councils st) = None ->
        form_ok (settingsForm (handleRemoveModel model st)))
    /\ (form_ok (settingsForm st) ->
        form_ok (settingsForm (handleRemoveModel model st)))
    /\ (Forall council_ok (councils st) ->
        Forall council_ok (councils (handleRemoveModel model st)))
    /\ (form_ok (settingsForm st) -> Forall council_ok (councils st) ->
        form_ok (settingsForm (handleSelectEditingCouncil key st))
        /\ Forall council_ok (councils (handleSelectEditingCouncil key st)))
    /\ (chairman_model (settingsForm st) = model ->
        model ∈ council_models (settingsForm st) ->
        chairman_model (handleToggleModel model (settingsForm st))
        = default "" (head (without_model model (council_models (settingsForm st)))))
    /\ (chairman_model (settingsForm st) = model ->
        find (blocking (editingCouncilKey st) model) (councils st) = None ->
        chairman_model (settingsForm (handleRemoveModel model st))
        = default "" (head (without_model model (council_models (settingsForm st)))))
    /\ (forall c, c ∈ councils st -> c_chairman c = model -> model ∈ c_models c ->
        c_chairman (trim_council model c)
        = default "" (head (without_model model (c_models c)))).
Proof.
  intros st model key.
  split; [|split; [|split; [|split; [|split; [|split; [|split; [|split]]]]]]].
  - intros Hne.
    destruct (handleToggleModel_cases model (settingsForm st)) as [(H & _)|(H & _)];
      [contradiction | assumption].
  - intros Hform.
    destruct (handleToggleModel_cases model (settingsForm st)) as [(-> & _)|(H & _)];
      assumption.
  - intros Hfree.
    destruct (handleRemoveModel_cases model st) as [(c & Hc & _)|(_ & H & _)];
      [congruence | assumption].
  - intros Hform.
    destruct (handleRemoveModel_cases model st) as [(c & _ & -> & _)|(_ & H & _)];
      assumption.
  - intros Hcouncils.
    destruct (handleRemoveModel_cases model st)
      as [(c & _ & _ & -> & _)|(_ & _ & _ & _ & ->)]; [assumption|].
    apply Forall_fmap. eapply Forall_impl; [exact Hcouncils|].
    intros c Hc. now apply trim_council_ok.
  - intros Hform Hcouncils. unfold handleSelectEditingCouncil.
    destruct (find (fun c => String.eqb (c_key c) key) (councils st)) as [c|] eqn:E;
      [|split; assumption].
    cbn [settingsForm councils]. split; [|assumption].
    apply find_some_elem in E.
    rewrite Forall_forall in Hcouncils. exact (Hcouncils c E).
  - intros Hchair Hin.
    destruct (handleToggleModel_cases model (settingsForm st))
      as [(_ & Hnin & _)|(_ & Hm & Hc)]; [contradiction|].
    rewrite Hc, Hm. apply includes_model_iff in Hin. rewrite Hin, Hchair.
    apply next_chairman_removed.
  - intros Hchair Hfree.
    destruct (handleRemoveModel_cases model st)
      as [(c & Hc & _)|(_ & _ & _ & Hc & _)]; [congruence|].
    rewrite Hc, Hchair. apply next_chairman_removed.
  - intros c _ Hchair Hin. unfold trim_council.
    apply includes_model_iff in Hin. rewrite Hin. cbn [negb c_chairman].
    rewrite Hchair. apply next_chairman_removed.
Qed.

Lemma council_edits_witness :
  form_ok (handleToggleModel "openai/gpt-5" (settingsForm sample_settings))
  /\ chairman_model (handleToggleModel "openai/gpt-5" (settingsForm sample_settings)) = ""
  /\ form_ok (settingsForm (handleSelectEditingCouncil "research" sample_settings))
  /\ chairman_model
       (settingsForm
          (handleRemoveModel "google/gemini"
             (handleSelectEditingCouncil "research" sample_settings)))
     = "x-ai/grok".
Proof.
  assert (Hform : form_ok (settingsForm sample_settings)).
  { intros _. apply list_elem_of_here. }
  assert (Hcs : Forall council_ok (councils sample_settings)).
  { repeat constructor; intros _; apply list_elem_of_here. }
  pose proof (council_edits_keep_chairman_a_member sample_settings
                "openai/gpt-5" "research")
    as (_ & H1 & _ & _ & _ & H4 & H6 & _).
  pose proof (council_edits_keep_chairman_a_member
                (handleSelectEditingCouncil "research" sample_settings)
                "google/gemini" "research")
    as (_ & _ & _ & _ & _ & _ & _ & H7 & _).
  split; [exact (H1 Hform)|]. split; [|split].
  - rewrite H6; [reflexivity | reflexivity | apply list_elem_of_here].
  - exact (proj1 (H4 Hform Hcs)).
  - rewrite H7; reflexivity.
Defined.

(* ===================================================================== *)
(** * The settings dialog: how many members are saved *)
(* ===================================================================== *)

(** The guards of the selection: with four models selected, ticking a fifth
    leaves the form as it is, so ticking never takes a selection of at most
    four beyond four; and both versions of [handleSaveSettings] turn down a
    selection that is empty or has more than four models with an error text
    and without a request; the first request of a save that goes ahead
    carries the selection, of one to four models. *)
Theorem selection_guards :
  forall (prev : settings_form) (model : string) (srv : server)
         (answer : js_error + settings_answer) (st : settings_state),
    (4 <= length (council_models prev) -> model ∉ council_models prev ->
     handleToggleModel model prev = prev)
    /\ (length (council_models prev) <= 4 ->
        length (council_models (handleToggleModel model prev)) <= 4)
    /\ (length (council_models (settingsForm st)) = 0
        \/ 4 < length (council_models (settingsForm st)) ->
        (handleSaveSettings srv st).1 = []
        /\ settingsError (handleSaveSettings srv st).2 <> ""
        /\ (Earlier_handleSaveSettings answer st).1 = []
        /\ settingsError (Earlier_handleSaveSettings answer st).2 <> "")
    /\ (forall call rest, (handleSaveSettings srv st).1 = call :: rest ->
        exists p,
          (call = createCouncil p \/ call = updateCouncil (editingCouncilKey st) p)
          /\ p_council_models p = council_models (settingsForm st)
          /\ 1 <= length (p_council_models p) <= 4)
    /\ (forall call rest, (Earlier_handleSaveSettings answer st).1 = call :: rest ->
        exists p,
          call = updateSettings p /\ rest = []
          /\ s_council_models p = council_models (settingsForm st)
          /\ 1 <= length (s_council_models p) <= 4).
Proof.
  intros prev model srv answer st.
  split; [|split; [|split; [|split]]].
  - intros H4 Hnin. unfold handleToggleModel.
    assert (E : includes_model (council_models prev) model = false).
    { destruct (includes_model (council_models prev) model) eqn:E; [|reflexivity].
      apply includes_model_iff in E. contradiction. }
    rewrite E. cbn [negb andb].
    apply Nat.leb_le in H4. now rewrite H4.
  - intros H4. unfold handleToggleModel.
    destruct (includes_model (council_models prev) model) eqn:E; cbn [negb andb].
    + cbn [council_models]. pose proof (without_model_length model (council_models prev)). lia.
    + destruct (4 <=? length (council_models prev)) eqn:E4; [assumption|].
      apply Nat.leb_gt in E4. cbn [council_models]. rewrite length_app. cbn. lia.
  - intros H. unfold handleSaveSettings, Earlier_handleSaveSettings.
    cbn [settingsForm setCouncilError setSettingsError].
    destruct H as [H0|H4].
    + rewrite H0. cbn. repeat split; discriminate.
    + destruct (length (council_models (settingsForm st)) =? 0) eqn:E0.
      * cbn. repeat split; discriminate.
      * apply Nat.ltb_lt in H4. rewrite H4. cbn. repeat split; discriminate.
  - intros call rest. unfold handleSaveSettings.
    cbn [settingsForm setCouncilError setSettingsError].
    destruct (length (council_models (settingsForm st)) =? 0) eqn:E0; [discriminate|].
    destruct (4 <? length (council_models (settingsForm st))) eqn:E4; [discriminate|].
    destruct (String.eqb (chairman_model (settingsForm st)) ""); [discriminate|].
    apply Nat.eqb_neq in E0. apply Nat.ltb_ge in E4.
    intros Hcall.
    assert (Hc : call = edited_council_request st).
    { revert Hcall. unfold edited_council_request at 1 2 3 4 5.
      cbn [settingsForm setCouncilError setSettingsError isNewCouncil
             editingCouncilKey editingCouncilName].
      fold (edited_council_request st).
      destruct (answer_save srv); [now intros [= <- _]|].
      destruct (send_dirty _ _) as [dirty_calls [e|]]; [now intros [= <- _]|].
      destruct (answer_list srv); [now intros [= <- _]|].
      destruct (answer_settings srv); now intros [= <- _]. }
    subst call. unfold edited_council_request.
    eexists. split; [destruct (isNewCouncil st); [left|right]; reflexivity|].
    cbn. split; [reflexivity | lia].
  - intros call rest. unfold Earlier_handleSaveSettings.
    cbn [settingsForm setSettingsError].
    destruct (length (council_models (settingsForm st)) =? 0) eqn:E0; [discriminate|].
    destruct (4 <? length (council_models (settingsForm st))) eqn:E4; [discriminate|].
    destruct (String.eqb (chairman_model (settingsForm st)) ""); [discriminate|].
    apply Nat.eqb_neq in E0. apply Nat.ltb_ge in E4.
    destruct answer; intros [= <- <-]; eexists; repeat split; cbn; lia.
Qed.

(** C3 on the input where the code breaks it.  The edited council's only
    model is removed from the roster, which empties that council in the list
    and marks it dirty; another council is then picked for editing and saved.
    The guards look at the form of the council now edited, and the loop over
    the dirty councils sends the emptied one as it is: a member list of no
    entries goes to the server. *)
Theorem save_sends_council_without_members :
  forall (latest : list council),
    let st :=
      handleSelectEditingCouncil "research"
        (handleRemoveModel "openai/gpt-5" sample_settings) in
    council_models (settingsForm st) = ["google/gemini"; "x-ai/grok"]
    /\ dirtyCouncils st = ["default"]
    /\ take 2 (handleSaveSettings
                 (accepting_server
                    (Some {| c_key := "research"; c_name := "Research";
                             c_models := ["google/gemini"; "x-ai/grok"];
                             c_chairman := "google/gemini" |})
                    latest) st).1
       = [updateCouncil "research"
            {| p_name := "Research";
               p_council_models := ["google/gemini"; "x-ai/grok"];
               p_chairman_model := "google/gemini" |};
          updateCouncil "default"
            {| p_name := "General";
               p_council_models := [];
               p_chairman_model := "" |}].
Proof. intros latest. repeat split. Qed.

(* ===================================================================== *)
(** * The conversation list: recency order and merging *)
(* ===================================================================== *)

Section SortFacts.

Context {A : Type}.
Variable comparefn : A -> A -> option Z.
Variable key : A -> Z.

Lemma sort_insert_perm (x : A) (l : list A) : sort_insert comparefn x l ≡ₚ x :: l.
Proof.
  induction l as [|y l IH]; [reflexivity|]. cbn.
  destruct (comes_after comparefn x y); [|reflexivity].
  rewrite IH. apply Permutation_swap.
Qed.

Lemma Array_sort_cons (x : A) (l : list A) :
  Array_sort comparefn (x :: l) = sort_insert comparefn x (Array_sort comparefn l).
Proof. reflexivity. Qed.

Lemma Array_sort_perm (l : list A) : Array_sort comparefn l ≡ₚ l.
Proof.
  induction l as [|x l IH]; [reflexivity|].
  rewrite Array_sort_cons, sort_insert_perm. now rewrite IH.
Qed.

Lemma sort_insert_sorted (x : A) (l : list A) :
  (forall y, y ∈ l -> comparefn x y = Some (key y - key x)%Z) ->
  StronglySorted (descending key) l ->
  StronglySorted (descending key) (sort_insert comparefn x l).
Proof.
  induction l as [|y l IH]; intros Hcmp Hs.
  - cbn. repeat constructor.
  - cbn. unfold comes_after. rewrite (Hcmp y) by apply list_elem_of_here.
    apply StronglySorted_inv in Hs as [Hs Hy].
    destruct (0 <? key y - key x)%Z eqn:E.
    + apply Z.ltb_lt in E. constructor.
      * apply IH; [|assumption]. intros z Hz. apply Hcmp. now apply list_elem_of_further.
      * rewrite sort_insert_perm. constructor; [unfold descending; lia | assumption].
    + apply Z.ltb_ge in E. constructor; [constructor; assumption|].
      constructor; [unfold descending; lia|].
      eapply Forall_impl; [exact Hy|]. unfold descending. intros z Hz. lia.
Qed.

Lemma Array_sort_sorted (l : list A) :
  (forall x y, x ∈ l -> y ∈ l -> comparefn x y = Some (key y - key x)%Z) ->
  StronglySorted (descending key) (Array_sort comparefn l).
Proof.
  induction l as [|x l IH]; intros Hcmp; [constructor|].
  rewrite Array_sort_cons. apply sort_insert_sorted.
  - intros y Hy. rewrite Array_sort_perm in Hy.
    apply Hcmp; [apply list_elem_of_here | now apply list_elem_of_further].
  - apply IH. intros a b Ha Hb. apply Hcmp; now apply list_elem_of_further.
Qed.

End SortFacts.



Example sortConversationsByActivity_sample :
  map cs_id (sortConversationsByActivity epoch_getTime
               [listed "a" 100; interacted "b" 50 300; listed "c" 200])
  = ["b"; "c"; "a"].
Proof. reflexivity. Qed.

(** What the merge keeps.  An incoming entry without [last_interacted_at]
    gets the one that the previous list has for its id; and an entry with no
    stamp of any kind and no previous record gets [created_at] in both
    fields. *)
Theorem merge_keeps_last_interacted_at :
  forall (previous : list conv_summary) (conv prev : conv_summary),
    (truthy (last_interacted_at conv) = false ->
     Map_by_id previous !! cs_id conv = Some prev ->
     truthy (last_interacted_at prev) = true ->
     last_interacted_at (normalize (Map_by_id previous) conv) = last_interacted_at prev)
    /\ (truthy (lastInteracted conv) = false ->
        truthy (last_interacted_at conv) = false ->
        truthy (updated_at conv) = false ->
        Map_by_id previous !! cs_id conv = None ->
        lastInteracted (normalize (Map_by_id previous) conv) = created_at conv
        /\ last_interacted_at (normalize (Map_by_id previous) conv) = created_at conv).
Proof.
  intros previous conv prev. split.
  - intros Hc Hp Ht. unfold normalize. cbn [last_interacted_at].
    rewrite Hp. unfold js_or at 4. rewrite Hc. unfold js_or at 3. rewrite Ht.
    unfold js_or at 2. rewrite Ht. unfold js_or. now rewrite Ht.
  - intros H1 H2 H3 Hp. unfold normalize. cbn [lastInteracted last_interacted_at].
    rewrite Hp. unfold getLastInteracted, js_or.
    rewrite H1, H2, H3. cbn.
    destruct (truthy (created_at conv)) eqn:E; cbn; rewrite ?E; cbn; rewrite ?E;
      split; reflexivity.
Qed.

(** C9 on the input where the code breaks it.  The list has two threads; the
    older one was interacted with last, which the previous list knows
    ([lastInteracted] and [last_interacted_at] are 300).  The server's
    records carry [created_at] only.  The merge keeps the stamp in
    [last_interacted_at], but [lastInteracted] is filled from the incoming
    record's [created_at] before the previous record is looked at, and it is
    [lastInteracted] that the sort reads first: the thread falls behind the
    newer one. *)
Theorem merge_forgets_lastInteracted :
  let incoming := [listed "old" 100; listed "new" 200] in
  let previous := [interacted "old" 100 300; listed "new" 200] in
  let merged := mergeConversationsWithRecency epoch_getTime incoming previous in
  preserved_recency (listed "old" 100) (Some (interacted "old" 100 300)) = JSNum 300 0
  /\ map cs_id merged = ["new"; "old"]
  /\ map lastInteracted merged = [JSNum 200 0; JSNum 100 0]
  /\ map last_interacted_at merged = [JSNum 200 0; JSNum 300 0]
  /\ map (fun c => getLastInteracted (Some c)) merged = [JSNum 200 0; JSNum 100 0]
  /\ map cs_id (sortConversationsByActivity epoch_getTime previous) = ["old"; "new"].
Proof. vm_compute. repeat split; reflexivity. Qed.

(** The same on one record, whatever the platform's dates are. *)
Example merge_forgets_lastInteracted_any_clock (Date_getTime : js_value -> option Z) :
  map lastInteracted
    (mergeConversationsWithRecency Date_getTime
       [listed "old" 100] [interacted "old" 100 300])
  = [JSNum 100 0].
Proof. reflexivity. Qed.

(* ===================================================================== *)
(** * The deliberation session: order of the events *)
(* ===================================================================== *)

Module SessionFacts.
Import Session.

Lemma ordered_inv (e : event) (tr : list event) :
  ordered (e :: tr) = true ->
  Forall (fun e' => rank e <= rank e') tr /\ (e ∉ tr) /\ ordered tr = true.
Proof.
  cbn [ordered]. rewrite !andb_true_iff, negb_true_iff, bool_decide_eq_false.
  intros [[Hall Hnin] Hrest]. repeat split; try assumption.
  apply Forall_forall. intros e' He'.
  rewrite forallb_forall in Hall. apply Nat.leb_le, Hall.
  now apply list_elem_of_In.
Qed.

Lemma ordered_NoDup (tr : list event) : ordered tr = true -> NoDup tr.
Proof.
  induction tr as [|e tr IH]; [constructor|].
  intros H. apply ordered_inv in H as (_ & Hnin & Hrest).
  constructor; [assumption | now apply IH].
Qed.

(** In an ordered sequence, an event of a lower rank stands before every
    event of a higher rank. *)
Lemma ordered_precedes (tr : list event) :
  ordered tr = true ->
  forall i j e e', tr !! i = Some e -> tr !! j = Some e' -> rank e < rank e' -> i < j.
Proof.
  induction tr as [|x tr IH]; intros Ho i j e e' Hi Hj Hr; [discriminate|].
  apply ordered_inv in Ho as (Hall & _ & Hrest).
  destruct i as [|i], j as [|j]; cbn in Hi, Hj.
  - injection Hi as ->. injection Hj as ->. lia.
  - lia.
  - injection Hj as ->.
    rewrite Forall_forall in Hall.
    assert (rank e' <= rank e) by (apply Hall; eapply list_elem_of_lookup_2; eassumption).
    lia.
  - apply -> Nat.succ_lt_mono. eapply IH; eassumption.
Qed.

Lemma terminal_last_spec (tr : list event) :
  terminal_last tr = true ->
  forall i e, tr !! i = Some e -> terminal e = true -> S i = length tr.
Proof.
  unfold terminal_last. intros H i e Hi He.
  destruct (decide (S i = length tr)) as [|Hne]; [assumption|].
  exfalso.
  assert (Hlt : i < length tr) by (eapply lookup_lt_Some; eassumption).
  assert (Hin : removelast tr !! i = Some e).
  { rewrite removelast_firstn_len. rewrite lookup_take_lt by lia. assumption. }
  rewrite forallb_forall in H.
  apply list_elem_of_lookup_2, list_elem_of_In, H in Hin.
  rewrite He in Hin. discriminate.
Qed.

Lemma prefix_cases (emitted evs : list event) :
  emitted `prefix_of` evs -> exists n, emitted = take n evs.
Proof.
  intros [k ->]. exists (length emitted). now rewrite take_app_length.
Qed.

Lemma take_enumerate (n : nat) (evs : list event) :
  take n evs ∈ map (fun k => take k evs) (seq 0 (S (length evs))).
Proof.
  destruct (decide (n <= length evs)) as [Hle|Hgt].
  - apply list_elem_of_fmap. exists n. split; [reflexivity|].
    apply elem_of_seq. lia.
  - rewrite take_ge by lia.
    apply list_elem_of_fmap. exists (length evs). split; [now rewrite firstn_all|].
    apply elem_of_seq. lia.
Qed.

Lemma run_emitted (s : state) (tr : list event) : run s tr -> emitted_in s tr.
Proof.
  induction 1 as [|s s' tr evs Hrun IH Hstep]; [reflexivity|].
  destruct Hstep as [s s' evs Ht | s s' evs emitted Ht Hpre].
  - destruct Ht as [| | | [|] | [| | | | | |] Hs]; try discriminate Hs;
      cbn in IH; subst tr; cbn; try reflexivity; split; reflexivity.
  - apply prefix_cases in Hpre as [n ->].
    pose proof (take_enumerate n evs) as Hn.
    destruct Ht as [| | | [|] | [| | | | | |] Hs]; try discriminate Hs;
      cbn in IH; subst tr; cbn in Hn; cbn [app]; rewrite !elem_of_cons, elem_of_nil in Hn;
      repeat (destruct Hn as [->|Hn]; [split; reflexivity|]); contradiction.
Qed.

Lemma emitted_in_ordered (s : state) (tr : list event) :
  emitted_in s tr -> ordered tr = true /\ terminal_last tr = true.
Proof. destruct s; cbn; try (intros ->; split; reflexivity); auto. Qed.

End SessionFacts.

(** C5.  The events of a run never repeat and come in stage order: every
    Stage 1 event stands before every Stage 2 event, every Stage 2 event
    before every Stage 3 event, and every Stage 3 event before the terminal
    event ([complete] or [error]), which is the last event of the run. *)
Theorem session_events_in_stage_order :
  forall (s : Session.state) (tr : list Session.event),
    Session.run s tr ->
    NoDup tr
    /\ (forall i j e e',
          tr !! i = Some e -> tr !! j = Some e' ->
          Session.rank e < Session.rank e' -> i < j)
    /\ (forall i e, tr !! i = Some e -> Session.terminal e = true -> S i = length tr).
Proof.
  intros s tr Hrun.
  apply SessionFacts.run_emitted, SessionFacts.emitted_in_ordered in Hrun as [Ho Ht].
  split; [now apply SessionFacts.ordered_NoDup|].
  split; [now apply SessionFacts.ordered_precedes|].
  now apply SessionFacts.terminal_last_spec.
Qed.

Lemma session_events_witness :
  NoDup [Session.Stage1Start; Session.Stage1Complete; Session.Stage2Start;
         Session.Stage2Complete; Session.Stage3Start; Session.Failed]
  /\ (forall i j e e',
        [Session.Stage1Start; Session.Stage1Complete; Session.Stage2Start;
         Session.Stage2Complete; Session.Stage3Start; Session.Failed] !! i = Some e ->
        [Session.Stage1Start; Session.Stage1Complete; Session.Stage2Start;
         Session.Stage2Complete; Session.Stage3Start; Session.Failed] !! j = Some e' ->
        Session.rank e < Session.rank e' -> i < j)
  /\ (forall i e,
        [Session.Stage1Start; Session.Stage1Complete; Session.Stage2Start;
         Session.Stage2Complete; Session.Stage3Start; Session.Failed] !! i = Some e ->
        Session.terminal e = true -> S i = 6).
Proof.
  refine (session_events_in_stage_order Session.Errored _ _).
  refine (Session.run_step Session.Stage3Running Session.Errored
            [Session.Stage1Start; Session.Stage1Complete; Session.Stage2Start;
             Session.Stage2Complete; Session.Stage3Start]
            [Session.Failed] _ _).
  - refine (Session.run_step Session.Stage2Running Session.Stage3Running
              [Session.Stage1Start; Session.Stage1Complete; Session.Stage2Start]
              [Session.Stage2Complete; Session.Stage3Start] _ _).
    + refine (Session.run_step Session.Stage1Running Session.Stage2Running
                [Session.Stage1Start]
                [Session.Stage1Complete; Session.Stage2Start] _ _).
      * exact (Session.run_step Session.Idle Session.Stage1Running [] [Session.Stage1Start]
                 Session.run_idle
                 (Session.step_transition _ _ _ Session.run_started)).
      * exact (Session.step_transition _ _ _ Session.stage1_done).
    + exact (Session.step_transition _ _ _ Session.stage2_done).
  - exact (Session.step_transition _ _ _
             (Session.fatal_failure Session.Stage3Running eq_refl)).
Defined.

(* ===================================================================== *)
(** * Stage 2: the fallback order *)
(* ===================================================================== *)

Module Stage2Facts.
Import Stage2.

(** Without a valid ranking every score is zero, and the sort keeps the
    stable order: the Borda order and the fallback agree. *)
Lemma borda_order_no_rankings (labels : list label) : borda_order labels [] = labels.
Proof.
  unfold borda_order. induction labels as [|l labels IH]; [reflexivity|].
  change (Array_sort (by_score []) (l :: labels))
    with (sort_insert (by_score []) l (Array_sort (by_score []) labels)).
  rewrite IH. destruct labels; reflexivity.
Qed.

Lemma no_valid_rankings (parse_ranking : string -> option (list label))
  (labels : list label) (answers : list (string * option string)) :
  (forall a, a ∈ answers -> ranking_of parse_ranking labels a.2 = None) ->
  map (fun a => (a.1, ranking_of parse_ranking labels a.2)) answers
  = map (fun a => (a.1, None)) answers
  /\ omap snd (map (fun a => (a.1, ranking_of parse_ranking labels a.2)) answers) = [].
Proof.
  induction answers as [|a answers IH]; intros H; [split; reflexivity|].
  destruct IH as [IH1 IH2].
  { intros b Hb. apply H. now apply list_elem_of_further. }
  cbn [map omap list_omap snd]. rewrite (H a) by apply list_elem_of_here.
  cbn. split; [now rewrite IH1 | exact IH2].
Qed.

End Stage2Facts.

(** C6.  When no ranking model gives a valid ranking (its call fails, its
    text cannot be parsed, or what is parsed is no permutation of the
    labels), Stage 2 still ends with an output and not fatally, each model's
    ranking is recorded as failed, and the aggregate ranking is the stable
    Stage 1 order, which is also what the Borda order gives when there is
    nothing to add up. *)
Theorem stage2_falls_back_to_stage1_order :
  forall (parse_ranking : string -> option (list Stage2.label))
         (label_map : list (Stage2.label * string))
         (answers : list (string * option string)),
    (forall a, a ∈ answers ->
       Stage2.ranking_of parse_ranking (map fst label_map) a.2 = None) ->
    exists out,
      Stage2.aggregator parse_ranking label_map answers = Stage2.StageOutput out
      /\ Stage2.aggregate_ranking out = map fst label_map
      /\ Stage2.rankings out = map (fun a => (a.1, None)) answers
      /\ Stage2.label_to_model out = label_map
      /\ Stage2.borda_order (map fst label_map) [] = map fst label_map.
Proof.
  intros parse_ranking label_map answers H.
  destruct (Stage2Facts.no_valid_rankings parse_ranking _ answers H) as [Hr Hv].
  eexists. split; [reflexivity|]. cbn.
  rewrite Hv, Hr. repeat split. apply Stage2Facts.borda_order_no_rankings.
Qed.

Lemma stage2_fallback_witness :
  exists out,
    Stage2.aggregator sample_parse_ranking sample_label_map sample_answers
    = Stage2.StageOutput out
    /\ Stage2.aggregate_ranking out = ["A"; "B"; "C"]
    /\ Stage2.rankings out
       = [("openai/gpt-5", None); ("google/gemini", None); ("x-ai/grok", None)].
Proof.
  destruct (stage2_falls_back_to_stage1_order sample_parse_ranking sample_label_map
              sample_answers) as (out & Ho & Ha & Hr & _).
  - intros a Ha. unfold sample_answers in Ha.
    repeat (apply elem_of_cons in Ha as [->|Ha]; [reflexivity|]).
    now apply elem_of_nil in Ha.
  - exists out. repeat split; assumption.
Defined.

(** With valid rankings the aggregate is the Borda order: three labels, two
    models rank A, B, C and one ranks B, A, C; A has 5 points, B has 4 and C
    has none. *)
Example borda_order_sample :
  map (Stage2.score [["A"; "B"; "C"]; ["A"; "B"; "C"]; ["B"; "A"; "C"]]) ["A"; "B"; "C"]
  = [5; 4; 0]
  /\ Stage2.borda_order ["C"; "B"; "A"] [["A"; "B"; "C"]; ["A"; "B"; "C"]; ["B"; "A"; "C"]]
     = ["A"; "B"; "C"].
Proof. split; reflexivity. Qed.

(* ===================================================================== *)
(** * Sample runs *)
(* ===================================================================== *)

Example trim_sample : trim ("  data: {}" +:+ String LF " ") = "data: {}".
Proof. reflexivity. Qed.

Example split_blank_line_sample :
  split_blank_line ("a" +:+ blank_line +:+ String LF "b" +:+ blank_line)
  = ["a"; String LF "b"; ""].
Proof. reflexivity. Qed.

Example JSON_parse_sample :
  Json.parse ("{" +:+ quoted "type" +:+ ": " +:+ quoted "stage1_complete" +:+ ", "
              +:+ quoted "data" +:+ ": [1.5e2, true, null]}")
  = Some (JSObj [("type", JSStr "stage1_complete");
                 ("data", JSArr [JSNum 15 1; JSBool true; JSNull])]).
Proof. vm_compute. reflexivity. Qed.

Example JSON_parse_rejects :
  map Json.parse ["{oops"; "01"; "[1,]"; "nul"; ""] = [None; None; None; None; None].
Proof. vm_compute. reflexivity. Qed.

(** A whole run: the three stages, then [complete]. *)
Example handleSendMessage_whole_run :
  let data (ty d : string) : string :=
    "data: {" +:+ quoted "type" +:+ ": " +:+ quoted ty +:+ ", "
    +:+ quoted "data" +:+ ": " +:+ quoted d +:+ "}" +:+ blank_line in
  let run :=
    handleSendMessage Json.parse epoch_getTime "2024-05-01T10:00:00.000Z" "Next question"
      (HttpStream
         [sse_event "stage1_start" +:+ data "stage1_complete" "answers";
          sse_event "stage2_start" +:+ data "stage2_complete" "rankings"
            +:+ sse_event "stage3_start";
          data "stage3_complete" "final" +:+ sse_event "complete"]
         None)
      sample_idle_state in
  (open_messages <$> run) = Some [0; 1; 2]
  /\ (isLoading <$> run) = Some false
  /\ (sendError <$> run) = Some (JSStr "")
  /\ (run ≫= fun st => store st !! 2)
     = Some {| role := JSStr "assistant";
               content := JSUndefined;
               stage1 := JSStr "answers";
               stage2 := JSStr "rankings";
               stage3 := JSStr "final";
               metadata := JSUndefined;
               loading := Some {| ld_stage1 := false; ld_stage2 := false;
                                  ld_stage3 := false |} |}
  /\ (effects <$> run) = Some [LoadConversations].
Proof. vm_compute. repeat split; reflexivity. Qed.

Example handleToggleModel_at_four :
  handleToggleModel "e" {| council_models := ["a"; "b"; "c"; "d"]; chairman_model := "b" |}
  = {| council_models := ["a"; "b"; "c"; "d"]; chairman_model := "b" |}
  /\ handleToggleModel "b" {| council_models := ["a"; "b"; "c"; "d"]; chairman_model := "b" |}
     = {| council_models := ["a"; "c"; "d"]; chairman_model := "a" |}.
Proof. split; reflexivity. Qed.

Example handleRemoveModel_blocked :
  councilError (handleRemoveModel "openai/gpt-5"
                  (handleSelectEditingCouncil "research" sample_settings))
  = "General would have no members if you remove openai/gpt-5. Add another model first.".
Proof. reflexivity. Qed.
(* ===================================================================== *)
(** * Facts about trimming *)
(* ===================================================================== *)

Lemma trimStart_cons (a : ascii) (r : string) :
  trimStart (String a r) = if isWhiteSpace a then trimStart r else String a r.
Proof. reflexivity. Qed.

Lemma trimEnd_cons (a : ascii) (r : string) :
  trimEnd (String a r) =
  match trimEnd r with
  | EmptyString => if isWhiteSpace a then EmptyString else String a EmptyString
  | t => String a t
  end.
Proof. reflexivity. Qed.

Lemma trimStart_blank (s : string) :
  trimStart s = EmptyString <-> forallb isWhiteSpace (code_units s) = true.
Proof.
  induction s as [|a r IH]; [easy|].
  rewrite trimStart_cons. cbn [code_units forallb].
  destruct (isWhiteSpace a); cbn [andb]; [exact IH | easy].
Qed.

Lemma trimEnd_blank (s : string) :
  trimEnd s = EmptyString <-> forallb isWhiteSpace (code_units s) = true.
Proof.
  induction s as [|a r IH]; [easy|].
  rewrite trimEnd_cons. cbn [code_units forallb].
  destruct (trimEnd r) as [|b t] eqn:E.
  - destruct (isWhiteSpace a); cbn [andb]; [|easy].
    split; [intros _; now apply IH | reflexivity].
  - split; [discriminate|]. intros H. apply andb_prop in H as [_ H].
    apply IH in H. discriminate.
Qed.

(** What is left of a text after [trimStart] starts with a character that is
    no white space. *)
Lemma trimStart_head (s : string) (a : ascii) (r : string) :
  trimStart s = String a r -> isWhiteSpace a = false.
Proof.
  induction s as [|b t IH]; [discriminate|].
  rewrite trimStart_cons. destruct (isWhiteSpace b) eqn:E; [exact IH|].
  now intros [= <- _].
Qed.

Lemma trimStart_units (s : string) :
  exists blanks, code_units s = blanks ++ code_units (trimStart s)
                 /\ forallb isWhiteSpace blanks = true.
Proof.
  induction s as [|a r (blanks & E & Hb)]; [now exists []|].
  rewrite trimStart_cons. destruct (isWhiteSpace a) eqn:Ea.
  - exists (a :: blanks). cbn [code_units app forallb]. rewrite E, Ea, Hb. easy.
  - now exists [].
Qed.

(** A text trims to nothing exactly when all of it is white space. *)
Lemma trim_blank (s : string) :
  trim s = EmptyString <-> forallb isWhiteSpace (code_units s) = true.
Proof.
  unfold trim. rewrite trimEnd_blank.
  destruct (trimStart_units s) as (blanks & E & Hb).
  rewrite E, forallb_app, Hb. cbn [andb]. reflexivity.
Qed.

Lemma trimEnd_idem (s : string) : trimEnd (trimEnd s) = trimEnd s.
Proof.
  induction s as [|a r IH]; [reflexivity|].
  rewrite trimEnd_cons. destruct (trimEnd r) as [|b t] eqn:E.
  - destruct (isWhiteSpace a) eqn:Ea; [reflexivity|].
    rewrite trimEnd_cons. cbn [trimEnd]. now rewrite Ea.
  - rewrite trimEnd_cons, IH. reflexivity.
Qed.

Lemma trimEnd_keeps_head (a : ascii) (r : string) :
  isWhiteSpace a = false -> exists t, trimEnd (String a r) = String a t.
Proof.
  intros Ha. rewrite trimEnd_cons, Ha. destruct (trimEnd r); eauto.
Qed.

(** Trimming a trimmed text changes nothing. *)
Lemma trim_idem (s : string) : trim (trim s) = trim s.
Proof.
  unfold trim. destruct (trimStart s) as [|a r] eqn:E; [reflexivity|].
  apply trimStart_head in E.
  destruct (trimEnd_keeps_head a r E) as (t & Ht).
  rewrite Ht, trimStart_cons, E, <- Ht. apply trimEnd_idem.
Qed.

Lemma length_trimStart (s : string) : String.length (trimStart s) <= String.length s.
Proof.
  induction s as [|a r IH]; [reflexivity|].
  rewrite trimStart_cons. destruct (isWhiteSpace a); cbn [String.length]; lia.
Qed.

Lemma length_trimEnd (s : string) : String.length (trimEnd s) <= String.length s.
Proof.
  induction s as [|a r IH]; [reflexivity|].
  rewrite trimEnd_cons. destruct (trimEnd r); [destruct (isWhiteSpace a)|];
    cbn [String.length] in *; lia.
Qed.

Lemma trimStart_fixed (s : string) :
  String.length (trimStart s) = String.length s -> trimStart s = s.
Proof.
  destruct s as [|a r]; [reflexivity|].
  rewrite trimStart_cons. destruct (isWhiteSpace a); [|reflexivity].
  pose proof (length_trimStart r). cbn [String.length]. lia.
Qed.

(** A text that [trim] leaves as it is starts with no white space. *)
Lemma trim_fixed_start (s : string) : trim s = s -> trimStart s = s.
Proof.
  intros H. apply trimStart_fixed.
  pose proof (length_trimStart s). pose proof (length_trimEnd (trimStart s)).
  unfold trim in H. rewrite H in *. lia.
Qed.

Lemma append_last_nonempty (s : string) (c : ascii) :
  s +:+ String c EmptyString <> EmptyString.
Proof. destruct s; [discriminate | rewrite append_cons; discriminate]. Qed.

Lemma trimEnd_append_char (s : string) (c : ascii) :
  isWhiteSpace c = false ->
  trimEnd (s +:+ String c EmptyString) = s +:+ String c EmptyString.
Proof.
  intros Hc. induction s as [|a r IH].
  - change (trimEnd (String c EmptyString) = String c EmptyString).
    rewrite trimEnd_cons. cbn [trimEnd]. now rewrite Hc.
  - rewrite append_cons, trimEnd_cons, IH.
    pose proof (append_last_nonempty r c).
    destruct (r +:+ String c EmptyString); [contradiction | reflexivity].
Qed.

Lemma trim_append_char (s : string) (c : ascii) :
  trim s = s -> isWhiteSpace c = false ->
  trim (s +:+ String c EmptyString) = s +:+ String c EmptyString.
Proof.
  intros Hs Hc. unfold trim.
  assert (E : trimStart (s +:+ String c EmptyString) = s +:+ String c EmptyString).
  { apply trim_fixed_start in Hs. destruct s as [|a r].
    - change (trimStart (String c EmptyString) = String c EmptyString).
      rewrite trimStart_cons. now rewrite Hc.
    - rewrite append_cons, trimStart_cons.
      rewrite trimStart_cons in Hs.
      destruct (isWhiteSpace a); [|reflexivity].
      pose proof (length_trimStart r) as Hl. rewrite Hs in Hl.
      cbn [String.length] in Hl. lia. }
  rewrite E. now apply trimEnd_append_char.
Qed.

(* ===================================================================== *)
(** * The address of the backend *)
(* ===================================================================== *)

Lemma strip_trailing_slashes_cons (a : ascii) (r : string) :
  strip_trailing_slashes (String a r) =
  match strip_trailing_slashes r with
  | EmptyString => if Ascii.eqb a SLASH then EmptyString else String a EmptyString
  | t => String a t
  end.
Proof. reflexivity. Qed.

Lemma last_char_cons (a b : ascii) (r : string) :
  last_char (String a (String b r)) = last_char (String b r).
Proof. reflexivity. Qed.

Lemma last_char_strip (s : string) :
  last_char (strip_trailing_slashes s) <> Some SLASH.
Proof.
  induction s as [|a r IH]; [discriminate|].
  rewrite strip_trailing_slashes_cons.
  destruct (strip_trailing_slashes r) as [|b t].
  - destruct (Ascii.eqb_spec a SLASH); [discriminate|].
    cbn. congruence.
  - rewrite last_char_cons. exact IH.
Qed.

Lemma last_char_app (s t : string) :
  t <> EmptyString -> last_char (s +:+ t) = last_char t.
Proof.
  intros Ht. induction s as [|a r IH]; [reflexivity|].
  rewrite append_cons. destruct (r +:+ t) as [|b u] eqn:E.
  - destruct r; [cbn in E; contradiction | rewrite append_cons in E; discriminate].
  - rewrite last_char_cons. exact IH.
Qed.

Lemma strip_trailing_slashes_idem (s : string) :
  strip_trailing_slashes (strip_trailing_slashes s) = strip_trailing_slashes s.
Proof.
  induction s as [|a r IH]; [reflexivity|].
  rewrite strip_trailing_slashes_cons.
  destruct (strip_trailing_slashes r) as [|b t] eqn:E.
  - destruct (Ascii.eqb a SLASH) eqn:Ea; [reflexivity|].
    rewrite strip_trailing_slashes_cons. cbn [strip_trailing_slashes]. now rewrite Ea.
  - rewrite strip_trailing_slashes_cons, IH. reflexivity.
Qed.

Lemma strip_trailing_slashes_slash (s : string) :
  strip_trailing_slashes (s +:+ String SLASH EmptyString) = strip_trailing_slashes s.
Proof.
  induction s as [|a r IH]; [reflexivity|].
  now rewrite append_cons, !strip_trailing_slashes_cons, IH.
Qed.

Lemma append_nonempty_r (s t : string) : t <> EmptyString -> s +:+ t <> EmptyString.
Proof.
  intros Ht. destruct s; [exact Ht | rewrite append_cons; discriminate].
Qed.

Lemma computeHostPortBase_end (window : option location) :
  last_char (computeHostPortBase window) = Some "1"%char.
Proof.
  destruct window as [loc|]; [|reflexivity].
  unfold computeHostPortBase.
  rewrite !last_char_app by (repeat apply append_nonempty_r; discriminate).
  reflexivity.
Qed.

(** The base address of every request is never empty and never ends in a
    slash, whatever [VITE_API_BASE] holds and whether or not there is a
    [window]: the paths, which all start with a slash, are appended to it
    without a doubled slash at the joint.  A configured base is used with the
    slashes at its end taken off, so one more slash at the end of a trimmed
    base changes nothing; and a base that is not set, or is only white space
    and slashes at its end, gives way to the page's host on port 8001. *)
Theorem API_BASE_has_no_trailing_slash :
  forall (VITE_API_BASE : option string) (window : option location) (b : string),
    trim b = b ->
    API_BASE VITE_API_BASE window <> ""
    /\ last_char (API_BASE VITE_API_BASE window) <> Some SLASH
    /\ (envBase VITE_API_BASE = "" ->
        API_BASE VITE_API_BASE window = computeHostPortBase window)
    /\ (envBase VITE_API_BASE <> "" ->
        API_BASE VITE_API_BASE window = envBase VITE_API_BASE)
    /\ envBase None = ""
    /\ strip_trailing_slashes (envBase (Some b)) = envBase (Some b)
    /\ envBase (Some (b +:+ String SLASH EmptyString)) = envBase (Some b).
Proof.
  intros env window b Hb.
  assert (Hc : computeHostPortBase window <> "").
  { intros E. pose proof (computeHostPortBase_end window) as H.
    rewrite E in H. discriminate. }
  unfold API_BASE, str_or.
  split; [|split; [|split; [|split; [|split; [|split]]]]].
  - destruct (String.eqb_spec (envBase env) ""); assumption.
  - destruct (String.eqb_spec (envBase env) "").
    + rewrite computeHostPortBase_end. discriminate.
    + apply last_char_strip.
  - intros ->. reflexivity.
  - intros Hne. destruct (String.eqb_spec (envBase env) ""); [contradiction | reflexivity].
  - reflexivity.
  - apply strip_trailing_slashes_idem.
  - unfold envBase, default. cbn [from_option id].
    rewrite trim_append_char by (assumption || reflexivity).
    rewrite strip_trailing_slashes_slash. now rewrite Hb.
Qed.

Lemma API_BASE_witness :
  trim "http://10.0.0.5:8001" = "http://10.0.0.5:8001"
  /\ API_BASE (Some " http://10.0.0.5:8001// ") None = "http://10.0.0.5:8001"
  /\ API_BASE (Some " / ") (Some {| protocol := "https:"; hostname := "fe80::1" |})
     = "https://[fe80::1]:8001"
  /\ envBase (Some ("http://10.0.0.5:8001" +:+ String SLASH EmptyString))
     = envBase (Some "http://10.0.0.5:8001").
Proof.
  split; [reflexivity|]. split; [reflexivity|]. split; [reflexivity|].
  apply (API_BASE_has_no_trailing_slash None None "http://10.0.0.5:8001").
  reflexivity.
Defined.

(* ===================================================================== *)
(** * The error of a send that the server refuses *)
(* ===================================================================== *)

Lemma handleSendMessage_thrown (JSON_parse : string -> option js_value)
  (Date_getTime : js_value -> option Z) (now : string)
  (content cid : string) (resp : response) (e : js_error) (st : app_state) :
  currentConversationId st = Some cid -> cid <> "" ->
  (forall s, (sendMessageStream JSON_parse onEvent reader_console resp (Some s)).2
             = Thrown e) ->
  exists st',
    handleSendMessage JSON_parse Date_getTime now content resp st = Some st'
    /\ open_messages st' = open_messages st
    /\ isLoading st' = false
    /\ sendError st' = JSStr (failure_text e).
Proof.
  intros Hcid Hne Hthrown. unfold handleSendMessage. rewrite Hcid.
  destruct (String.eqb_spec cid ""); [contradiction|].
  destruct (begin_send_placeholder Date_getTime now cid content st)
    as (st1 & -> & Hp & _).
  destruct (stream_keeps_placeholder JSON_parse _ _ resp st1 Hp) as (st2 & Hrun & Hp2).
  specialize (Hthrown st1).
  destruct (sendMessageStream JSON_parse onEvent reader_console resp (Some st1))
    as [run c]. cbn [fst snd] in *. subst run c.
  destruct (catch_send_restores _ _ st2 e Hp2) as ((st' & Hc & Hm & _ & Hl & He) & _).
  exists st'. repeat split; assumption.
Qed.

(** An answer with an error status never shows the server's [detail] on its
    own.  The block that handles it parses the body and throws
    [new Error(parsed.detail)] inside a [try] whose [catch] is empty, so
    whatever the body parses to, what leaves [sendMessageStream] is an error
    whose message is the whole body text, or [Failed to send message] for an
    empty body; and [handleSendMessage] then takes the optimistic messages
    off, clears the loading flag and shows that text, or the hint about the
    backend when the text speaks of the network. *)
Theorem refused_send_shows_body_text :
  forall (JSON_parse : string -> option js_value)
         (SyntaxError_of : string -> js_error) (String_of : js_value -> string)
         (Date_getTime : js_value -> option Z) (now content cid text : string)
         (st : app_state),
    currentConversationId st = Some cid -> cid <> "" ->
    let shown := str_or text "Failed to send message" in
    refuse_send JSON_parse SyntaxError_of String_of text = Throw (Error shown)
    /\ (forall St (f : js_value -> js_value -> St -> St) (g : string -> St -> St) (s : St),
          sendMessageStream JSON_parse f g (HttpError text) s = (s, Thrown (Error shown)))
    /\ exists st',
         handleSendMessage JSON_parse Date_getTime now content (HttpError text) st
         = Some st'
         /\ open_messages st' = open_messages st
         /\ isLoading st' = false
         /\ sendError st'
            = JSStr (if includes (toLowerCase shown) "network"
                        || includes (toLowerCase shown) "failed to fetch"
                     then "Failed to reach the backend. Ensure the server is running and your API key/models are set in Settings."
                     else shown).
Proof.
  intros JSON_parse SyntaxError_of String_of Date_getTime now content cid text st
    Hcid Hne shown.
  split; [|split].
  - unfold refuse_send, surface_detail, try_catch.
    destruct (JSON_parse text) as [parsed|]; [|reflexivity].
    destruct (truthy (default JSUndefined (get_prop parsed "detail"))); reflexivity.
  - reflexivity.
  - destruct (handleSendMessage_thrown JSON_parse Date_getTime now content cid
                (HttpError text) (Error shown) st Hcid Hne)
      as (st' & H1 & H2 & H3 & H4); [reflexivity|].
    exists st'. repeat split; try assumption.
    rewrite H4. unfold failure_text. cbn [message].
    assert (Hs : String.eqb shown "" = false).
    { subst shown. unfold str_or.
      destruct (String.eqb_spec text ""); [reflexivity|].
      now apply String.eqb_neq. }
    now rewrite Hs.
Qed.

Lemma refused_send_witness :
  let body := "{" +:+ quoted "detail" +:+ ": " +:+ quoted "No API key configured" +:+ "}" in
  let st := sample_idle_state in
  Json.parse body = Some (JSObj [("detail", JSStr "No API key configured")])
  /\ exists st',
       handleSendMessage Json.parse epoch_getTime "2025-01-01T00:00:00.000Z"
         "Hello" (HttpError body) st = Some st'
       /\ open_messages st' = open_messages st
       /\ isLoading st' = false
       /\ sendError st' = JSStr body.
Proof.
  intros body st. split; [reflexivity|].
  destruct (refused_send_shows_body_text Json.parse (fun _ => Error "SyntaxError")
              (fun _ => "") epoch_getTime "2025-01-01T00:00:00.000Z" "Hello" "c1"
              body st eq_refl) as (_ & _ & st' & H1 & H2 & H3 & H4); [discriminate|].
  exists st'. repeat split; assumption.
Defined.

(* ===================================================================== *)
(** * A stream without a blank line *)
(* ===================================================================== *)

Lemma includes_step (a : ascii) (r p : string) :
  includes (String a r) p = String.prefix p (String a r) || includes r p.
Proof. reflexivity. Qed.

Lemma prefix_blank_line (a b : ascii) (r : string) :
  String.prefix blank_line (String a (String b r)) = Ascii.eqb a LF && Ascii.eqb b LF.
Proof.
  unfold blank_line. cbn [String.prefix].
  destruct (ascii_dec LF a) as [<-|Ha].
  - rewrite Ascii.eqb_refl. destruct (ascii_dec LF b) as [<-|Hb].
    + rewrite Ascii.eqb_refl. now destruct r.
    + destruct (Ascii.eqb_spec b LF); [congruence | reflexivity].
  - destruct (Ascii.eqb_spec a LF); [congruence | reflexivity].
Qed.

(** A text that holds no blank line is one piece. *)
Lemma split_blank_line_whole (s : string) :
  includes s blank_line = false -> split_blank_line s = [s].
Proof.
  induction s as [| a | a b r IHr IHbr] using string_pair_ind; try reflexivity.
  rewrite includes_step, prefix_blank_line, split_blank_line_step.
  intros H. apply orb_false_elim in H as [E H].
  rewrite E, (IHbr H). reflexivity.
Qed.

(** Only a blank line of two line feeds ends an event.  As long as the text
    read holds none (a stream that ends its events with carriage return and
    line feed pairs never holds one), the callback and the console are not
    called at all, and the whole text stays in the buffer. *)
Theorem stream_without_blank_line_delivers_nothing :
  forall (St : Type) (JSON_parse : string -> option js_value)
         (deliver : js_value -> js_value -> St -> St)
         (console_error : string -> St -> St)
         (chunks : list string) (failure : option js_error) (st : St),
    includes (concat_text chunks) blank_line = false ->
    sendMessageStream JSON_parse deliver console_error (HttpStream chunks failure) st
    = (st, match failure with
           | None => Returned (concat_text chunks)
           | Some e => Thrown e
           end).
Proof.
  intros St JSON_parse deliver console_error chunks failure st H.
  rewrite sendMessageStream_stream.
  unfold complete_chunks, pending_chunk.
  rewrite (split_blank_line_whole _ H). reflexivity.
Qed.

Lemma stream_without_blank_line_witness :
  let CRLF := String "013"%char (String LF EmptyString) in
  let chunks := ["data: {" +:+ quoted "type" +:+ ": " +:+ quoted "complete" +:+ "}" +:+ CRLF;
                 CRLF +:+ "data: {}" +:+ CRLF +:+ CRLF] in
  includes (concat_text chunks) blank_line = false
  /\ sendMessageStream Json.parse record_call no_console (HttpStream chunks None) []
     = ([], Returned (concat_text chunks)).
Proof.
  intros CRLF chunks. split; [reflexivity|].
  apply (stream_without_blank_line_delivers_nothing _ Json.parse record_call no_console
           chunks None []).
  reflexivity.
Defined.

(* ===================================================================== *)
(** * The compose box *)
(* ===================================================================== *)

Lemma existsb_negb_forallb {A : Type} (f : A -> bool) (l : list A) :
  existsb (fun a => negb (f a)) l = negb (forallb f l).
Proof.
  induction l as [|a l IH]; [reflexivity|].
  cbn [existsb forallb]. rewrite IH. now destruct (f a).
Qed.

Lemma trim_not_blank (s : string) :
  String.eqb (trim s) "" = false
  <-> existsb (fun a => negb (isWhiteSpace a)) (code_units s) = true.
Proof.
  rewrite existsb_negb_forallb, negb_true_iff, String.eqb_neq.
  rewrite <- not_true_iff_false. apply not_iff_compat. apply trim_blank.
Qed.

(** The compose box sends a text exactly when no send is under way and the
    text has a character that is no white space, and what it sends is the
    text as typed, not the trimmed one; it then empties the box.  The send
    button is disabled exactly when a submit would send nothing.  Of the keys
    only Enter without Shift submits. *)
Theorem composer_sends_text_that_is_not_blank :
  forall (has_clearError busy shiftKey : bool) (input key c : string),
    (onSendMessage c ∈ (handleSubmit has_clearError busy input).1
     <-> c = input /\ busy = false
         /\ existsb (fun a => negb (isWhiteSpace a)) (code_units input) = true)
    /\ (send_disabled busy input = false
        <-> exists rest, (handleSubmit has_clearError busy input).1
                         = onSendMessage input :: rest)
    /\ (send_disabled busy input = false
        -> (handleSubmit has_clearError busy input).2 = "")
    /\ (send_disabled busy input = true
        -> handleSubmit has_clearError busy input = ([], input))
    /\ (handleKeyDown has_clearError key shiftKey busy input
        = if String.eqb key "Enter" && negb shiftKey
          then handleSubmit has_clearError busy input
          else ([], input)).
Proof.
  intros has busy shiftKey input key c.
  pose proof (trim_not_blank input) as Hb.
  assert (Hsend : forall call rest,
            onSendMessage c ∈ call :: rest -> call = onSendMessage input ->
            rest = (if has then [clearError] else []) -> c = input).
  { intros call rest H -> ->. apply elem_of_cons in H as [H|H]; [congruence|].
    destruct has; [|now apply elem_of_nil in H].
    apply list_elem_of_singleton in H. discriminate. }
  unfold handleKeyDown, handleSubmit, send_disabled.
  destruct (String.eqb (trim input) "") eqn:E; cbn [negb andb orb fst snd].
  - assert (Hn : existsb (fun a => negb (isWhiteSpace a)) (code_units input) <> true).
    { intros H. apply Hb in H. discriminate. }
    split; [|split; [|split; [|split]]].
    + split; [intros H; now apply elem_of_nil in H | intros (_ & _ & H); contradiction].
    + split; [discriminate | intros (rest & H); discriminate].
    + discriminate.
    + reflexivity.
    + reflexivity.
  - destruct busy; cbn [negb fst snd].
    + split; [|split; [|split; [|split]]].
      * split; [intros H; now apply elem_of_nil in H | intros (_ & H & _); discriminate].
      * split; [discriminate | intros (rest & H); discriminate].
      * discriminate.
      * reflexivity.
      * reflexivity.
    + split; [|split; [|split; [|split]]].
      * split.
        -- intros H. split; [eapply Hsend; [exact H | reflexivity | reflexivity]|].
           split; [reflexivity | now apply Hb].
        -- intros (-> & _). apply list_elem_of_here.
      * split; [intros _; eexists; reflexivity | reflexivity].
      * reflexivity.
      * discriminate.
      * reflexivity.
Qed.

Lemma composer_witness :
  send_disabled false "  hello " = false
  /\ handleSubmit true false "  hello " = ([onSendMessage "  hello "; clearError], "")
  /\ send_disabled false ("  " +:+ String LF " ") = true
  /\ handleSubmit true false ("  " +:+ String LF " ") = ([], "  " +:+ String LF " ")
  /\ (handleKeyDown true "Enter" true false "hello").1 = [].
Proof.
  pose proof (composer_sends_text_that_is_not_blank true false true "  hello " "Enter"
                "  hello ") as (_ & _ & H3 & _).
  pose proof (composer_sends_text_that_is_not_blank true false true
                ("  " +:+ String LF " ") "Enter" "") as (_ & _ & _ & H4 & _).
  split; [reflexivity|]. split; [reflexivity|]. split; [reflexivity|].
  split; [exact (H4 eq_refl) | reflexivity].
Defined.

(* ===================================================================== *)
(** * What the transcript shows during a run *)
(* ===================================================================== *)

Lemma in_progress_written (st : app_state) conv a m l (m' : chat_message) l' :
  in_progress st conv a m l ->
  loading m' = Some l' ->
  in_progress (set_store (<[a := m']> (store st)) st) conv a m' l'.
Proof.
  intros (Hc & Hlast & Hm & Hl) Hl'. repeat split; try assumption.
  cbn [store set_store]. apply list_lookup_insert_eq.
  now apply lookup_lt_Some in Hm.
Qed.

Lemma in_progress_last_message (st : app_state) conv a m l :
  in_progress st conv a m l -> last_message st = Some m.
Proof.
  intros (Hc & Hlast & Hm & _). unfold last_message, open_messages.
  now rewrite Hc, Hlast.
Qed.

(** Every event leaves the last message in progress, written as [written]
    says. *)
Lemma dispatch_written (st : app_state) conv a m l (eventType event : js_value) :
  in_progress st conv a m l ->
  exists st' l',
    dispatch eventType event st = Some st'
    /\ in_progress st' conv a (written eventType event m) l'
    /\ (case_of eventType <> complete -> case_of eventType <> error ->
        isLoading st' = isLoading st)
    /\ (case_of eventType = complete -> isLoading st' = false).
Proof.
  intros Hin.
  pose proof (dispatch_in_progress st conv a m l eventType event Hin) as Hd.
  assert (Hl : loading m = Some l) by apply Hin.
  unfold written. rewrite Hl.
  destruct (case_of eventType); cbv zeta in Hd; rewrite Hd.
  1-6: eexists _, _; split; [reflexivity|]; split;
       [apply (in_progress_written st conv a m l); [exact Hin | reflexivity]
       | split; [reflexivity | discriminate]].
  all: eexists _, l; split; [reflexivity|]; split; [exact Hin|]; split;
       try reflexivity; try discriminate; try congruence.
Qed.

Lemma last_views_in_progress (events : list (js_value * js_value))
  (st : app_state) conv a m l :
  in_progress st conv a m l ->
  last_views events st = groups_under events m.
Proof.
  revert st m l. induction events as [|[ty event] rest IH]; intros st m l Hin;
    [reflexivity|].
  cbn [last_views groups_under].
  destruct (dispatch_written st conv a m l ty event Hin) as (st' & l' & -> & Hin' & _).
  rewrite (in_progress_last_message _ _ _ _ _ Hin'). cbn [option_map].
  f_equal. exact (IH st' _ l' Hin').
Qed.

Lemma deliver_all_cons (ty event : js_value) (events : list (js_value * js_value))
  (st : app_state) :
  deliver_all ((ty, event) :: events) (Some st)
  = deliver_all events (dispatch ty event st).
Proof. reflexivity. Qed.

(** After the optimistic appends the placeholder is the last message, as it
    was created. *)
Lemma begin_send_in_progress (Date_getTime : js_value -> option Z) (now : string)
  (currentId content : string) (st : app_state) :
  exists st1 conv,
    begin_send Date_getTime now currentId content st = Some st1
    /\ in_progress st1 conv (S (length (store st))) assistantMessage
         {| ld_stage1 := false; ld_stage2 := false; ld_stage3 := false |}
    /\ isLoading st1 = true.
Proof.
  unfold begin_send, setCurrentConversation, ensure_conversation, append_message.
  destruct st as [h convs cid [conv|] ld err eff]; cbn -[markConversationInteracted].
  all: eexists _, _; split; [reflexivity|]; split; [|reflexivity].
  all: destruct (store_after_appends h (userMessage content) assistantMessage)
         as (H1 & H2 & H3 & H4).
  all: repeat split; cbn; rewrite ?H4; try assumption.
  all: rewrite ?last_app; reflexivity.
Qed.

Lemma last_group_shown (st : app_state) conv a m l :
  in_progress st conv a m l ->
  last (MessagesView (open_message_objects st) false) = Some (message_group m).
Proof.
  intros (Hc & Hlast & Hm & _).
  unfold open_message_objects, open_messages. rewrite Hc.
  apply last_Some in Hlast as (front & ->).
  rewrite omap_app. cbn [omap list_omap]. rewrite Hm.
  unfold MessagesView. rewrite app_nil_r.
  destruct (omap (fun a => store st !! a) front ++ [m]) as [|x xs] eqn:E.
  - now apply app_nil in E as [_ E].
  - rewrite <- E, map_app. cbn [map]. apply last_snoc.
Qed.

(** What the user sees of the answer during a run in which every stage
    succeeds.  Right after the send the last group of the transcript is the
    bare label of the council; each [stageN_start] adds the spinner of stage
    [N] below what is there; each [stageN_complete] with data replaces that
    spinner by the panel of the stage, which shows the data of the event (the
    Stage 2 panel also the label map and the aggregate of the metadata);
    [title_complete] and [complete] change nothing in it.  At the end the
    indicator of the run is gone and the group holds the three panels. *)
Theorem run_shows_each_stage :
  forall (Date_getTime : js_value -> option Z) (now currentId content : string)
         (st : app_state)
         (start1 done1 start2 done2 start3 done3 titled completed : js_value),
    truthy (prop done1 "data") = true ->
    truthy (prop done2 "data") = true ->
    truthy (prop done3 "data") = true ->
    let run := successful_run start1 done1 start2 done2 start3 done3 titled completed in
    let panel1 := Stage1View (prop done1 "data") in
    let panel2 :=
      Stage2View
        {| view_rankings := prop done2 "data";
           view_labelToModel := prop (prop done2 "metadata") "label_to_model";
           view_aggregateRankings := prop (prop done2 "metadata") "aggregate_rankings" |} in
    let panel3 := Stage3View (prop done3 "data") in
    exists st1 st2,
      begin_send Date_getTime now currentId content st = Some st1
      /\ option_map message_group (last_message st1) = Some [AssistantLabel]
      /\ last (MessagesView (open_message_objects st1) (isLoading st1))
         = Some [LoadingIndicator]
      /\ last_views run st1
         = [Some [AssistantLabel; StageLoading 1];
            Some [AssistantLabel; panel1];
            Some [AssistantLabel; panel1; StageLoading 2];
            Some [AssistantLabel; panel1; panel2];
            Some [AssistantLabel; panel1; panel2; StageLoading 3];
            Some [AssistantLabel; panel1; panel2; panel3];
            Some [AssistantLabel; panel1; panel2; panel3];
            Some [AssistantLabel; panel1; panel2; panel3]]
      /\ deliver_all run (Some st1) = Some st2
      /\ isLoading st2 = false
      /\ last (MessagesView (open_message_objects st2) (isLoading st2))
         = Some [AssistantLabel; panel1; panel2; panel3].
Proof.
  intros Date_getTime now currentId content st
    start1 done1 start2 done2 start3 done3 titled completed H1 H2 H3
    run panel1 panel2 panel3.
  destruct (begin_send_in_progress Date_getTime now currentId content st)
    as (st1 & conv & Hb & Hin & Hld).
  assert (Hviews : groups_under run assistantMessage
            = [Some [AssistantLabel; StageLoading 1];
               Some [AssistantLabel; panel1];
               Some [AssistantLabel; panel1; StageLoading 2];
               Some [AssistantLabel; panel1; panel2];
               Some [AssistantLabel; panel1; panel2; StageLoading 3];
               Some [AssistantLabel; panel1; panel2; panel3];
               Some [AssistantLabel; panel1; panel2; panel3];
               Some [AssistantLabel; panel1; panel2; panel3]]).
  { subst run panel1 panel2 panel3. unfold successful_run.
    cbv -[prop truthy app]. rewrite H1, H2, H3. reflexivity. }
  exists st1.
  (* the eight events, one after the other *)
  subst run. unfold successful_run in *. rewrite !deliver_all_cons.
  destruct (dispatch_written st1 conv _ _ _ (JSStr "stage1_start") start1 Hin)
    as (s1 & l1 & -> & Hin1 & Hl1 & _).
  rewrite !deliver_all_cons.
  destruct (dispatch_written s1 conv _ _ _ (JSStr "stage1_complete") done1 Hin1)
    as (s2 & l2 & -> & Hin2 & Hl2 & _).
  rewrite !deliver_all_cons.
  destruct (dispatch_written s2 conv _ _ _ (JSStr "stage2_start") start2 Hin2)
    as (s3 & l3 & -> & Hin3 & Hl3 & _).
  rewrite !deliver_all_cons.
  destruct (dispatch_written s3 conv _ _ _ (JSStr "stage2_complete") done2 Hin3)
    as (s4 & l4 & -> & Hin4 & Hl4 & _).
  rewrite !deliver_all_cons.
  destruct (dispatch_written s4 conv _ _ _ (JSStr "stage3_start") start3 Hin4)
    as (s5 & l5 & -> & Hin5 & Hl5 & _).
  rewrite !deliver_all_cons.
  destruct (dispatch_written s5 conv _ _ _ (JSStr "stage3_complete") done3 Hin5)
    as (s6 & l6 & -> & Hin6 & Hl6 & _).
  rewrite !deliver_all_cons.
  destruct (dispatch_written s6 conv _ _ _ (JSStr "title_complete") titled Hin6)
    as (s7 & l7 & -> & Hin7 & Hl7 & _).
  rewrite !deliver_all_cons.
  destruct (dispatch_written s7 conv _ _ _ (JSStr "complete") completed Hin7)
    as (s8 & l8 & -> & Hin8 & _ & Hl8).
  exists s8.
  split; [exact Hb|]. split; [|split; [|split; [|split; [|split]]]].
  - now rewrite (in_progress_last_message _ _ _ _ _ Hin).
  - rewrite Hld. unfold MessagesView. apply last_snoc.
  - rewrite (last_views_in_progress _ st1 conv _ _ _ Hin). exact Hviews.
  - reflexivity.
  - now apply Hl8.
  - rewrite (Hl8 eq_refl). rewrite (last_group_shown _ _ _ _ _ Hin8).
    f_equal. cbv -[prop truthy app]. rewrite H1, H2, H3. reflexivity.
Qed.

Lemma run_shows_each_stage_witness :
  let answers := JSObj [("data", JSArr [JSStr "answer"])] in
  let ranked :=
    JSObj [("data", JSArr [JSStr "ranking"]);
           ("metadata", JSObj [("label_to_model", JSObj [("A", JSStr "m1")])])] in
  let final := JSObj [("data", JSObj [("response", JSStr "synthesis")])] in
  exists st1 st2,
    begin_send epoch_getTime "2025-01-01T00:00:00.000Z" "c1" "Hello" sample_idle_state
    = Some st1
    /\ deliver_all
         (successful_run (JSObj []) answers (JSObj []) ranked (JSObj []) final
            (JSObj []) (JSObj []))
         (Some st1) = Some st2
    /\ isLoading st2 = false
    /\ last (MessagesView (open_message_objects st2) (isLoading st2))
       = Some [AssistantLabel;
               Stage1View (JSArr [JSStr "answer"]);
               Stage2View
                 {| view_rankings := JSArr [JSStr "ranking"];
                    view_labelToModel := JSObj [("A", JSStr "m1")];
                    view_aggregateRankings := JSUndefined |};
               Stage3View (JSObj [("response", JSStr "synthesis")])].
Proof.
  intros answers ranked final.
  destruct (run_shows_each_stage epoch_getTime "2025-01-01T00:00:00.000Z" "c1" "Hello"
              sample_idle_state (JSObj []) answers (JSObj []) ranked (JSObj []) final
              (JSObj []) (JSObj []) eq_refl eq_refl eq_refl)
    as (st1 & st2 & Hb & _ & _ & _ & Hd & Hl & Hv).
  exists st1, st2. repeat split; assumption.
Defined.

(* ===================================================================== *)
(** * More on the recency sort *)
(* ===================================================================== *)

Section StableSort.

Context {A : Type}.
Variable comparefn : A -> A -> option Z.
Variable key : A -> Z.

(** Insertion passes only entries that come strictly before the new one, so
    it keeps the order among entries of the same key. *)
Lemma sort_insert_stable (k : Z) (x : A) (l : list A) :
  (forall y, y ∈ l -> comparefn x y = Some (key y - key x)%Z) ->
  filter (fun a => key a = k) (sort_insert comparefn x l)
  = filter (fun a => key a = k) (x :: l).
Proof.
  induction l as [|y l IH]; intros Hcmp; [reflexivity|].
  cbn [sort_insert]. unfold comes_after.
  rewrite (Hcmp y) by apply list_elem_of_here.
  destruct (0 <? key y - key x)%Z eqn:E; [|reflexivity].
  apply Z.ltb_lt in E.
  assert (IH' := IH (fun z Hz => Hcmp z (list_elem_of_further _ _ _ Hz))).
  destruct (decide (key y = k)) as [Hy|Hy].
  - rewrite (filter_cons_True _ y) by exact Hy. rewrite IH'.
    rewrite (filter_cons_False _ x) by lia.
    rewrite (filter_cons_False _ x) by lia.
    now rewrite (filter_cons_True _ y) by exact Hy.
  - rewrite (filter_cons_False _ y) by exact Hy. rewrite IH'.
    destruct (decide (key x = k)) as [Hx|Hx].
    + rewrite !(filter_cons_True _ x) by exact Hx.
      now rewrite (filter_cons_False _ y) by exact Hy.
    + rewrite !(filter_cons_False _ x) by exact Hx.
      now rewrite (filter_cons_False _ y) by exact Hy.
Qed.

Lemma Array_sort_stable (k : Z) (l : list A) :
  (forall x y, x ∈ l -> y ∈ l -> comparefn x y = Some (key y - key x)%Z) ->
  filter (fun a => key a = k) (Array_sort comparefn l)
  = filter (fun a => key a = k) l.
Proof.
  induction l as [|x l IH]; intros Hcmp; [reflexivity|].
  rewrite Array_sort_cons, sort_insert_stable.
  - destruct (decide (key x = k)) as [Hx|Hx].
    + rewrite !(filter_cons_True _ x) by exact Hx. f_equal.
      apply IH. intros a b Ha Hb. apply Hcmp; now apply list_elem_of_further.
    + rewrite !(filter_cons_False _ x) by exact Hx.
      apply IH. intros a b Ha Hb. apply Hcmp; now apply list_elem_of_further.
  - intros y Hy. rewrite Array_sort_perm in Hy.
    apply Hcmp; [apply list_elem_of_here | now apply list_elem_of_further].
Qed.

(** A list that is in order already is left as it is. *)
Lemma Array_sort_sorted_id (l : list A) :
  (forall x y, x ∈ l -> y ∈ l -> comparefn x y = Some (key y - key x)%Z) ->
  StronglySorted (descending key) l ->
  Array_sort comparefn l = l.
Proof.
  induction l as [|x l IH]; intros Hcmp Hs; [reflexivity|].
  apply StronglySorted_inv in Hs as [Hs Hx].
  rewrite Array_sort_cons, IH; [|intros a b Ha Hb; apply Hcmp; now apply list_elem_of_further|exact Hs].
  destruct l as [|y l]; [reflexivity|].
  cbn [sort_insert]. unfold comes_after.
  rewrite (Hcmp x y) by (repeat constructor).
  apply Forall_inv in Hx. unfold descending in Hx.
  destruct (0 <? key y - key x)%Z eqn:E; [apply Z.ltb_lt in E; lia | reflexivity].
Qed.

(** The entry at the head of the argument stays at the head when no other
    entry is more recent. *)
Lemma Array_sort_head (x : A) (l : list A) :
  (forall y, y ∈ l -> comparefn x y = Some (key y - key x)%Z) ->
  (forall y, y ∈ l -> (key y <= key x)%Z) ->
  Array_sort comparefn (x :: l) = x :: Array_sort comparefn l.
Proof.
  intros Hcmp Hle. rewrite Array_sort_cons.
  destruct (Array_sort comparefn l) as [|y rest] eqn:E; [reflexivity|].
  assert (Hy : y ∈ l).
  { rewrite <- (Array_sort_perm comparefn l), E. apply list_elem_of_here. }
  cbn [sort_insert]. unfold comes_after. rewrite (Hcmp y Hy).
  specialize (Hle y Hy).
  destruct (0 <? key y - key x)%Z eqn:E'; [apply Z.ltb_lt in E'; lia | reflexivity].
Qed.

(** The head of a sorted list has the greatest key. *)
Lemma sorted_head_greatest (x : A) (l sorted : list A) :
  StronglySorted (descending key) sorted ->
  sorted ≡ₚ l -> head sorted = Some x ->
  forall y, y ∈ l -> (key y <= key x)%Z.
Proof.
  intros Hs Hp Hh y Hy. rewrite <- Hp in Hy.
  destruct sorted as [|z rest]; [discriminate|]. injection Hh as ->.
  apply StronglySorted_inv in Hs as [_ Hx].
  apply elem_of_cons in Hy as [->|Hy]; [lia|].
  rewrite Forall_forall in Hx. exact (Hx y Hy).
Qed.

End StableSort.

Lemma by_activity_valid (Date_getTime : js_value -> option Z) (convs : list conv_summary) :
  (forall c, c ∈ convs -> toTime Date_getTime (getLastInteracted (Some c)) <> None) ->
  forall a b, a ∈ convs -> b ∈ convs ->
    by_activity Date_getTime a b
    = Some (activity_time Date_getTime b - activity_time Date_getTime a)%Z.
Proof.
  intros Hvalid a b Ha Hb. unfold by_activity, activity_time.
  pose proof (Hvalid a Ha) as Hta. pose proof (Hvalid b Hb) as Htb.
  destruct (toTime Date_getTime (getLastInteracted (Some a))); [|contradiction].
  destruct (toTime Date_getTime (getLastInteracted (Some b))); [|contradiction].
  reflexivity.
Qed.

(** The recency sort is stable and idempotent.  When every entry has a valid
    date, the entries of one and the same time of last interaction come out
    in the order they went in; a list that is in descending order already
    comes out as it is; and so sorting a sorted list again changes nothing. *)
Theorem sortConversationsByActivity_stable :
  forall (Date_getTime : js_value -> option Z) (convs : list conv_summary),
    (forall c, c ∈ convs -> toTime Date_getTime (getLastInteracted (Some c)) <> None) ->
    (forall t, filter (fun c => activity_time Date_getTime c = t)
                 (sortConversationsByActivity Date_getTime convs)
               = filter (fun c => activity_time Date_getTime c = t) convs)
    /\ (StronglySorted (descending (activity_time Date_getTime)) convs ->
        sortConversationsByActivity Date_getTime convs = convs)
    /\ sortConversationsByActivity Date_getTime
         (sortConversationsByActivity Date_getTime convs)
       = sortConversationsByActivity Date_getTime convs.
Proof.
  intros Date_getTime convs Hvalid.
  pose proof (by_activity_valid Date_getTime convs Hvalid) as Hcmp.
  split; [|split].
  - intros t. now apply Array_sort_stable.
  - intros Hs. now apply (Array_sort_sorted_id _ (activity_time Date_getTime)).
  - apply (Array_sort_sorted_id _ (activity_time Date_getTime)).
    + intros a b Ha Hb. unfold sortConversationsByActivity in Ha, Hb.
      rewrite Array_sort_perm in Ha, Hb. now apply Hcmp.
    + now apply Array_sort_sorted.
Qed.

Lemma sortConversationsByActivity_stable_witness :
  let convs := [listed "a" 100; interacted "b" 50 300; listed "c" 100;
                interacted "d" 10 300] in
  map cs_id (sortConversationsByActivity epoch_getTime convs) = ["b"; "d"; "a"; "c"]
  /\ sortConversationsByActivity epoch_getTime
       (sortConversationsByActivity epoch_getTime convs)
     = sortConversationsByActivity epoch_getTime convs.
Proof.
  intros convs. split; [reflexivity|].
  apply (sortConversationsByActivity_stable epoch_getTime convs).
  intros c Hc.
  repeat (apply elem_of_cons in Hc as [->|Hc]; [discriminate|]).
  now apply elem_of_nil in Hc.
Defined.

(* ===================================================================== *)
(** * Marking a conversation as interacted with *)
(* ===================================================================== *)

(** The stamp read first is [lastInteracted]. *)
Lemma getLastInteracted_first (c : conv_summary) :
  truthy (lastInteracted c) = true -> getLastInteracted (Some c) = lastInteracted c.
Proof. intros H. unfold getLastInteracted, js_or. now rewrite !H. Qed.

Lemma getLastInteracted_marked (ts : js_value) (conv : conv_summary) :
  truthy ts = true -> getLastInteracted (Some (marked_at ts conv)) = ts.
Proof. intros H. now rewrite getLastInteracted_first. Qed.

Lemma truthy_text (s : string) : s <> "" -> truthy (JSStr s) = true.
Proof. intros H. cbn [truthy]. apply String.eqb_neq in H. now rewrite H. Qed.

Lemma markConversationInteracted_unfold (Date_getTime : js_value -> option Z)
  (now id : string) (timestamp : js_value) (prev : list conv_summary) :
  id <> "" -> id ∈ map cs_id prev ->
  markConversationInteracted Date_getTime now id timestamp prev
  = sortConversationsByActivity Date_getTime
      (map (fun conv => if String.eqb (cs_id conv) id
                        then marked_at (js_or timestamp (JSStr now)) conv
                        else conv) prev).
Proof.
  intros Hid Hin. unfold markConversationInteracted.
  destruct (String.eqb_spec id ""); [contradiction|].
  assert (E : existsb (fun conv => String.eqb (cs_id conv) id) prev = true).
  { apply existsb_exists. apply list_elem_of_fmap in Hin as (c & -> & Hc).
    exists c. split; [now apply list_elem_of_In | apply String.eqb_refl]. }
  rewrite E. reflexivity.
Qed.

(** [markConversationInteracted] stamps the entries of the given id with the
    time of the interaction (the clock's, when none is given), leaves every
    other entry as it is, and sorts: the list holds the same conversations
    as before, and when every date is valid and all other entries are older
    than the stamp, the marked conversation is at the head of the list.  An
    id that is empty or not in the list changes nothing. *)
Theorem markConversationInteracted_moves_to_front :
  forall (Date_getTime : js_value -> option Z) (now id : string)
         (timestamp : js_value) (prev : list conv_summary) (t : Z),
    let ts := js_or timestamp (JSStr now) in
    let result := markConversationInteracted Date_getTime now id timestamp prev in
    (id = "" \/ (id ∉ map cs_id prev) -> result = prev)
    /\ (id <> "" -> id ∈ map cs_id prev ->
        map cs_id result ≡ₚ map cs_id prev
        /\ (forall c, c ∈ result -> cs_id c = id ->
              lastInteracted c = ts /\ last_interacted_at c = ts)
        /\ (forall c, c ∈ result -> cs_id c <> id -> c ∈ prev)
        /\ (truthy ts = true -> Date_getTime ts = Some t ->
            (forall c, c ∈ prev ->
               toTime Date_getTime (getLastInteracted (Some c)) <> None) ->
            (forall c, c ∈ prev -> cs_id c <> id ->
               (activity_time Date_getTime c < t)%Z) ->
            exists c rest, result = c :: rest /\ cs_id c = id)).
Proof.
  intros Date_getTime now id timestamp prev t ts result.
  split.
  - intros [->|Hnin]; [reflexivity|].
    subst result. unfold markConversationInteracted.
    destruct (String.eqb id ""); [reflexivity|].
    destruct (existsb (fun conv => String.eqb (cs_id conv) id) prev) eqn:E; [|reflexivity].
    exfalso. apply Hnin. apply existsb_exists in E as (c & Hc & E).
    apply String.eqb_eq in E. subst id. apply list_elem_of_fmap.
    exists c. split; [reflexivity | now apply list_elem_of_In].
  - intros Hid Hin. subst result.
    rewrite (markConversationInteracted_unfold _ _ _ _ _ Hid Hin). fold ts.
    set (mark := fun conv => if String.eqb (cs_id conv) id then marked_at ts conv else conv).
    assert (Hids : map cs_id (map mark prev) = map cs_id prev).
    { rewrite map_map. apply map_ext. intros c. unfold mark.
      now destruct (String.eqb (cs_id c) id). }
    assert (Hmark : forall c', c' ∈ map mark prev ->
              exists c, c ∈ prev /\ c' = mark c).
    { intros c' Hc'. apply list_elem_of_fmap in Hc' as (c & -> & Hc). now exists c. }
    unfold sortConversationsByActivity.
    split; [|split; [|split]].
    + now rewrite Array_sort_perm, Hids.
    + intros c' Hc' Hid'. rewrite Array_sort_perm in Hc'.
      destruct (Hmark c' Hc') as (c & Hc & ->). unfold mark in *.
      destruct (String.eqb_spec (cs_id c) id); [split; reflexivity | contradiction].
    + intros c' Hc' Hid'. rewrite Array_sort_perm in Hc'.
      destruct (Hmark c' Hc') as (c & Hc & ->). unfold mark in *.
      destruct (String.eqb_spec (cs_id c) id) as [E|E]; [|exact Hc].
      now cbn [cs_id marked_at] in Hid'.
    + intros Hts Ht Hvalid Hold.
      assert (Hvalid' : forall c, c ∈ map mark prev ->
                toTime Date_getTime (getLastInteracted (Some c)) <> None).
      { intros c' Hc'. destruct (Hmark c' Hc') as (c & Hc & ->). unfold mark.
        destruct (String.eqb (cs_id c) id); [|now apply Hvalid].
        rewrite (getLastInteracted_marked _ _ Hts). unfold toTime.
        rewrite Hts, Ht. discriminate. }
      pose proof (by_activity_valid Date_getTime _ Hvalid') as Hcmp.
      pose proof (Array_sort_sorted _ (activity_time Date_getTime) _ Hcmp) as Hsorted.
      pose proof (Array_sort_perm (by_activity Date_getTime) (map mark prev)) as Hperm.
      apply list_elem_of_fmap in Hin as (c0 & Hc0 & Hin0).
      assert (Hm : mark c0 ∈ map mark prev) by now apply list_elem_of_fmap_2.
      destruct (Array_sort (by_activity Date_getTime) (map mark prev)) as [|c rest] eqn:E.
      { rewrite <- Hperm in Hm. now apply elem_of_nil in Hm. }
      exists c, rest. split; [reflexivity|].
      destruct (String.eqb_spec (cs_id c) id) as [Hc|Hc]; [exact Hc|exfalso].
      assert (Hcin : c ∈ map mark prev).
      { rewrite <- Hperm. apply list_elem_of_here. }
      destruct (Hmark c Hcin) as (c1 & Hc1 & Hceq).
      assert (Hc1id : cs_id c1 <> id).
      { intros E1. apply Hc. rewrite Hceq. unfold mark.
        destruct (String.eqb_spec (cs_id c1) id); [exact E1 | contradiction]. }
      assert (c = c1).
      { rewrite Hceq. unfold mark.
        destruct (String.eqb_spec (cs_id c1) id); [contradiction | reflexivity]. }
      subst c1.
      pose proof (Hold c Hc1 Hc1id) as Hlt.
      pose proof (sorted_head_greatest (activity_time Date_getTime) c (map mark prev)
                    (c :: rest) Hsorted Hperm eq_refl (mark c0) Hm) as Hle.
      assert (Hk : activity_time Date_getTime (mark c0) = t).
      { unfold mark. rewrite <- Hc0, String.eqb_refl.
        unfold activity_time. rewrite (getLastInteracted_marked _ _ Hts).
        unfold toTime. now rewrite Hts, Ht. }
      lia.
Qed.

Lemma markConversationInteracted_witness :
  map cs_id
    (markConversationInteracted epoch_getTime "now" "a" (JSNum 400 0)
       [interacted "b" 50 300; listed "c" 200; listed "a" 100])
  ≡ₚ ["b"; "c"; "a"]
  /\ exists c rest,
       markConversationInteracted epoch_getTime "now" "a" (JSNum 400 0)
         [interacted "b" 50 300; listed "c" 200; listed "a" 100] = c :: rest
       /\ cs_id c = "a".
Proof.
  pose proof (markConversationInteracted_moves_to_front epoch_getTime "now" "a"
                (JSNum 400 0) [interacted "b" 50 300; listed "c" 200; listed "a" 100] 400)
    as (_ & H).
  destruct H as (Hp & _ & _ & Hfront); [discriminate | repeat constructor|].
  split; [exact Hp|].
  apply Hfront; [reflexivity | reflexivity | |].
  - intros c Hc.
    repeat (apply elem_of_cons in Hc as [->|Hc]; [discriminate|]).
    now apply elem_of_nil in Hc.
  - intros c Hc Hid.
    repeat (apply elem_of_cons in Hc as [->|Hc]; [try (now cbv); try contradiction|]).
    now apply elem_of_nil in Hc.
Defined.

(* ===================================================================== *)
(** * Deleting a conversation *)
(* ===================================================================== *)


Lemma core_adopt_council (entry : option conv_summary) (st : sidebar_state) :
  core (adopt_council entry st) = core st.
Proof.
  unfold adopt_council. destruct entry as [c|]; [|reflexivity].
  now destruct (truthy (council_key c)).
Qed.





(* ===================================================================== *)
(** * Renaming a conversation *)
(* ===================================================================== *)

Lemma retitled_ids (id newTitle : string) (convs : list conv_summary) :
  map cs_id (map (fun conv => if String.eqb (cs_id conv) id
                              then with_title newTitle conv else conv) convs)
  = map cs_id convs.
Proof.
  rewrite map_map. apply map_ext. intros c. now destruct (String.eqb (cs_id c) id).
Qed.

(** The rename dialog changes the title of the target and nothing else.  A
    title that is empty or all white space is turned down without a request.
    Otherwise the request carries the trimmed title, which has no white space
    at either end; when the server accepts, every entry of the target's id
    has that title and is otherwise as before, the other entries are as
    before, the order of the list is kept, the open conversation is retitled
    when it is the target and keeps its messages, and the dialog closes; when
    the server refuses, list and open conversation stay as they were and the
    dialog stays open with an error text. *)
Theorem submitRename_changes_only_the_title :
  forall (answer : js_error + unit) (e : js_error) (typed : string)
         (target : conv_summary) (st : sidebar_state),
    renameValue st = JSStr typed ->
    renameTarget st = Some target ->
    let newTitle := trim typed in
    (newTitle = "" ->
     submitRename answer st = Some ([], setRenameError "Title cannot be empty." st))
    /\ (newTitle <> "" ->
        trim newTitle = newTitle
        /\ exists renamed failed,
             submitRename (inr tt) st
             = Some ([renameConversation (cs_id target) newTitle], renamed)
             /\ submitRename (inl e) st
                = Some ([renameConversation (cs_id target) newTitle], failed)
             /\ renameTarget renamed = None
             /\ listed_ids renamed = listed_ids st
             /\ (forall i c, conversations (core st) !! i = Some c ->
                   conversations (core renamed) !! i
                   = Some (if String.eqb (cs_id c) (cs_id target)
                           then with_title newTitle c else c))
             /\ option_map conv_id (currentConversation (core renamed))
                = option_map conv_id (currentConversation (core st))
             /\ option_map messages (currentConversation (core renamed))
                = option_map messages (currentConversation (core st))
             /\ (forall conv, currentConversation (core st) = Some conv ->
                   exists conv', currentConversation (core renamed) = Some conv'
                     /\ conv_title conv'
                        = if String.eqb (conv_id conv) (cs_id target)
                          then JSStr newTitle else conv_title conv)
             /\ currentConversationId (core renamed) = currentConversationId (core st)
             /\ conversations (core failed) = conversations (core st)
             /\ currentConversation (core failed) = currentConversation (core st)
             /\ renameTarget failed = Some target
             /\ renameError failed = "Rename failed. Please try again.").
Proof.
  intros answer e typed target st Hv Ht newTitle.
  unfold submitRename. rewrite Hv, Ht. fold newTitle.
  split.
  - intros ->. reflexivity.
  - intros Hne. split; [apply trim_idem|].
    destruct (String.eqb_spec newTitle ""); [contradiction|].
    eexists _, _. split; [reflexivity|]. split; [reflexivity|].
    cbn [setRenameTarget with_core core renameTarget set_currentConversation
           setConversations conversations currentConversation currentConversationId
           setRenameError renameError console_error_of perform].
    split; [reflexivity|]. split; [apply retitled_ids|].
    split; [|split; [|split; [|split; [|repeat split; assumption]]]].
    + intros i c Hi. rewrite list_lookup_fmap, Hi. reflexivity.
    + unfold retitle_open. destruct (currentConversation (core st)) as [conv|];
        [|reflexivity].
      now destruct (String.eqb (conv_id conv) (cs_id target)).
    + unfold retitle_open. destruct (currentConversation (core st)) as [conv|];
        [|reflexivity].
      now destruct (String.eqb (conv_id conv) (cs_id target)).
    + intros conv ->. unfold retitle_open.
      destruct (String.eqb (conv_id conv) (cs_id target)); eexists; split; reflexivity.
Qed.

Lemma submitRename_witness :
  let st :=
    setRenameValue (JSStr "  Councils and chairs ")
      (handleRenameConversation (Some (listed "c" 200)) sample_sidebar) in
  exists renamed,
    submitRename (inr tt) st
    = Some ([renameConversation "c" "Councils and chairs"], renamed)
    /\ renameTarget renamed = None
    /\ listed_ids renamed = ["b"; "c"; "a"]
    /\ map title (conversations (core renamed))
       = [JSStr "Thread"; JSStr "Councils and chairs"; JSStr "Thread"].
Proof.
  intros st.
  pose proof (submitRename_changes_only_the_title (inr tt) (Error "") "  Councils and chairs "
                (listed "c" 200) st eq_refl eq_refl) as (_ & H).
  destruct H as (_ & renamed & failed & H1 & _ & H3 & H4 & _); [discriminate|].
  exists renamed. split; [exact H1|]. split; [exact H3|]. split; [exact H4|].
  injection H1 as <-. reflexivity.
Defined.

(* ===================================================================== *)
(** * Creating a conversation *)
(* ===================================================================== *)

Lemma str_or_nonempty (s d : string) : d <> "" -> str_or s d <> "".
Proof. intros Hd. unfold str_or. now apply str_nonempty_or. Qed.

Lemma js_or_truthy (a b : js_value) : truthy b = true -> truthy (js_or a b) = true.
Proof. intros Hb. unfold js_or. now destruct (truthy a) eqn:E. Qed.

Lemma preferred_council_nonempty (listed : list council) (selected : js_value) :
  preferred_council listed selected <> "".
Proof.
  unfold preferred_council. repeat apply str_or_nonempty. discriminate.
Qed.

(** The council asked for is the selected one when the list has it (under a
    key that is not empty). *)
Lemma preferred_council_selected (listed : list council) (k : string) :
  k <> "" -> k ∈ map c_key listed -> preferred_council listed (JSStr k) = k.
Proof.
  intros Hk Hin. unfold preferred_council.
  assert (E : exists c, find (is_key (JSStr k)) listed = Some c /\ c_key c = k).
  { induction listed as [|c rest IH]; [now apply elem_of_nil in Hin|].
    cbn [find is_key]. destruct (String.eqb_spec (c_key c) k) as [E|E]; [now exists c|].
    apply IH. cbn [map] in Hin. apply elem_of_cons in Hin as [Hin|Hin]; congruence. }
  destruct E as (c & -> & ->). unfold str_or.
  destruct (String.eqb_spec k ""); [contradiction | reflexivity].
Qed.

(** A new conversation is selected and opened, and goes to the head of the
    list.  The request asks for a council whose key is never empty, the
    selected one when the list of councils has it.  After the answer the new
    conversation is the selected and the open one, with no messages and with
    a council key that is set, the list holds it besides the old entries,
    and when the dates are valid and no entry is more recent than the clock
    it is the first entry, followed by the old ones in sorted order.  When
    the request fails, list, selection and open conversation stay as they
    were. *)
Theorem handleNewConversation_opens_the_new_thread :
  forall (Date_getTime : js_value -> option Z) (listed : list council) (now : string)
         (newConv : created_conversation) (e : js_error) (st : sidebar_state) (t : Z),
    let created := handleNewConversation Date_getTime listed now (inr newConv) st in
    let failed := handleNewConversation Date_getTime listed now (inl e) st in
    let newCouncilKey :=
      js_or (js_or (nc_council_key newConv)
               (JSStr (preferred_council listed (councilKey st)))) (JSStr "default") in
    created.1 = [createConversation (preferred_council listed (councilKey st))]
    /\ failed.1 = created.1
    /\ preferred_council listed (councilKey st) <> ""
    /\ (forall k, councilKey st = JSStr k -> k <> "" -> k ∈ map c_key listed ->
        preferred_council listed (councilKey st) = k)
    /\ currentConversationId (core created.2) = Some (nc_id newConv)
    /\ (exists conv, currentConversation (core created.2) = Some conv
                     /\ conv_id conv = nc_id newConv
                     /\ conv_title conv = nc_title newConv
                     /\ messages conv = []
                     /\ assoc_last "council_key" (conv_props conv) = Some newCouncilKey)
    /\ councilKey created.2 = newCouncilKey
    /\ truthy newCouncilKey = true
    /\ listed_ids created.2 ≡ₚ nc_id newConv :: listed_ids st
    /\ (now <> "" -> Date_getTime (JSStr now) = Some t ->
        (forall c, c ∈ conversations (core st) ->
           toTime Date_getTime (getLastInteracted (Some c)) <> None) ->
        (forall c, c ∈ conversations (core st) ->
           (activity_time Date_getTime c <= t)%Z) ->
        conversations (core created.2)
        = new_entry newConv newCouncilKey now
          :: sortConversationsByActivity Date_getTime (conversations (core st)))
    /\ conversations (core failed.2) = conversations (core st)
    /\ currentConversationId (core failed.2) = currentConversationId (core st)
    /\ currentConversation (core failed.2) = currentConversation (core st).
Proof.
  intros Date_getTime listed now newConv e st t created failed newCouncilKey.
  assert (Htruthy : truthy newCouncilKey = true).
  { subst newCouncilKey. now apply js_or_truthy. }
  assert (Hor : js_or newCouncilKey (JSStr "default") = newCouncilKey).
  { unfold js_or at 1. now rewrite Htruthy. }
  assert (Hcore : core created.2
            = set_currentConversation
                (Some {| conv_id := nc_id newConv;
                         conv_title := nc_title newConv;
                         conv_props :=
                           [("created_at", nc_created_at newConv);
                            ("council_key", newCouncilKey)];
                         messages := [] |})
                (set_currentConversationId (Some (nc_id newConv))
                   (setConversations
                      (sortConversationsByActivity Date_getTime
                         (new_entry newConv newCouncilKey now :: conversations (core st)))
                      (core st)))).
  { subst created. unfold handleNewConversation. fold newCouncilKey. rewrite Hor.
    cbn [snd]. now destruct (isMobile st). }
  split; [reflexivity|]. split; [reflexivity|].
  split; [apply preferred_council_nonempty|].
  split; [intros k -> Hk Hin; now apply preferred_council_selected|].
  rewrite Hcore.
  split; [reflexivity|].
  split; [eexists; repeat split|].
  split.
  { subst created. unfold handleNewConversation. fold newCouncilKey. rewrite Hor.
    cbn [snd]. now destruct (isMobile st). }
  split; [exact Htruthy|].
  split.
  { unfold listed_ids. rewrite Hcore.
    cbn [conversations set_currentConversation set_currentConversationId setConversations].
    unfold sortConversationsByActivity. now rewrite Array_sort_perm. }
  split; [|repeat split].
  intros Hnow Ht Hvalid Hle.
  cbn [conversations set_currentConversation set_currentConversationId setConversations].
  pose proof (truthy_text now Hnow) as Hts.
  assert (Hnew : getLastInteracted (Some (new_entry newConv newCouncilKey now)) = JSStr now).
  { now rewrite getLastInteracted_first. }
  assert (Hk : activity_time Date_getTime (new_entry newConv newCouncilKey now) = t).
  { unfold activity_time, toTime. now rewrite Hnew, Hts, Ht. }
  unfold sortConversationsByActivity.
  apply (Array_sort_head _ (activity_time Date_getTime)).
  - intros y Hy. rewrite Hk. unfold by_activity, activity_time.
    pose proof (Hvalid y Hy) as Hy'.
    destruct (toTime Date_getTime (getLastInteracted (Some y))); [|contradiction].
    rewrite Hnew. unfold toTime. now rewrite Hts, Ht.
  - intros y Hy. rewrite Hk. now apply Hle.
Qed.

Lemma handleNewConversation_witness :
  let newConv :=
    {| nc_id := "n"; nc_created_at := JSNum 390 0; nc_title := JSStr "New Conversation";
       nc_council_key := JSUndefined |} in
  let clock (v : js_value) :=
    match v with JSStr "now" => Some 400%Z | _ => epoch_getTime v end in
  let created :=
    handleNewConversation clock [] "now" (inr newConv) sample_sidebar in
  listed_ids created.2 = ["n"; "b"; "c"; "a"]
  /\ currentConversationId (core created.2) = Some "n"
  /\ councilKey created.2 = JSStr "default".
Proof.
  intros newConv clock created.
  pose proof (handleNewConversation_opens_the_new_thread clock [] "now" newConv
                (Error "") sample_sidebar 400)
    as (_ & _ & _ & _ & Hid & _ & Hkey & _ & _ & Hfirst & _).
  split; [|split; [exact Hid | exact Hkey]].
  unfold listed_ids. fold created in Hfirst. rewrite Hfirst; [reflexivity | discriminate | reflexivity | |].
  - intros c Hc.
    repeat (apply elem_of_cons in Hc as [->|Hc]; [discriminate|]).
    now apply elem_of_nil in Hc.
  - intros c Hc.
    repeat (apply elem_of_cons in Hc as [->|Hc]; [now cbv|]).
    now apply elem_of_nil in Hc.
Defined.

(* ===================================================================== *)
(** * Loading the list of conversations *)
(* ===================================================================== *)

Lemma merge_ids (Date_getTime : js_value -> option Z) (incoming previous : list conv_summary) :
  map cs_id (mergeConversationsWithRecency Date_getTime incoming previous)
  ≡ₚ map cs_id incoming.
Proof.
  unfold mergeConversationsWithRecency, sortConversationsByActivity.
  rewrite Array_sort_perm, map_map. reflexivity.
Qed.

Lemma merge_council_key (Date_getTime : js_value -> option Z)
  (incoming previous : list conv_summary) (c : conv_summary) :
  c ∈ mergeConversationsWithRecency Date_getTime incoming previous ->
  truthy (council_key c) = true.
Proof.
  unfold mergeConversationsWithRecency, sortConversationsByActivity.
  rewrite Array_sort_perm. intros Hc.
  apply list_elem_of_fmap in Hc as (c0 & -> & _).
  cbn [council_key normalize]. now apply js_or_truthy.
Qed.

(** After a load the list holds exactly the conversations that the server
    sent (in the earlier version, the list as it was sent): an entry that
    only the client knew is gone, and every entry has a council key.  What
    the load does to the selection depends on the selection of the render
    that called it, not on the one of the state that the answer arrives in.
    A load that was called with a conversation selected changes neither the
    selection nor the council, even when the server no longer lists that
    conversation.  A load that was called with none, as the one of the mount
    effect is, selects the first entry of the sorted list and adopts its
    council, whatever has been selected by the time the answer arrives; only
    an empty list leaves the selection alone.  The open conversation is not
    touched.  When the request fails the state is as before, but for the
    console. *)
Theorem loadConversations_takes_the_servers_list :
  forall (Date_getTime : js_value -> option Z) (convs : list conv_summary)
         (e : js_error) (selected_at_call : option string) (st : sidebar_state),
    let loaded := (loadConversations Date_getTime selected_at_call (inr convs) st).2 in
    let failed := (loadConversations Date_getTime selected_at_call (inl e) st).2 in
    let earlier := (Earlier_loadConversations selected_at_call (inr convs) st).2 in
    conversations (core loaded)
    = mergeConversationsWithRecency Date_getTime convs (conversations (core st))
    /\ listed_ids loaded ≡ₚ map cs_id convs
    /\ (forall c, c ∈ conversations (core loaded) -> truthy (council_key c) = true)
    /\ currentConversation (core loaded) = currentConversation (core st)
    /\ (no_selection selected_at_call = false ->
        currentConversationId (core loaded) = currentConversationId (core st)
        /\ councilKey loaded = councilKey st)
    /\ (no_selection selected_at_call = true ->
        (convs = [] ->
         currentConversationId (core loaded) = currentConversationId (core st)
         /\ councilKey loaded = councilKey st)
        /\ (convs <> [] ->
            exists first rest,
              conversations (core loaded) = first :: rest
              /\ currentConversationId (core loaded) = Some (cs_id first)
              /\ councilKey loaded = council_key first))
    /\ conversations (core failed) = conversations (core st)
    /\ currentConversationId (core failed) = currentConversationId (core st)
    /\ currentConversation (core failed) = currentConversation (core st)
    /\ councilKey failed = councilKey st
    /\ conversations (core earlier) = convs
    /\ currentConversationId (core earlier)
       = (if no_selection selected_at_call
          then match convs with
               | first :: _ => Some (cs_id first)
               | [] => currentConversationId (core st)
               end
          else currentConversationId (core st)).
Proof.
  intros Date_getTime convs e selected_at_call st loaded failed earlier.
  assert (Hearlier :
    conversations (core earlier) = convs
    /\ currentConversationId (core earlier)
       = (if no_selection selected_at_call
          then match convs with
               | first :: _ => Some (cs_id first)
               | [] => currentConversationId (core st)
               end
          else currentConversationId (core st))).
  { subst earlier. unfold Earlier_loadConversations. cbn [snd].
    destruct convs as [|first rest];
      [now destruct (no_selection selected_at_call)|].
    now destruct (no_selection selected_at_call). }
  destruct Hearlier as (He1 & He2).
  subst loaded failed. unfold loadConversations. cbn [snd].
  set (merged := mergeConversationsWithRecency Date_getTime convs (conversations (core st))).
  assert (Hids : map cs_id merged ≡ₚ map cs_id convs) by apply merge_ids.
  assert (Hkeys : forall c, c ∈ merged -> truthy (council_key c) = true).
  { intros c. apply merge_council_key. }
  assert (Hlist : forall X, conversations (core (with_core (setConversations merged) X))
                            = merged) by reflexivity.
  split; [apply Hlist|]. split; [unfold listed_ids; now rewrite Hlist|].
  split; [now rewrite Hlist|].
  split; [|split; [|split; [|repeat split; assumption]]].
  - destruct merged; [reflexivity|].
    now destruct (no_selection selected_at_call).
  - intros Hsel. rewrite Hsel. now destruct merged.
  - intros Hsel. rewrite Hsel. split.
    + intros ->. assert (merged = []) as ->; [|split; reflexivity].
      apply Permutation_nil_r in Hids. now destruct merged.
    + intros Hne. destruct merged as [|first rest] eqn:Em.
      * apply Permutation_sym, Permutation_nil_r in Hids. now destruct convs.
      * exists first, rest. split; [reflexivity|]. split; [reflexivity|].
        cbn [with_core councilKey setSelectedCouncilKey]. unfold js_or.
        now rewrite (Hkeys first) by apply list_elem_of_here.
Qed.

(** The load of the mount effect, answered after the user has selected the
    conversation [n]: the selection moves to [z]. *)
Lemma loadConversations_witness :
  let st := with_core (set_currentConversationId (Some "n")) sample_sidebar in
  let loaded :=
    (loadConversations epoch_getTime None (inr [listed "a" 100; listed "z" 500]) st).2 in
  no_selection None = true
  /\ currentConversationId (core st) = Some "n"
  /\ listed_ids loaded = ["z"; "a"]
  /\ currentConversationId (core loaded) = Some "z".
Proof.
  intros st loaded.
  pose proof (loadConversations_takes_the_servers_list epoch_getTime
                [listed "a" 100; listed "z" 500] (Error "") None st)
    as (_ & _ & _ & _ & _ & H & _).
  destruct (H eq_refl) as (_ & H2).
  destruct H2 as (first & rest & H3 & H4 & _); [discriminate|].
  split; [reflexivity|]. split; [reflexivity|]. split; [reflexivity|].
  fold loaded in H3, H4. rewrite H4. f_equal.
  assert (E : conversations (core loaded) = first :: rest) by exact H3.
  now injection E as <- _.
Defined.

(* ===================================================================== *)
(** * Loading one conversation *)
(* ===================================================================== *)

Lemma lookup_new_objects {A : Type} (h new : list A) :
  omap (fun a => (h ++ new) !! a) (seq (length h) (length new)) = new.
Proof.
  revert h. induction new as [|x new IH]; intros h; [reflexivity|].
  cbn [length seq omap list_omap].
  rewrite lookup_app_r by lia. rewrite Nat.sub_diag. cbn [lookup list_lookup].
  f_equal.
  replace (h ++ x :: new) with ((h ++ [x]) ++ new) by now rewrite <- app_assoc.
  replace (S (length h)) with (length (h ++ [x])) by (rewrite length_app; cbn; lia).
  apply IH.
Qed.

Lemma refreshed_ids (id : string) (conv : conv_summary) (convs : list conv_summary) :
  map cs_id (map (fun c => if String.eqb (cs_id c) id then refreshed conv c else c) convs)
  = map cs_id convs.
Proof.
  rewrite map_map. apply map_ext. intros c. now destruct (String.eqb (cs_id c) id).
Qed.

(** After a conversation is loaded the transcript shows the messages of the
    answer, one group each, in their order; the message objects that
    existed before are not written to; the list holds the same conversations
    as before, and every entry of another id is as it was; the selection is
    not changed.  A load that fails leaves all of this as it was. *)
Theorem loadConversation_shows_the_servers_messages :
  forall (Date_getTime : js_value -> option Z) (detail : conversation_detail)
         (e : js_error) (id : string) (st : sidebar_state),
    let loaded := (loadConversation Date_getTime (inr detail) id st).2 in
    let failed := (loadConversation Date_getTime (inl e) id st).2 in
    open_message_objects (core loaded) = cd_messages detail
    /\ MessagesView (open_message_objects (core loaded)) false
       = match cd_messages detail with
         | [] => [[EmptyStateView]]
         | _ :: _ => map message_group (cd_messages detail)
         end
    /\ (forall a m, store (core st) !! a = Some m -> store (core loaded) !! a = Some m)
    /\ listed_ids loaded ≡ₚ listed_ids st
    /\ (forall c, c ∈ conversations (core loaded) -> cs_id c <> id ->
        c ∈ conversations (core st))
    /\ currentConversationId (core loaded) = currentConversationId (core st)
    /\ (exists conv, currentConversation (core loaded) = Some conv
                     /\ conv_id conv = cs_id (cd_summary detail)
                     /\ conv_title conv = title (cd_summary detail))
    /\ store (core failed) = store (core st)
    /\ conversations (core failed) = conversations (core st)
    /\ currentConversation (core failed) = currentConversation (core st).
Proof.
  intros Date_getTime detail e id st loaded failed.
  set (conv := cd_summary detail).
  set (opened :=
         set_currentConversation
           (Some {| conv_id := cs_id conv;
                    conv_title := title conv;
                    conv_props := summary_props conv;
                    messages := seq (length (store (core st)))
                                  (length (cd_messages detail)) |})
           (set_store (store (core st) ++ cd_messages detail) (core st))).
  assert (Hcore : core loaded
            = setConversations
                (sortConversationsByActivity Date_getTime
                   (map (fun c => if String.eqb (cs_id c) id then refreshed conv c else c)
                      (conversations (core st))))
                opened).
  { subst loaded. unfold loadConversation. cbn [snd with_core core].
    now rewrite core_adopt_council. }
  unfold listed_ids. rewrite Hcore. subst failed. clear Hcore loaded.
  assert (Hobjects : open_message_objects opened = cd_messages detail).
  { unfold open_message_objects, open_messages. cbn. apply lookup_new_objects. }
  split; [exact Hobjects|]. split.
  { change (open_message_objects (setConversations ?l opened))
      with (open_message_objects opened).
    rewrite Hobjects. unfold MessagesView. now rewrite app_nil_r. }
  split.
  { intros a m Hm. cbn. apply lookup_app_l_Some. exact Hm. }
  split.
  { cbn [conversations setConversations].
    unfold sortConversationsByActivity. rewrite Array_sort_perm.
    now rewrite refreshed_ids. }
  split.
  { cbn [conversations setConversations].
    unfold sortConversationsByActivity. intros c Hc Hid.
    rewrite Array_sort_perm in Hc. apply list_elem_of_fmap in Hc as (c0 & -> & Hc0).
    destruct (String.eqb_spec (cs_id c0) id) as [E|E]; [|exact Hc0].
    now cbn [cs_id refreshed] in Hid. }
  split; [reflexivity|]. split; [eexists; repeat split|]. repeat split.
Qed.

Lemma loadConversation_witness :
  let detail :=
    {| cd_summary := interacted "c" 200 500;
       cd_messages := [userMessage "Who chairs?"; assistantMessage] |} in
  let loaded := (loadConversation epoch_getTime (inr detail) "c" sample_sidebar).2 in
  store (core sample_sidebar) !! 0 = Some (userMessage "Earlier question")
  /\ store (core loaded) !! 0 = Some (userMessage "Earlier question")
  /\ open_message_objects (core loaded) = [userMessage "Who chairs?"; assistantMessage]
  /\ listed_ids loaded = ["c"; "b"; "a"].
Proof.
  intros detail loaded.
  pose proof (loadConversation_shows_the_servers_messages epoch_getTime detail (Error "")
                "c" sample_sidebar) as (H1 & _ & H3 & _).
  split; [reflexivity|]. split; [exact (H3 0 _ eq_refl)|].
  split; [exact H1 | reflexivity].
Defined.

(* ===================================================================== *)
(** * The roster of models *)
(* ===================================================================== *)

Lemma Set_add_elem (k x : string) (s : list string) :
  x ∈ Set_add k s <-> x = k \/ x ∈ s.
Proof.
  unfold Set_add. destruct (bool_decide_reflect (k ∈ s)) as [Hk|Hk].
  - split; [now right | intros [->|H]; assumption].
  - rewrite elem_of_app, list_elem_of_singleton. tauto.
Qed.

Lemma Set_add_NoDup (k : string) (s : list string) : NoDup s -> NoDup (Set_add k s).
Proof.
  intros Hs. unfold Set_add. destruct (bool_decide_reflect (k ∈ s)) as [Hk|Hk];
    [assumption|].
  apply NoDup_app. split; [assumption|]. split; [|apply NoDup_singleton].
  intros x Hx Hx'. apply list_elem_of_singleton in Hx'. now subst x.
Qed.

Lemma foldl_Set_add (l acc : list string) :
  let s := foldl (fun s k => Set_add k s) acc l in
  (NoDup acc -> NoDup s)
  /\ (forall x, x ∈ s <-> x ∈ acc \/ x ∈ l)
  /\ (NoDup (acc ++ l) -> s = acc ++ l).
Proof.
  revert acc. induction l as [|k l IH]; intros acc; cbn [foldl].
  - split; [easy|]. split; [|now rewrite app_nil_r].
    intros x. rewrite elem_of_nil. tauto.
  - destruct (IH (Set_add k acc)) as (H1 & H2 & H3).
    split; [|split].
    + intros Hacc. apply H1. now apply Set_add_NoDup.
    + intros x. rewrite H2, Set_add_elem, elem_of_cons. tauto.
    + intros Hnd.
      assert (Hk : k ∉ acc).
      { apply NoDup_app in Hnd as (_ & Hd & _). intros Hin.
        apply (Hd k Hin). apply list_elem_of_here. }
      assert (E : Set_add k acc = acc ++ [k]).
      { unfold Set_add. now rewrite bool_decide_eq_false_2. }
      rewrite E in H3 |- *. rewrite <- app_assoc in H3. cbn [app] in H3.
      now apply H3.
Qed.

Lemma cleanedAvailable_clean (models : list string) :
  clean_roster (cleanedAvailable models).
Proof.
  unfold cleanedAvailable, Set_of, clean_roster.
  destruct (foldl_Set_add (filter (fun m => m <> "") (map trim models)) [])
    as (H1 & H2 & _).
  split; [apply H1; constructor|].
  apply Forall_forall. intros m Hm. apply H2 in Hm as [Hm|Hm];
    [now apply elem_of_nil in Hm|].
  apply list_elem_of_filter in Hm as (Hne & Hm).
  apply list_elem_of_fmap in Hm as (m0 & -> & _).
  split; [exact Hne | apply trim_idem].
Qed.

Lemma cleanedAvailable_fixed (models : list string) :
  clean_roster models -> cleanedAvailable models = models.
Proof.
  intros (Hnd & Hall). unfold cleanedAvailable, Set_of.
  assert (E1 : map trim models = models).
  { induction Hall as [|m l (_ & Hm) _ IH]; [reflexivity|].
    cbn [map]. rewrite Hm, IH; [reflexivity|]. now apply NoDup_cons in Hnd. }
  assert (E2 : filter (fun m => m <> "") models = models).
  { clear E1 Hnd. induction Hall as [|m l (Hm & _) _ IH]; [reflexivity|].
    now rewrite filter_cons_True, IH by exact Hm. }
  rewrite E1, E2.
  destruct (foldl_Set_add models []) as (_ & _ & H3). now apply H3.
Qed.

Lemma sent_settings_last (calls : list api_call) (p : settings_payload) :
  sent_settings calls = Some p <-> last calls = Some (updateSettings p).
Proof.
  unfold sent_settings. destruct (last calls) as [[q|k q| |q]|]; split;
    try discriminate; now intros [= ->].
Qed.

Lemma handleSaveSettings_sent_settings (srv : server) (st : settings_state)
  (p : settings_payload) :
  sent_settings (handleSaveSettings srv st).1 = Some p ->
  s_available_models p = Some (cleanedAvailable (availableModels st))
  /\ openrouter_api_key p = api_key_field st.
Proof.
  rewrite sent_settings_last. unfold handleSaveSettings.
  cbn [settingsForm setCouncilError setSettingsError availableModels].
  destruct (length (council_models (settingsForm st)) =? 0); [discriminate|].
  destruct (4 <? length (council_models (settingsForm st))); [discriminate|].
  destruct (String.eqb (chairman_model (settingsForm st)) ""); [discriminate|].
  assert (Hfirst : forall x, last [edited_council_request x] <> Some (updateSettings p)).
  { intros x. unfold edited_council_request. cbn.
    destruct (isNewCouncil x); discriminate. }
  assert (Hdirty : forall x ups calls err,
            send_dirty srv ups = (calls, err) ->
            last (x :: calls) = Some (updateSettings p) -> last [x] = Some (updateSettings p)).
  { intros x ups. revert x. induction ups as [|[key q] ups IH]; intros x calls err.
    - cbn. now intros [= <- _].
    - cbn [send_dirty]. destruct (answer_dirty srv key).
      + intros [= <- _]. cbn. discriminate.
      + destruct (send_dirty srv ups) as [calls' err'] eqn:E.
        intros [= <- _]. rewrite last_cons_cons. intros H.
        apply (IH _ _ _ eq_refl) in H. discriminate. }
  destruct (answer_save srv) as [e|saved].
  { cbn [fst]. intros H. now apply Hfirst in H. }
  destruct (send_dirty srv _) as [dirty_calls [e|]] eqn:Ed.
  { cbn [fst]. intros H. apply (Hdirty _ _ _ _ Ed) in H. now apply Hfirst in H. }
  destruct (answer_list srv) as [e|latest].
  { cbn [fst]. rewrite app_comm_cons, last_snoc. discriminate. }
  assert (Hlast : forall x (l : list api_call) y z, last (x :: l ++ [y; z]) = Some z).
  { intros x l y z. rewrite app_comm_cons.
    replace ((x :: l) ++ [y; z]) with (((x :: l) ++ [y]) ++ [z])
      by now rewrite <- app_assoc.
    apply last_snoc. }
  destruct (answer_settings srv); cbn [fst]; rewrite Hlast;
    intros [= <-]; split; reflexivity.
Qed.

(** The roster of available models stays clean.  [handleAddModel] adds the
    trimmed input at the end and empties the input, or, when the trimmed
    input is empty or listed already, leaves the roster as it is and shows an
    error; so a roster without doubles, empty entries and padded entries has
    none afterwards, and [handleRemoveModel] keeps it so too.  The list that a
    save sends is clean whatever the roster holds, and it is the roster itself
    when that is clean. *)
Theorem roster_stays_clean :
  forall (st : settings_state) (model : string) (srv : server) (p : settings_payload),
    let added := handleAddModel st in
    let typed := trim (newModelInput st) in
    (availableModels added = availableModels st /\ addModelError added <> ""
     /\ newModelInput added = newModelInput st
     /\ (typed = "" \/ typed ∈ availableModels st)
     \/ availableModels added = availableModels st ++ [typed]
        /\ addModelError added = "" /\ newModelInput added = ""
        /\ typed <> "" /\ (typed ∉ availableModels st))
    /\ (clean_roster (availableModels st) -> clean_roster (availableModels added))
    /\ (clean_roster (availableModels st) ->
        clean_roster (availableModels (handleRemoveModel model st)))
    /\ clean_roster (cleanedAvailable (availableModels st))
    /\ (clean_roster (availableModels st) ->
        cleanedAvailable (availableModels st) = availableModels st)
    /\ (sent_settings (handleSaveSettings srv st).1 = Some p ->
        s_available_models p = Some (cleanedAvailable (availableModels st))).
Proof.
  intros st model srv p added typed.
  assert (Hcases :
    availableModels added = availableModels st /\ addModelError added <> ""
    /\ newModelInput added = newModelInput st
    /\ (typed = "" \/ typed ∈ availableModels st)
    \/ availableModels added = availableModels st ++ [typed]
       /\ addModelError added = "" /\ newModelInput added = ""
       /\ typed <> "" /\ (typed ∉ availableModels st)).
  { subst added. unfold handleAddModel. fold typed.
    destruct (String.eqb_spec typed "") as [E|E].
    - left. cbn. repeat split; [discriminate | now left].
    - destruct (includes_model (availableModels st) typed) eqn:Ei.
      + left. cbn. repeat split; [discriminate|].
        right. now apply includes_model_iff.
      + right. cbn. repeat split; [exact E|].
        intros Hin. apply includes_model_iff in Hin. congruence. }
  split; [exact Hcases|]. split; [|split; [|split; [|split]]].
  - intros (Hnd & Hall).
    destruct Hcases as [(-> & _)|(-> & _ & _ & Hne & Hnin)]; [now split|].
    split.
    + apply NoDup_app. split; [assumption|]. split; [|apply NoDup_singleton].
      intros x Hx Hx'. apply list_elem_of_singleton in Hx'. now subst x.
    + apply Forall_app. split; [assumption|].
      constructor; [|constructor]. split; [exact Hne | apply trim_idem].
  - intros (Hnd & Hall).
    destruct (handleRemoveModel_cases model st) as [(c & _ & _ & _ & ->)|(Hfree & _)];
      [now split|].
    unfold handleRemoveModel. rewrite Hfree. cbn [availableModels]. unfold without_model.
    split; [now apply NoDup_filter|].
    rewrite Forall_forall in Hall |- *. intros m Hm.
    apply list_elem_of_filter in Hm as (_ & Hm). now apply Hall.
  - apply cleanedAvailable_clean.
  - apply cleanedAvailable_fixed.
  - intros H. now apply handleSaveSettings_sent_settings in H.
Qed.

Lemma roster_witness :
  let st := set_roster ["openai/gpt-5"; "google/gemini"] "  x-ai/grok " "" sample_settings in
  clean_roster (availableModels st)
  /\ availableModels (handleAddModel st) = ["openai/gpt-5"; "google/gemini"; "x-ai/grok"]
  /\ clean_roster (availableModels (handleAddModel st))
  /\ availableModels (handleAddModel (set_roster (availableModels (handleAddModel st))
                                        "x-ai/grok" "" st))
     = ["openai/gpt-5"; "google/gemini"; "x-ai/grok"]
  /\ cleanedAvailable [" a "; ""; "b"; "a"] = ["a"; "b"].
Proof.
  intros st.
  assert (Hclean : clean_roster (availableModels st)).
  { split; [|repeat constructor; discriminate].
    repeat constructor; rewrite ?not_elem_of_cons, ?elem_of_nil; intuition discriminate. }
  pose proof (roster_stays_clean st "" (accepting_server None [])
                {| openrouter_api_key := None; s_council_models := [];
                   s_chairman_model := ""; s_available_models := None |})
    as (_ & H & _).
  split; [exact Hclean|]. split; [reflexivity|]. split; [exact (H Hclean)|].
  split; reflexivity.
Defined.

(* ===================================================================== *)
(** * Ticking and unticking a model *)
(* ===================================================================== *)

Lemma includes_model_false (models : list string) (model : string) :
  includes_model models model = false <-> model ∉ models.
Proof. unfold includes_model. apply bool_decide_eq_false. Qed.

Lemma without_model_app_new (model : string) (models : list string) :
  model ∉ models -> without_model model (models ++ [model]) = models.
Proof.
  intros Hnin. unfold without_model. rewrite filter_app.
  fold (without_model model models). rewrite without_model_id by exact Hnin.
  rewrite filter_cons_False by (intros H; now apply H). apply app_nil_r.
Qed.

Lemma without_model_NoDup_length (model : string) (models : list string) :
  NoDup models -> model ∈ models ->
  S (length (without_model model models)) = length models.
Proof.
  unfold without_model. induction models as [|m ms IH]; intros Hnd Hin;
    [now apply elem_of_nil in Hin|].
  apply NoDup_cons in Hnd as (Hm & Hnd).
  destruct (decide (m = model)) as [->|Hne].
  - rewrite filter_cons_False by (intros H; now apply H).
    fold (without_model model ms). now rewrite without_model_id.
  - rewrite filter_cons_True by exact Hne. cbn [length]. f_equal.
    apply IH; [exact Hnd|]. apply elem_of_cons in Hin as [Hin|Hin]; congruence.
Qed.

Lemma handleToggleModel_tick (model : string) (prev : settings_form) :
  model ∉ council_models prev -> length (council_models prev) < 4 ->
  handleToggleModel model prev
  = {| council_models := council_models prev ++ [model];
       chairman_model := next_chairman (council_models prev ++ [model])
                           (chairman_model prev) |}.
Proof.
  intros Hnin Hlen. unfold handleToggleModel.
  apply includes_model_false in Hnin. rewrite Hnin. cbn [negb andb].
  apply Nat.leb_gt in Hlen. now rewrite Hlen.
Qed.

Lemma handleToggleModel_untick (model : string) (prev : settings_form) :
  model ∈ council_models prev ->
  handleToggleModel model prev
  = {| council_models := without_model model (council_models prev);
       chairman_model := next_chairman (without_model model (council_models prev))
                           (chairman_model prev) |}.
Proof.
  intros Hin. unfold handleToggleModel.
  apply includes_model_iff in Hin. now rewrite Hin.
Qed.

(** Ticking a model and unticking it again gives the selection back.  For a
    model that is not selected, with room left, the two steps restore the
    list of members, and the whole form when its chairman was a member.
    Unticking a selected model takes exactly that model out; ticking it
    again, for a selection of at most four, puts it at the end, so the
    members are the same but for their order.  A selection without doubles
    has none after a step. *)
Theorem handleToggleModel_round_trip :
  forall (model : string) (prev : settings_form),
    (NoDup (council_models prev) ->
     NoDup (council_models (handleToggleModel model prev)))
    /\ (model ∉ council_models prev -> length (council_models prev) < 4 ->
        council_models (handleToggleModel model (handleToggleModel model prev))
        = council_models prev
        /\ (chairman_model prev ∈ council_models prev ->
            handleToggleModel model (handleToggleModel model prev) = prev))
    /\ (model ∈ council_models prev -> NoDup (council_models prev) ->
        (model ∉ council_models (handleToggleModel model prev))
        /\ S (length (council_models (handleToggleModel model prev)))
           = length (council_models prev)
        /\ (length (council_models prev) <= 4 ->
            council_models (handleToggleModel model (handleToggleModel model prev))
            = without_model model (council_models prev) ++ [model]
            /\ council_models (handleToggleModel model (handleToggleModel model prev))
               ≡ₚ council_models prev)).
Proof.
  intros model prev. split; [|split].
  - intros Hnd.
    destruct (handleToggleModel_cases model prev) as [(-> & _)|(_ & -> & _)];
      [exact Hnd|].
    destruct (includes_model (council_models prev) model) eqn:E.
    + now apply NoDup_filter.
    + apply includes_model_false in E.
      apply NoDup_app. split; [exact Hnd|]. split; [|apply NoDup_singleton].
      intros x Hx Hx'. apply list_elem_of_singleton in Hx'. now subst x.
  - intros Hnin Hlen. rewrite (handleToggleModel_tick _ _ Hnin Hlen).
    rewrite handleToggleModel_untick
      by (cbn [council_models]; rewrite elem_of_app, list_elem_of_singleton; now right).
    cbn [council_models chairman_model]. rewrite (without_model_app_new _ _ Hnin).
    split; [reflexivity|]. intros Hchair.
    assert (E1 : next_chairman (council_models prev ++ [model]) (chairman_model prev)
                 = chairman_model prev).
    { unfold next_chairman.
      assert (Hin : chairman_model prev ∈ council_models prev ++ [model])
        by (rewrite elem_of_app; now left).
      apply includes_model_iff in Hin. now rewrite Hin. }
    rewrite E1. unfold next_chairman.
    apply includes_model_iff in Hchair. rewrite Hchair. now destruct prev.
  - intros Hin Hnd. rewrite (handleToggleModel_untick _ _ Hin).
    cbn [council_models].
    pose proof (without_model_NoDup_length model _ Hnd Hin) as Hlen.
    split; [apply without_model_not_in|]. split; [exact Hlen|].
    intros H4. rewrite handleToggleModel_tick;
      [|cbn [council_models]; apply without_model_not_in | cbn [council_models]; lia].
    cbn [council_models]. split; [reflexivity|].
    clear Hlen H4. unfold without_model.
    induction (council_models prev) as [|m ms IH]; [now apply elem_of_nil in Hin|].
    apply NoDup_cons in Hnd as (Hm & Hnd).
    destruct (decide (m = model)) as [->|Hne].
    + rewrite filter_cons_False by (intros H; now apply H).
      fold (without_model model ms). rewrite without_model_id by exact Hm.
      symmetry. apply Permutation_cons_append.
    + rewrite filter_cons_True by exact Hne. cbn [app]. constructor.
      apply IH; [|exact Hnd]. apply elem_of_cons in Hin as [Hin|Hin]; congruence.
Qed.

Lemma handleToggleModel_witness :
  let form := {| council_models := ["openai/gpt-5"; "google/gemini"];
                 chairman_model := "google/gemini" |} in
  handleToggleModel "x-ai/grok" (handleToggleModel "x-ai/grok" form) = form
  /\ council_models (handleToggleModel "openai/gpt-5" (handleToggleModel "openai/gpt-5" form))
     = ["google/gemini"; "openai/gpt-5"].
Proof.
  intros form.
  pose proof (handleToggleModel_round_trip "x-ai/grok" form) as (_ & H & _).
  pose proof (handleToggleModel_round_trip "openai/gpt-5" form) as (_ & _ & H').
  split.
  - apply H; [|cbn; lia|cbn; apply list_elem_of_further, list_elem_of_here].
    cbn. rewrite !not_elem_of_cons, elem_of_nil. intuition discriminate.
  - destruct H' as (_ & _ & H'); [apply list_elem_of_here| |].
    + repeat constructor; rewrite ?not_elem_of_cons, ?elem_of_nil; intuition discriminate.
    + destruct H' as (H' & _); [cbn; lia|]. rewrite H'. reflexivity.
Defined.

(* ===================================================================== *)
(** * Removing a model from the roster *)
(* ===================================================================== *)

Lemma find_none_all {A : Type} (f : A -> bool) (l : list A) (x : A) :
  find f l = None -> x ∈ l -> f x = false.
Proof.
  intros Hf Hx. apply list_elem_of_In in Hx. exact (find_none f l Hf x Hx).
Qed.

Lemma trim_council_key (model : string) (c : council) :
  c_key (trim_council model c) = c_key c /\ c_name (trim_council model c) = c_name c.
Proof.
  unfold trim_council. now destruct (includes_model (c_models c) model).
Qed.

Lemma trim_council_models (model : string) (c : council) :
  c_models (trim_council model c) = without_model model (c_models c).
Proof.
  unfold trim_council. destruct (includes_model (c_models c) model) eqn:E;
    cbn [negb]; [reflexivity|].
  apply includes_model_false in E. now rewrite without_model_id.
Qed.

(** A removal that goes ahead takes the model out everywhere: out of the
    roster, out of the form, and out of every listed council, whose keys and
    names stay as they are; each listed council that had the model is marked
    dirty.  It goes ahead only when it empties no council other than the
    edited one: every other council that had members, listed without
    doubles, still has one.  A removal that is blocked changes neither
    roster, form nor councils and shows an error that names the council. *)
Theorem handleRemoveModel_takes_the_model_out :
  forall (model : string) (st : settings_state),
    let removed := handleRemoveModel model st in
    (find (blocking (editingCouncilKey st) model) (councils st) = None ->
     (model ∉ availableModels removed)
     /\ (model ∉ council_models (settingsForm removed))
     /\ (forall c, c ∈ councils removed -> model ∉ c_models c)
     /\ map c_key (councils removed) = map c_key (councils st)
     /\ map c_name (councils removed) = map c_name (councils st)
     /\ (forall c, c ∈ councils st -> model ∈ c_models c ->
           c_key c ∈ dirtyCouncils removed)
     /\ (forall k, k ∈ dirtyCouncils st -> k ∈ dirtyCouncils removed)
     /\ (forall c, c ∈ councils st -> c_key c <> editingCouncilKey st ->
           NoDup (c_models c) -> c_models c <> [] ->
           c_models (trim_council model c) <> [])
     /\ councilError removed = "")
    /\ (forall c, find (blocking (editingCouncilKey st) model) (councils st) = Some c ->
        c ∈ councils st /\ c_key c <> editingCouncilKey st /\ c_models c = [model]
        /\ availableModels removed = availableModels st
        /\ settingsForm removed = settingsForm st
        /\ councils removed = councils st
        /\ dirtyCouncils removed = dirtyCouncils st
        /\ councilError removed
           = c_name c +:+ " would have no members if you remove " +:+ model
             +:+ ". Add another model first.").
Proof.
  intros model st removed. split.
  - intros Hfree.
    destruct (handleRemoveModel_cases model st)
      as [(c & Hc & _)|(_ & _ & Hform & _ & Hcs)]; [congruence|].
    fold removed in Hform, Hcs.
    assert (Hdirty : dirtyCouncils removed
              = let merged := foldl (fun s k => Set_add k s) (dirtyCouncils st)
                                (changed_keys model (councils st)) in
                if includes_model (council_models (settingsForm st)) model
                   && negb (isNewCouncil st)
                then Set_add (editingCouncilKey st) merged else merged).
    { subst removed. unfold handleRemoveModel. now rewrite Hfree. }
    assert (Hmerged : forall k,
              k ∈ dirtyCouncils st \/ k ∈ changed_keys model (councils st) ->
              k ∈ dirtyCouncils removed).
    { intros k Hk. rewrite Hdirty. cbv zeta.
      destruct (foldl_Set_add (changed_keys model (councils st)) (dirtyCouncils st))
        as (_ & H2 & _).
      apply H2 in Hk.
      destruct (includes_model _ _ && negb _); [apply Set_add_elem; now right | exact Hk]. }
    split; [|split; [|split; [|split; [|split; [|split; [|split; [|split]]]]]]].
    + subst removed. unfold handleRemoveModel. rewrite Hfree. cbn [availableModels].
      apply without_model_not_in.
    + rewrite Hform. apply without_model_not_in.
    + intros c Hc. rewrite Hcs in Hc. apply list_elem_of_fmap in Hc as (c0 & -> & _).
      rewrite trim_council_models. apply without_model_not_in.
    + rewrite Hcs, map_map. apply map_ext. intros c. apply trim_council_key.
    + rewrite Hcs, map_map. apply map_ext. intros c. apply trim_council_key.
    + intros c Hc Hm. apply Hmerged. right. unfold changed_keys.
      apply list_elem_of_fmap. exists c. split; [reflexivity|].
      apply list_elem_of_filter. split; [now apply includes_model_iff | exact Hc].
    + intros k Hk. apply Hmerged. now left.
    + intros c Hc Hkey Hnd Hne. rewrite trim_council_models.
      pose proof (find_none_all _ _ c Hfree Hc) as Hb. unfold blocking in Hb.
      destruct (String.eqb_spec (c_key c) (editingCouncilKey st)); [contradiction|].
      cbn [negb andb] in Hb.
      destruct (includes_model (c_models c) model) eqn:Ei; cbn [andb] in Hb.
      * apply includes_model_iff in Ei. apply Nat.leb_gt in Hb.
        pose proof (without_model_NoDup_length model _ Hnd Ei) as Hlen.
        intros E. rewrite E in Hlen. cbn in Hlen. lia.
      * apply includes_model_false in Ei. now rewrite without_model_id.
    + subst removed. unfold handleRemoveModel. now rewrite Hfree.
  - intros c Hc.
    pose proof (find_some _ _ Hc) as (Hin & Hb).
    apply list_elem_of_In in Hin. unfold blocking in Hb.
    apply andb_prop in Hb as (Hb & Hlen). apply andb_prop in Hb as (Hkey & Hm).
    apply negb_true_iff, String.eqb_neq in Hkey.
    apply includes_model_iff in Hm. apply Nat.leb_le in Hlen.
    subst removed. unfold handleRemoveModel. rewrite Hc. cbn.
    repeat split; try assumption.
    destruct (c_models c) as [|m [|m' ms]]; [now apply elem_of_nil in Hm| |cbn in Hlen; lia].
    apply list_elem_of_singleton in Hm. now subst m.
Qed.

Lemma handleRemoveModel_witness :
  let removed := handleRemoveModel "x-ai/grok" sample_settings in
  availableModels removed = ["openai/gpt-5"; "google/gemini"]
  /\ map c_models (councils removed) = [["openai/gpt-5"]; ["google/gemini"]]
  /\ dirtyCouncils removed = ["research"]
  /\ councilError (handleRemoveModel "google/gemini"
                     (setCouncils
                        [ {| c_key := "default"; c_name := "General";
                             c_models := ["openai/gpt-5"]; c_chairman := "openai/gpt-5" |};
                          {| c_key := "solo"; c_name := "Solo";
                             c_models := ["google/gemini"];
                             c_chairman := "google/gemini" |} ]
                        sample_settings))
     = "Solo would have no members if you remove google/gemini. Add another model first.".
Proof.
  intros removed.
  pose proof (handleRemoveModel_takes_the_model_out "x-ai/grok" sample_settings)
    as (H & _).
  specialize (H eq_refl) as (_ & _ & _ & _ & _ & Hd & _).
  pose proof (handleRemoveModel_takes_the_model_out "google/gemini"
                (setCouncils
                   [ {| c_key := "default"; c_name := "General";
                        c_models := ["openai/gpt-5"]; c_chairman := "openai/gpt-5" |};
                     {| c_key := "solo"; c_name := "Solo";
                        c_models := ["google/gemini"];
                        c_chairman := "google/gemini" |} ]
                   sample_settings)) as (_ & H').
  specialize (H' _ eq_refl) as (_ & _ & _ & _ & _ & _ & _ & He).
  split; [reflexivity|]. split; [reflexivity|]. split; [reflexivity|].
  rewrite He. reflexivity.
Defined.

(* ===================================================================== *)
(** * Saving the settings: failure and success *)
(* ===================================================================== *)


(** What a state is when only its two error texts may differ from [st]. *)
Lemma setSettingsError_frame (text : string) (st : settings_state) :
  let st' := setSettingsError text (setCouncilError "" (setSettingsError "" st)) in
  settingsError st' = text
  /\ settingsForm st' = settingsForm st
  /\ isSettingsOpen st' = isSettingsOpen st
  /\ editingCouncilKey st' = editingCouncilKey st
  /\ editingCouncilName st' = editingCouncilName st
  /\ isNewCouncil st' = isNewCouncil st
  /\ apiKeyInput st' = apiKeyInput st
  /\ removeApiKey st' = removeApiKey st
  /\ availableModels st' = availableModels st
  /\ selectedCouncilKey st' = selectedCouncilKey st
  /\ updateStatus st' = updateStatus st.
Proof. repeat split. Qed.


(* ===================================================================== *)
(** * Deleting a council, and loading the councils *)
(* ===================================================================== *)

Lemma find_key_spec (key : string) (listed : list council) :
  match find (fun c => String.eqb (c_key c) key) listed with
  | Some c => c ∈ listed /\ c_key c = key
  | None => key ∉ map c_key listed
  end.
Proof.
  induction listed as [|c rest IH]; cbn [find map].
  - apply not_elem_of_nil.
  - destruct (String.eqb_spec (c_key c) key) as [E|E].
    + split; [apply list_elem_of_here | exact E].
    + destruct (find (fun c => String.eqb (c_key c) key) rest) as [c'|].
      * destruct IH as (Hin & Hk). split; [now apply list_elem_of_further | exact Hk].
      * rewrite not_elem_of_cons. split; [congruence | exact IH].
Qed.

Lemma fallback_council_listed (latest : list council) (c : council) :
  fallback_council latest = Some c -> c ∈ latest.
Proof.
  unfold fallback_council.
  pose proof (find_key_spec "default" latest) as H.
  destruct (find (fun c => String.eqb (c_key c) "default") latest) as [d|].
  - intros [= <-]. apply H.
  - destruct latest as [|c0 rest]; [discriminate|]. intros [= <-]. apply list_elem_of_here.
Qed.

(** The default council and a council that was never saved are not deleted:
    for them no request is sent, and neither is one when the user declines.
    Every delete request is for the edited council.  After a deletion that
    went through, the councils are those of the server's latest list and the
    error is cleared; the dialog moves on to the default council of that
    list, or to its first council, showing the members that the list of
    before the deletion had under that key; and a selection of the deleted
    council moves to that fallback.  When the fallback's key is not in the
    list of before, the dialog stays on the council it had.  A request that
    fails leaves councils and form as they were and shows an error. *)
Theorem handleDeleteCouncil_spares_the_default :
  forall (confirmed : bool) (answer_delete : js_error + unit)
         (answer_latest : js_error + list council) (latest : list council)
         (st : settings_state),
    let result := handleDeleteCouncil confirmed answer_delete answer_latest st in
    let deleted := (handleDeleteCouncil true (inr tt) (inr latest) st).2 in
    (forall key, deleteCouncil key ∈ result.1 ->
       key = editingCouncilKey st /\ key <> "default"
       /\ isNewCouncil st = false /\ confirmed = true)
    /\ (result.1 = [] \/ (exists e, answer_delete = inl e)
        \/ (exists e, answer_latest = inl e) ->
        councils result.2 = councils st
        /\ settingsForm result.2 = settingsForm st
        /\ editingCouncilKey result.2 = editingCouncilKey st
        /\ selectedCouncilKey result.2 = selectedCouncilKey st)
    /\ (isNewCouncil st = false -> editingCouncilKey st <> "default" ->
        councils deleted = latest
        /\ councilError deleted = ""
        /\ (latest = [] ->
            editingCouncilKey deleted = "default"
            /\ settingsForm deleted = {| council_models := []; chairman_model := "" |}
            /\ selectedCouncilKey deleted = selectedCouncilKey st)
        /\ (forall fallback, fallback_council latest = Some fallback ->
            fallback ∈ latest
            /\ selectedCouncilKey deleted
               = (if String.eqb (selectedCouncilKey st) (editingCouncilKey st)
                  then c_key fallback else selectedCouncilKey st)
            /\ (forall old,
                  find (fun c => String.eqb (c_key c) (c_key fallback)) (councils st)
                  = Some old ->
                  editingCouncilKey deleted = c_key fallback
                  /\ editingCouncilName deleted = c_name old
                  /\ settingsForm deleted
                     = {| council_models := c_models old;
                          chairman_model := c_chairman old |}
                  /\ isNewCouncil deleted = false)
            /\ ((c_key fallback ∉ map c_key (councils st)) ->
                editingCouncilKey deleted = editingCouncilKey st
                /\ settingsForm deleted = settingsForm st))).
Proof.
  intros confirmed answer_delete answer_latest latest st result deleted.
  subst result deleted. unfold handleDeleteCouncil.
  destruct (isNewCouncil st) eqn:Enew.
  { split; [intros key H; now apply elem_of_nil in H|].
    split; [intros _; repeat split | discriminate]. }
  destruct (String.eqb_spec (editingCouncilKey st) "default") as [Edef|Edef].
  { split; [intros key H; now apply elem_of_nil in H|].
    split; [intros _; repeat split | contradiction]. }
  cbn [negb].
  assert (Hdeleted :
    councils (after_council_deleted latest st) = latest
    /\ councilError (after_council_deleted latest st) = ""
    /\ (latest = [] ->
        editingCouncilKey (after_council_deleted latest st) = "default"
        /\ settingsForm (after_council_deleted latest st)
           = {| council_models := []; chairman_model := "" |}
        /\ selectedCouncilKey (after_council_deleted latest st) = selectedCouncilKey st)
    /\ (forall fallback, fallback_council latest = Some fallback ->
        fallback ∈ latest
        /\ selectedCouncilKey (after_council_deleted latest st)
           = (if String.eqb (selectedCouncilKey st) (editingCouncilKey st)
              then c_key fallback else selectedCouncilKey st)
        /\ (forall old,
              find (fun c => String.eqb (c_key c) (c_key fallback)) (councils st)
              = Some old ->
              editingCouncilKey (after_council_deleted latest st) = c_key fallback
              /\ editingCouncilName (after_council_deleted latest st) = c_name old
              /\ settingsForm (after_council_deleted latest st)
                 = {| council_models := c_models old; chairman_model := c_chairman old |}
              /\ isNewCouncil (after_council_deleted latest st) = false)
        /\ ((c_key fallback ∉ map c_key (councils st)) ->
            editingCouncilKey (after_council_deleted latest st) = editingCouncilKey st
            /\ settingsForm (after_council_deleted latest st) = settingsForm st))).
  { unfold after_council_deleted.
    split; [reflexivity|]. split; [reflexivity|]. split.
    - intros ->. cbn. repeat split.
    - intros fallback Hf. rewrite Hf.
      split; [now apply fallback_council_listed|]. split; [reflexivity|].
      pose proof (find_key_spec (c_key fallback) (councils st)) as Hfind.
      split.
      + intros old Hold. rewrite Hold in Hfind. destruct Hfind as (_ & Hk).
        unfold handleSelectEditingCouncil. rewrite Hold. cbn. now rewrite Hk.
      + intros Hnin. unfold handleSelectEditingCouncil.
        destruct (find _ (councils st)) as [old|] eqn:E.
        * destruct Hfind as (Hin & Hk). exfalso. apply Hnin. rewrite <- Hk.
          apply list_elem_of_fmap. now exists old.
        * split; reflexivity. }
  split.
  { intros key Hkey.
    assert (key = editingCouncilKey st /\ confirmed = true) as (-> & ->).
    { destruct confirmed; cbn [negb] in Hkey; [|now apply elem_of_nil in Hkey].
      split; [|reflexivity].
      destruct answer_delete as [e|[]]; [|destruct answer_latest as [e|l]];
        cbn [fst] in Hkey;
        repeat (apply elem_of_cons in Hkey as [Hkey|Hkey]; [congruence|]);
        now apply elem_of_nil in Hkey. }
    repeat split; assumption. }
  split; [|intros _ _; exact Hdeleted].
  destruct confirmed; cbn [negb]; [|intros _; repeat split].
  destruct answer_delete as [e|[]]; [intros _; repeat split|].
  destruct answer_latest as [e|l]; [intros _; repeat split|].
  intros [H|[(e & H)|(e & H)]]; discriminate.
Qed.

Lemma handleDeleteCouncil_witness :
  let st := handleSelectEditingCouncil "research"
              (setSelectedKey "research" sample_settings) in
  let latest := [ {| c_key := "default"; c_name := "General";
                     c_models := ["openai/gpt-5"; "x-ai/grok"];
                     c_chairman := "x-ai/grok" |} ] in
  let deleted := (handleDeleteCouncil true (inr tt) (inr latest) st).2 in
  (handleDeleteCouncil true (inr tt) (inr latest) sample_settings).1 = []
  /\ (handleDeleteCouncil true (inr tt) (inr latest) st).1
     = [deleteCouncil "research"; listCouncils_again]
  /\ councils deleted = latest
  /\ editingCouncilKey deleted = "default"
  /\ selectedCouncilKey deleted = "default"
  /\ settingsForm deleted
     = {| council_models := ["openai/gpt-5"]; chairman_model := "openai/gpt-5" |}.
Proof.
  intros st latest deleted.
  pose proof (handleDeleteCouncil_spares_the_default true (inr tt) (inr latest) latest st)
    as (_ & _ & H).
  destruct H as (Hc & _ & _ & H); [reflexivity | discriminate|].
  destruct (H _ eq_refl) as (_ & Hsel & Hold & _).
  destruct (Hold _ eq_refl) as (Hkey & _ & Hform & _).
  split; [reflexivity|]. split; [reflexivity|]. split; [exact Hc|].
  split; [exact Hkey|]. split; [exact Hsel | exact Hform].
Defined.

(** What [loadCouncils] selects, by the key of the render that called it. *)
Lemma loadCouncils_selected (first : council) (rest : list council)
  (selected_at_call : string) (st : settings_state) :
  let councilList := first :: rest in
  let loaded := loadCouncils selected_at_call (inr councilList) st in
  selectedCouncilKey loaded ∈ map c_key councilList
  /\ (selected_at_call ∈ map c_key councilList -> selected_at_call <> "" ->
      selectedCouncilKey loaded = selected_at_call)
  /\ ((selected_at_call ∉ map c_key councilList) ->
      selectedCouncilKey loaded = c_key first).
Proof.
  intros councilList loaded. subst loaded councilList. unfold loadCouncils.
  cbn [selectedCouncilKey setSelectedKey setCouncils].
  pose proof (find_key_spec selected_at_call (first :: rest)) as Hfind.
  destruct (find _ (first :: rest)) as [c|].
  - destruct Hfind as (Hin & Hk). unfold str_or.
    destruct (String.eqb_spec (c_key c) "") as [E|E].
    + split; [apply list_elem_of_here|]. split.
      * intros _ Hne. congruence.
      * intros Hnin. reflexivity.
    + split; [apply list_elem_of_fmap; now exists c|]. split.
      * intros _ _. exact Hk.
      * intros Hnin. exfalso. apply Hnin. rewrite <- Hk.
        apply list_elem_of_fmap. now exists c.
  - cbn [str_or String.eqb]. split; [apply list_elem_of_here|]. split.
    + intros Hin. contradiction.
    + intros _. reflexivity.
Qed.

(** After the councils are loaded the selected council is one of the list,
    whenever the list has a council.  Which one depends on the key of the
    render that called the load, not on the key that is selected when the
    answer arrives: it is that key when the list has it (and it is not
    empty), and the key of the first council otherwise.  The application
    calls the load from the mount effect only, where that key is [default]:
    after it the selection is [default] when the list has a council of that
    key, and the first council otherwise, whatever was selected meanwhile.
    An empty list or a request that fails leaves the selection as it was,
    and the form is never touched. *)
Theorem loadCouncils_selects_a_listed_council :
  forall (councilList : list council) (e : js_error) (selected_at_call : string)
         (st : settings_state),
    let loaded := loadCouncils selected_at_call (inr councilList) st in
    let mounted := loadCouncils_on_mount (inr councilList) st in
    councils loaded = councilList
    /\ loadCouncils selected_at_call (inl e) st = st
    /\ settingsForm loaded = settingsForm st
    /\ (councilList = [] -> selectedCouncilKey loaded = selectedCouncilKey st)
    /\ (councilList <> [] ->
        selectedCouncilKey loaded ∈ map c_key councilList
        /\ (selected_at_call ∈ map c_key councilList ->
            selected_at_call <> "" ->
            selectedCouncilKey loaded = selected_at_call)
        /\ ((selected_at_call ∉ map c_key councilList) ->
            Some (selectedCouncilKey loaded) = head (map c_key councilList))
        /\ selectedCouncilKey mounted ∈ map c_key councilList
        /\ ("default" ∈ map c_key councilList -> selectedCouncilKey mounted = "default")
        /\ (("default" ∉ map c_key councilList) ->
            Some (selectedCouncilKey mounted) = head (map c_key councilList))).
Proof.
  intros councilList e selected_at_call st loaded mounted. subst loaded mounted.
  unfold loadCouncils_on_mount, initial_selectedCouncilKey.
  destruct councilList as [|first rest].
  - split; [reflexivity|]. split; [reflexivity|]. split; [reflexivity|].
    split; [reflexivity|]. intros Hne. contradiction.
  - split; [reflexivity|]. split; [reflexivity|]. split; [reflexivity|].
    split; [discriminate|]. intros _.
    destruct (loadCouncils_selected first rest selected_at_call st) as (H1 & H2 & H3).
    destruct (loadCouncils_selected first rest "default" st) as (M1 & M2 & M3).
    split; [exact H1|]. split; [exact H2|].
    split; [intros Hnin; cbn [head map]; f_equal; now apply H3|].
    split; [exact M1|].
    split; [intros Hin; now apply M2|].
    intros Hnin. cbn [head map]. f_equal. now apply M3.
Qed.

(** A page load on which the list of conversations is answered first and
    makes [research] the selected council: the answer to [loadCouncils]
    then selects [default]. *)
Lemma loadCouncils_witness :
  let listed := [ {| c_key := "default"; c_name := "General";
                     c_models := ["openai/gpt"]; c_chairman := "openai/gpt" |};
                  {| c_key := "research"; c_name := "Research";
                     c_models := ["google/gemini"]; c_chairman := "google/gemini" |} ] in
  let st := setSelectedKey "research" sample_settings in
  selectedCouncilKey st = "research"
  /\ selectedCouncilKey (loadCouncils_on_mount (inr listed) st) = "default"
  /\ selectedCouncilKey (loadCouncils "research" (inr listed) st) = "research".
Proof.
  intros listed st.
  pose proof (loadCouncils_selects_a_listed_council listed (Error "") "research" st)
    as (_ & _ & _ & _ & H).
  destruct H as (_ & H & _ & _ & M & _); [discriminate|].
  split; [reflexivity|]. split.
  - apply M. apply list_elem_of_here.
  - apply H; [|discriminate]. apply list_elem_of_further, list_elem_of_here.
Defined.

(* ===================================================================== *)
(** * A send whose stream ends normally *)
(* ===================================================================== *)

Lemma written_role (eventType event : js_value) (m : chat_message) :
  role (written eventType event m) = role m
  /\ content (written eventType event m) = content m.
Proof.
  unfold written. destruct (loading m); [|now split].
  destruct (case_of eventType); now split.
Qed.

Lemma insert_last_object {A : Type} (h : list A) (u m m' : A) :
  <[S (length h) := m']> (h ++ [u; m]) = h ++ [u; m'].
Proof.
  rewrite insert_app_r_alt by lia.
  replace (S (length h) - length h) with 1 by lia. reflexivity.
Qed.

Lemma begin_send_sending (Date_getTime : js_value -> option Z) (now : string)
  (currentId content : string) (st : app_state) :
  exists st1,
    begin_send Date_getTime now currentId content st = Some st1
    /\ sending st content st1
    /\ isLoading st1 = true.
Proof.
  unfold begin_send, setCurrentConversation, ensure_conversation, append_message.
  destruct st as [h convs cid [conv|] ld err eff]; cbn -[markConversationInteracted].
  all: eexists; split; [reflexivity|]; split; [|reflexivity].
  all: eexists _, assistantMessage, _; unfold in_progress, open_messages; cbn.
  all: destruct (store_after_appends h (userMessage content) assistantMessage)
         as (H1 & H2 & H3 & H4).
  all: rewrite ?H4.
  all: split; [split; [reflexivity|]; cbn [messages]; split;
               [rewrite <- ?app_assoc; now rewrite ?last_app|];
               split; [exact H2 | reflexivity]|].
  all: cbn [messages]; split; [now rewrite <- ?app_assoc|];
       split; [now rewrite <- app_assoc | reflexivity].
Qed.

(** Every event keeps the run going, and only [complete] and [error] clear
    the loading state; none sets it. *)
Lemma dispatch_sending (st0 : app_state) (content : string) (st : app_state)
  (eventType event : js_value) :
  sending st0 content st ->
  exists st', dispatch eventType event st = Some st'
              /\ sending st0 content st'
              /\ isLoading st' = isLoading st && negb (ends_run (eventType, event)).
Proof.
  intros (conv & m & l & Hin & Hmsgs & Hstore & Hrole).
  pose proof (dispatch_in_progress st conv _ m l eventType event Hin) as Hd.
  assert (Hwrite : forall m', loading m' <> None -> role m' = JSStr "assistant" ->
            sending st0 content
              (set_store (<[S (length (store st0)) := m']> (store st)) st)).
  { intros m' Hm' Hr. destruct (loading m') as [l'|] eqn:El; [|contradiction].
    exists conv, m', l'. split; [exact (in_progress_written _ _ _ _ _ _ _ Hin El)|].
    split; [exact Hmsgs|]. split; [|exact Hr].
    cbn [store set_store]. rewrite Hstore. apply insert_last_object. }
  assert (Hsame : forall st', currentConversation st' = currentConversation st ->
            store st' = store st -> sending st0 content st').
  { intros st' E1 E2. exists conv, m, l.
    destruct Hin as (Hc & Hlast & Hm & Hl).
    repeat split; try assumption; congruence. }
  unfold ends_run. cbn [fst].
  destruct (case_of eventType); cbv zeta in Hd; rewrite Hd;
    (eexists; split; [reflexivity|]; split;
     [first [apply Hwrite; [discriminate | exact Hrole] | apply Hsame; reflexivity]
     | cbn; now rewrite ?andb_true_r, ?andb_false_r]).
Qed.

Lemma effects_sending (st0 : app_state) (content : string)
  (JSON_parse : string -> option js_value) (evts : list string) (st : app_state) :
  sending st0 content st ->
  exists st',
    foldl (run_effect onEvent reader_console) (Some st)
      (omap (effect_of_chunk JSON_parse) evts) = Some st'
    /\ sending st0 content st'
    /\ isLoading st'
       = isLoading st && negb (existsb ends_run (omap (delivery JSON_parse) evts)).
Proof.
  revert st. induction evts as [|evt evts IH]; intros st Hs.
  - exists st. cbn. now rewrite andb_true_r.
  - cbn [omap list_omap]. unfold delivery at 1.
    destruct (effect_of_chunk JSON_parse evt) as [[ty event|data]|];
      cbn [foldl run_effect onEvent existsb].
    + destruct (dispatch_sending _ _ st ty event Hs) as (st1 & -> & Hs1 & Hl1).
      destruct (IH st1 Hs1) as (st' & Hf & Hs' & Hl').
      exists st'. split; [exact Hf|]. split; [exact Hs'|].
      rewrite Hl', Hl1, negb_orb. now rewrite andb_assoc.
    + assert (Hs1 : sending st0 content
                (perform (ConsoleError "Failed to parse SSE event chunk:" (JSStr data)) st)).
      { destruct Hs as (conv & m & l & H). exists conv, m, l. exact H. }
      destruct (IH _ Hs1) as (st' & Hf & Hs' & Hl').
      exists st'. cbn [reader_console]. now split.
    + now apply IH.
Qed.

(** A send whose stream ends normally keeps the two messages it appended.
    Whatever the stream held, the handler returns with the open conversation
    being the one of before followed by the user message, with the text as
    given, and the assistant message; the messages of before are untouched.
    The loading state is cleared exactly when a [complete] or an [error]
    event was delivered: the handler itself does not clear it when the
    stream ends, so a stream that ends without either leaves the indicator
    of a run on. *)
Theorem finished_send_keeps_both_messages :
  forall (JSON_parse : string -> option js_value) (Date_getTime : js_value -> option Z)
         (now content cid : string) (chunks : list string) (st : app_state),
    currentConversationId st = Some cid -> cid <> "" ->
    exists st' answer,
      handleSendMessage JSON_parse Date_getTime now content (HttpStream chunks None) st
      = Some st'
      /\ open_messages st' = open_messages st ++ [length (store st); S (length (store st))]
      /\ store st' = store st ++ [userMessage content; answer]
      /\ role answer = JSStr "assistant"
      /\ isLoading st' = negb (existsb ends_run (delivered JSON_parse chunks)).
Proof.
  intros JSON_parse Date_getTime now content cid chunks st Hcid Hne.
  unfold handleSendMessage. rewrite Hcid.
  destruct (String.eqb_spec cid ""); [contradiction|].
  destruct (begin_send_sending Date_getTime now cid content st) as (st1 & -> & Hs & Hl).
  rewrite sendMessageStream_stream.
  destruct (effects_sending _ _ JSON_parse (complete_chunks (concat_text chunks)) st1 Hs)
    as (st' & -> & (conv & m & l & (Hc & _) & Hmsgs & Hstore & Hrole) & Hl').
  exists st', m. split; [reflexivity|].
  unfold open_messages at 1. rewrite Hc.
  split; [exact Hmsgs|]. split; [exact Hstore|]. split; [exact Hrole|].
  rewrite Hl', Hl. reflexivity.
Qed.

Lemma finished_send_witness :
  let cut := ["data: {" +:+ quoted "type" +:+ ": " +:+ quoted "stage1_start" +:+ "}"
              +:+ blank_line] in
  let whole := cut ++ [sse_event "complete"] in
  currentConversationId sample_idle_state = Some "c1"
  /\ (exists st' answer,
        handleSendMessage Json.parse epoch_getTime "now" "Hello" (HttpStream cut None)
          sample_idle_state = Some st'
        /\ store st' = store sample_idle_state ++ [userMessage "Hello"; answer]
        /\ isLoading st' = true)
  /\ (exists st' answer,
        handleSendMessage Json.parse epoch_getTime "now" "Hello" (HttpStream whole None)
          sample_idle_state = Some st'
        /\ store st' = store sample_idle_state ++ [userMessage "Hello"; answer]
        /\ isLoading st' = false).
Proof.
  intros cut whole. split; [reflexivity|]. split.
  - destruct (finished_send_keeps_both_messages Json.parse epoch_getTime "now" "Hello"
                "c1" cut sample_idle_state eq_refl)
      as (st' & answer & H1 & _ & H3 & _ & H5); [discriminate|].
    exists st', answer. repeat split; assumption.
  - destruct (finished_send_keeps_both_messages Json.parse epoch_getTime "now" "Hello"
                "c1" whole sample_idle_state eq_refl)
      as (st' & answer & H1 & _ & H3 & _ & H5); [discriminate|].
    exists st', answer. repeat split; assumption.
Defined.

(* ===================================================================== *)
(** * Opening the settings dialog *)
(* ===================================================================== *)

Lemma activeCouncil_listed (councilList : list council) (preferred : string) :
  match activeCouncil councilList preferred with
  | Some c => c ∈ councilList
                /\ (preferred ∈ map c_key councilList -> c_key c = preferred)
  | None => councilList = []
  end.
Proof.
  unfold activeCouncil.
  pose proof (find_key_spec preferred councilList) as H.
  destruct (find (fun c => String.eqb (c_key c) preferred) councilList) as [c|].
  - destruct H as (Hin & Hk). now split.
  - destruct councilList as [|c rest]; [reflexivity|]. cbn [head].
    split; [apply list_elem_of_here | intros Hin; contradiction].
Qed.

(** The dialog opens on a council of the server's list whenever the list has
    one: the council of the open conversation, or else the selected one, when
    the list has it, and the first council otherwise.  The form then shows
    that council's members, and its chairman when it has one, so a council
    whose chairman is a member gives a form whose chairman is; nothing is
    marked dirty and the inputs are cleared.  With an empty list the dialog
    starts a new council from the global settings.  When either request
    fails, the dialog is open with an error, and councils and form are as
    before.  In every case the loading flag is cleared. *)
Theorem handleOpenSettings_edits_a_listed_council :
  forall (data : settings_answer) (councilList : list council) (e : js_error)
         (answer_councils : js_error + list council)
         (conversationCouncil : string) (st : settings_state),
    let preferred := preferredCouncilKey conversationCouncil st in
    let result := handleOpenSettings (inr data) (inr councilList) conversationCouncil st in
    let opened := result.1.2 in
    let failed1 := handleOpenSettings (inl e) answer_councils conversationCouncil st in
    let failed2 := handleOpenSettings (inr data) (inl e) conversationCouncil st in
    result.1.1 = [getSettings; listCouncils_for_dialog]
    /\ result.2 = false /\ failed1.2 = false /\ failed2.2 = false
    /\ preferred <> ""
    /\ isSettingsOpen opened = true
    /\ councils opened = councilList
    /\ dirtyCouncils opened = []
    /\ settingsError opened = "" /\ councilError opened = ""
    /\ apiKeyInput opened = "" /\ newModelInput opened = ""
    /\ selectedCouncilKey opened = selectedCouncilKey st
    /\ (councilList = [] ->
        isNewCouncil opened = true
        /\ editingCouncilKey opened = preferred
        /\ council_models (settingsForm opened) = a_council_models data
        /\ chairman_model (settingsForm opened) = a_chairman_model data)
    /\ (councilList <> [] ->
        exists c, c ∈ councilList
          /\ (preferred ∈ map c_key councilList -> c_key c = preferred)
          /\ isNewCouncil opened = false
          /\ council_models (settingsForm opened) = c_models c
          /\ (c_key c <> "" -> editingCouncilKey opened = c_key c)
          /\ (c_chairman c <> "" -> chairman_model (settingsForm opened) = c_chairman c)
          /\ (c_chairman c <> "" -> council_ok c -> form_ok (settingsForm opened)))
    /\ failed1.1.1 = [getSettings]
    /\ (forall failed, failed = failed1 \/ failed = failed2 ->
        settingsError failed.1.2 = "Failed to load settings. Try again."
        /\ isSettingsOpen failed.1.2 = true
        /\ councils failed.1.2 = councils st
        /\ settingsForm failed.1.2 = settingsForm st
        /\ dirtyCouncils failed.1.2 = dirtyCouncils st).
Proof.
  intros data councilList e answer_councils conversationCouncil st
    preferred result opened failed1 failed2.
  assert (Hpref : preferred <> "").
  { subst preferred. unfold preferredCouncilKey. repeat apply str_or_nonempty. discriminate. }
  assert (Hpref' : preferredCouncilKey conversationCouncil (open_dialog st) = preferred)
    by reflexivity.
  subst result opened failed1 failed2. unfold handleOpenSettings.
  cbn [fst snd]. unfold dialog_opened. rewrite Hpref'.
  cbn [isSettingsOpen councils dirtyCouncils settingsError councilError apiKeyInput
         newModelInput selectedCouncilKey isNewCouncil editingCouncilKey settingsForm
         council_models chairman_model open_dialog].
  pose proof (activeCouncil_listed councilList preferred) as Hactive.
  repeat (split; [reflexivity || exact Hpref|]).
  split; [|split; [|split]].
  - intros ->. cbn [activeCouncil find head]. cbn [str_or String.eqb].
    unfold str_or.
    destruct (String.eqb_spec preferred ""); [contradiction|].
    split; [reflexivity|]. split; [reflexivity|]. split; [reflexivity|].
    now destruct (String.eqb (a_chairman_model data) "") eqn:E;
      [apply String.eqb_eq in E|].
  - intros Hne. destruct (activeCouncil councilList preferred) as [c|];
      [|contradiction].
    destruct Hactive as (Hin & Hk). exists c.
    split; [exact Hin|]. split; [exact Hk|]. split; [reflexivity|].
    split; [reflexivity|].
    assert (Hchair : c_chairman c <> "" ->
              str_or (c_chairman c) (str_or (a_chairman_model data) "") = c_chairman c).
    { intros H. unfold str_or at 1.
      destruct (String.eqb_spec (c_chairman c) ""); [contradiction | reflexivity]. }
    split; [|split; [exact Hchair|]].
    + intros H. unfold str_or at 1.
      destruct (String.eqb_spec (c_key c) ""); [contradiction | reflexivity].
    + intros H Hok. unfold form_ok. cbn [council_models chairman_model].
      rewrite (Hchair H). exact Hok.
  - now destruct answer_councils.
  - intros failed [->| ->]; [destruct answer_councils|]; repeat split.
Qed.

Lemma handleOpenSettings_witness :
  let data := {| has_openrouter_key := JSBool true; openrouter_key_last4 := JSStr "abcd";
                 a_available_models := None; a_council_models := ["openai/gpt-5"];
                 a_chairman_model := "openai/gpt-5" |} in
  let opened :=
    (handleOpenSettings (inr data) (inr (councils sample_settings)) "research"
       sample_settings).1.2 in
  editingCouncilKey opened = "research"
  /\ settingsForm opened
     = {| council_models := ["google/gemini"; "x-ai/grok"];
          chairman_model := "google/gemini" |}
  /\ form_ok (settingsForm opened).
Proof.
  intros data opened.
  pose proof (handleOpenSettings_edits_a_listed_council data (councils sample_settings)
                (Error "") (inl (Error "")) "research" sample_settings)
    as (_ & _ & _ & _ & _ & _ & _ & _ & _ & _ & _ & _ & _ & _ & H & _).
  destruct H as (c & Hin & Hk & _ & Hm & Hkey & Hchair & Hok); [discriminate|].
  assert (Hc : c_key c = "research").
  { apply Hk. apply list_elem_of_further, list_elem_of_here. }
  assert (c = {| c_key := "research"; c_name := "Research";
                 c_models := ["google/gemini"; "x-ai/grok"];
                 c_chairman := "google/gemini" |}) as ->.
  { cbn in Hin. apply elem_of_cons in Hin as [->|Hin]; [discriminate|].
    apply list_elem_of_singleton in Hin. exact Hin. }
  split; [reflexivity|]. split; [reflexivity|].
  apply Hok; [discriminate|]. intros _. apply list_elem_of_here.
Defined.

(* ===================================================================== *)
(** * The menu of a conversation *)
(* ===================================================================== *)

Section ContextMenuFacts.

Variable coordinate : Type.
Variable origin : coordinate.
Variable plus4 : coordinate -> coordinate.

(** What holds of the menu and the calls at any time. *)
Lemma menu_after_invariant (actions : list (menu_action coordinate)) :
  let result := menu_after origin plus4 actions in
  (visible result.2 = true <-> menu_conversation result.2 <> None)
  /\ (forall c, menu_conversation result.2 = Some c ->
        Some c ∈ map (opens_on) actions)
  /\ (forall call, call ∈ result.1 ->
        exists c, Some c ∈ map (opens_on) actions /\ call_about c call).
Proof.
  induction actions as [|action actions IH] using rev_ind.
  - cbn. split; [split; [discriminate | intros H; now destruct H]|].
    split; [discriminate|]. intros call H. now apply elem_of_nil in H.
  - unfold menu_after in *. rewrite foldl_app. cbn [foldl].
    destruct (foldl (menu_step plus4) ([], closed_menu coordinate origin) actions)
      as [calls menu].
    cbn [fst snd] in IH. destruct IH as (Hvis & Hconv & Hcalls).
    rewrite map_app. cbn [map].
    assert (Hold : forall c, Some c ∈ map (opens_on) actions ->
              Some c ∈ map (opens_on) actions ++ [opens_on action]).
    { intros c H. apply elem_of_app. now left. }
    assert (Hhide : forall m : context_menu coordinate,
              (visible m = true <-> menu_conversation m <> None) ->
              (visible (hideMenu m) = true
               <-> menu_conversation (hideMenu m) <> None)
              /\ (forall c, menu_conversation (hideMenu m) = Some c ->
                    menu_conversation m = Some c)).
    { intros m Hm. unfold hideMenu. destruct (visible m) eqn:E.
      - cbn. split; [split; [discriminate | intros H; now destruct H] | discriminate].
      - split; [now rewrite E | easy]. }
    assert (Hpress : forall handler : context_menu coordinate ->
                                      list menu_call * context_menu coordinate,
              (handler = handleRename \/ handler = handleDelete) ->
              visible menu = true ->
              (visible (handler menu).2 = true
               <-> menu_conversation (handler menu).2 <> None)
              /\ (forall c, menu_conversation (handler menu).2 = Some c -> False)
              /\ (forall call, call ∈ (handler menu).1 ->
                    exists c, menu_conversation menu = Some c
                              /\ call_about c call)).
    { intros handler Hh Hv.
      destruct (menu_conversation menu) as [c|] eqn:Ec;
        [|apply Hvis in Hv; contradiction].
      destruct Hh as [-> | ->]; unfold handleRename, handleDelete; rewrite Ec; cbn.
      - split; [split; [discriminate | intros H; now destruct H]|].
        split; [discriminate|]. intros call H. apply list_elem_of_singleton in H.
        exists c. split; [reflexivity | now left].
      - split; [split; [discriminate | intros H; now destruct H]|].
        split; [discriminate|]. intros call H. apply list_elem_of_singleton in H.
        exists c. split; [reflexivity | now right]. }
    destruct action as [| |key|x y conv|r b conv| |]; cbn [menu_step fst snd opens_on].
    + destruct (Hhide menu Hvis) as (H1 & H2). split; [exact H1|]. split.
      * intros c Hc. apply Hold, Hconv, H2, Hc.
      * intros call Hc. destruct (Hcalls call Hc) as (c & Hin & Ha). exists c. auto.
    + destruct (Hhide menu Hvis) as (H1 & H2). split; [exact H1|]. split.
      * intros c Hc. apply Hold, Hconv, H2, Hc.
      * intros call Hc. destruct (Hcalls call Hc) as (c & Hin & Ha). exists c. auto.
    + unfold Sidebar_handleKeyDown. destruct (String.eqb key "Escape").
      * destruct (Hhide menu Hvis) as (H1 & H2). split; [exact H1|]. split.
        -- intros c Hc. apply Hold, Hconv, H2, Hc.
        -- intros call Hc. destruct (Hcalls call Hc) as (c & Hin & Ha). exists c. auto.
      * split; [exact Hvis|]. split.
        -- intros c Hc. apply Hold, Hconv, Hc.
        -- intros call Hc. destruct (Hcalls call Hc) as (c & Hin & Ha). exists c. auto.
    + cbn. split; [split; [discriminate | reflexivity]|]. split.
      * intros c [= <-]. apply elem_of_app. right. apply list_elem_of_here.
      * intros call Hc. destruct (Hcalls call Hc) as (c & Hin & Ha). exists c. auto.
    + cbn. split; [split; [discriminate | reflexivity]|]. split.
      * intros c [= <-]. apply elem_of_app. right. apply list_elem_of_here.
      * intros call Hc. destruct (Hcalls call Hc) as (c & Hin & Ha). exists c. auto.
    + destruct (visible menu) eqn:Ev.
      * destruct (Hpress _ (or_introl eq_refl) eq_refl) as (H1 & H2 & H3).
        cbn [fst snd]. split; [exact H1|]. split.
        -- intros c Hc. now apply H2 in Hc.
        -- intros call Hc. apply elem_of_app in Hc as [Hc|Hc].
           ++ destruct (Hcalls call Hc) as (c & Hin & Ha). exists c. auto.
           ++ destruct (H3 call Hc) as (c & Hm & Ha). exists c. auto.
      * cbn [fst snd]. split; [rewrite Ev; exact Hvis|]. split.
        -- intros c Hc. apply Hold, Hconv, Hc.
        -- intros call Hc. destruct (Hcalls call Hc) as (c & Hin & Ha). exists c. auto.
    + destruct (visible menu) eqn:Ev.
      * destruct (Hpress _ (or_intror eq_refl) eq_refl) as (H1 & H2 & H3).
        cbn [fst snd]. split; [exact H1|]. split.
        -- intros c Hc. now apply H2 in Hc.
        -- intros call Hc. apply elem_of_app in Hc as [Hc|Hc].
           ++ destruct (Hcalls call Hc) as (c & Hin & Ha). exists c. auto.
           ++ destruct (H3 call Hc) as (c & Hm & Ha). exists c. auto.
      * cbn [fst snd]. split; [rewrite Ev; exact Hvis|]. split.
        -- intros c Hc. apply Hold, Hconv, Hc.
        -- intros call Hc. destruct (Hcalls call Hc) as (c & Hin & Ha). exists c. auto.
Qed.

End ContextMenuFacts.

(** The menu of the sidebar is never shown without its conversation.
    Whatever the user and the window have done, the menu is visible exactly
    when it holds a conversation, which is one that a right click or an
    options button opened it on; so the Rename and Delete buttons, which
    exist only while the menu is visible, always reach the parent, with the
    id (and the title) of that conversation, and close the menu; and every
    call made so far is about a conversation the menu was opened on. *)
Theorem context_menu_holds_its_conversation :
  forall (coordinate : Type) (origin : coordinate) (plus4 : coordinate -> coordinate)
         (actions : list (menu_action coordinate)),
    let result := menu_after origin plus4 actions in
    (visible result.2 = true <-> menu_conversation result.2 <> None)
    /\ (forall call, call ∈ result.1 ->
          exists c, Some c ∈ map (opens_on) actions /\ call_about c call)
    /\ (visible result.2 = true ->
        exists c,
          Some c ∈ map (opens_on) actions
          /\ handleRename result.2
             = ([onRenameConversation (cs_id c) (title c)], hidden result.2)
          /\ handleDelete result.2
             = ([onDeleteConversation (cs_id c)], hidden result.2)
          /\ visible (hidden result.2) = false).
Proof.
  intros coordinate origin plus4 actions result.
  destruct (menu_after_invariant coordinate origin plus4 actions) as (Hvis & Hconv & Hcalls).
  fold result in Hvis, Hconv, Hcalls.
  split; [exact Hvis|]. split; [exact Hcalls|].
  intros Hv. apply Hvis in Hv.
  destruct (menu_conversation result.2) as [c|] eqn:Ec; [|contradiction].
  exists c. split; [now apply Hconv|].
  unfold handleRename, handleDelete. rewrite Ec. repeat split.
Qed.

Lemma context_menu_witness :
  let actions :=
    [RightClick 10%Z 20%Z (listed "a" 100); KeyDown "Escape";
     OptionsButton 30%Z 40%Z (listed "c" 200); DeleteButton; DeleteButton] in
  (menu_after 0%Z (Z.add 4) actions).1 = [onDeleteConversation "c"]
  /\ visible (menu_after 0%Z (Z.add 4) (take 3 actions)).2 = true
  /\ exists c,
       Some c ∈ map opens_on (take 3 actions)
       /\ handleDelete (menu_after 0%Z (Z.add 4) (take 3 actions)).2
          = ([onDeleteConversation (cs_id c)],
             hidden (menu_after 0%Z (Z.add 4) (take 3 actions)).2).
Proof.
  intros actions.
  pose proof (context_menu_holds_its_conversation Z 0%Z (Z.add 4) (take 3 actions))
    as (_ & _ & H).
  destruct (H eq_refl) as (c & Hc & _ & Hd & _).
  split; [reflexivity|]. split; [reflexivity|].
  exists c. split; [exact Hc | exact Hd].
Defined.


(** A save that passes the guards starts with the request for the edited
    council. *)
Lemma handleSaveSettings_failure_or_requests (srv : server) (st : settings_state) :
  (length (council_models (settingsForm st)) = 0
   \/ 4 < length (council_models (settingsForm st))
   \/ chairman_model (settingsForm st) = "")
  \/ exists rest, (handleSaveSettings srv st).1 = edited_council_request st :: rest.
Proof.
  unfold handleSaveSettings.
  cbn [settingsForm setCouncilError setSettingsError availableModels].
  destruct (length (council_models (settingsForm st)) =? 0) eqn:E0;
    [left; left; now apply Nat.eqb_eq|].
  destruct (4 <? length (council_models (settingsForm st))) eqn:E4;
    [left; right; left; now apply Nat.ltb_lt|].
  destruct (String.eqb_spec (chairman_model (settingsForm st)) "");
    [left; right; now right|].
  right.
  change (edited_council_request (setCouncilError "" (setSettingsError "" st)))
    with (edited_council_request st).
  destruct (answer_save srv); [eexists; reflexivity|].
  destruct (send_dirty srv _) as [dirty_calls [e|]]; [eexists; reflexivity|].
  destruct (answer_list srv); [eexists; reflexivity|].
  destruct (answer_settings srv); eexists; reflexivity.
Qed.

(* ===================================================================== *)
(** * A council that is new *)
(* ===================================================================== *)

(** A council that was started in the dialog is sent to the server by a
    create request.  Right after [handleStartNewCouncil] the form is empty,
    so a save is turned down without a request, and so is a delete; the
    listed councils and the dirty marks are as before.  Once a model is
    ticked it is the only member and the chairman, and the first request of
    a save creates a council of the name [New Council] with that member and
    chairman; the request carries no key. *)
Theorem new_council_is_created :
  forall (stamp model : string) (srv : server) (confirmed : bool)
         (answer_delete : js_error + unit) (answer_latest : js_error + list council)
         (st : settings_state),
    model <> "" ->
    let started := handleStartNewCouncil stamp st in
    let ticked := toggle_in_dialog model started in
    handleSaveSettings srv started
    = ([], setSettingsError "Select at least one council member (max 4)."
             (setCouncilError "" (setSettingsError "" started)))
    /\ handleDeleteCouncil confirmed answer_delete answer_latest started
       = ([], setCouncilError "Save this council before deleting." started)
    /\ councils started = councils st
    /\ dirtyCouncils started = dirtyCouncils st
    /\ settingsForm ticked = {| council_models := [model]; chairman_model := model |}
    /\ exists rest,
         (handleSaveSettings srv ticked).1
         = createCouncil {| p_name := "New Council";
                            p_council_models := [model];
                            p_chairman_model := model |} :: rest.
Proof.
  intros stamp model srv confirmed answer_delete answer_latest st Hmodel started ticked.
  assert (Hform : settingsForm ticked
                  = {| council_models := [model]; chairman_model := model |}).
  { subst ticked started. unfold toggle_in_dialog. cbn [settingsForm set_editing
      handleStartNewCouncil]. unfold handleToggleModel, next_chairman, includes_model.
    cbn [council_models chairman_model].
    case_bool_decide as Hin; [now apply not_elem_of_nil in Hin|].
    cbn [negb andb].
    case_bool_decide as Hchair;
      [apply list_elem_of_singleton in Hchair; now contradiction Hmodel|].
    cbn. destruct (String.eqb_spec model ""); [contradiction | reflexivity]. }
  split; [reflexivity|]. split; [reflexivity|]. split; [reflexivity|].
  split; [reflexivity|]. split; [exact Hform|].
  destruct (handleSaveSettings_failure_or_requests srv ticked) as [Hguard|(rest & ->)].
  - exfalso. rewrite Hform in Hguard. cbn in Hguard.
    destruct Hguard as [H|[H|H]]; [discriminate | lia | contradiction].
  - exists rest. unfold edited_council_request. rewrite Hform. reflexivity.
Qed.

Lemma new_council_witness :
  let ticked :=
    toggle_in_dialog "x-ai/grok" (handleStartNewCouncil "1700000000000" sample_settings) in
  editingCouncilKey ticked = "new-1700000000000"
  /\ exists rest,
       (handleSaveSettings (accepting_server None []) ticked).1
       = createCouncil {| p_name := "New Council";
                          p_council_models := ["x-ai/grok"];
                          p_chairman_model := "x-ai/grok" |} :: rest.
Proof.
  intros ticked.
  pose proof (new_council_is_created "1700000000000" "x-ai/grok" (accepting_server None [])
                true (inr tt) (inr []) sample_settings) as H.
  destruct H as (_ & _ & _ & _ & _ & rest & Hr); [discriminate|].
  split; [reflexivity|]. exists rest. exact Hr.
Defined.
